(** * Solana gateway: transaction engine and trade guards

    A shallow embedding of the Solana chain class ([Solana]), the Jupiter
    connector ([Jupiter]) and the Jupiter controllers ([getTradeInfo],
    [price], [trade]), with the properties of the fee estimator, the
    broadcast/confirm engine, the fee-escalation loops, the token resolver
    and the trade guards.

    JavaScript numbers are IEEE-754 binary64 values, modelled with the
    executable specification [spec_float] at precision 53; [Decimal] values
    (decimal.js-light) are exact decimals.  Network calls are answered by an
    explicit, scripted world that the code consumes call by call. *)

From Stdlib Require Import ZArith Bool List Ascii String.
From Stdlib Require Import Floats.SpecFloat.
From Stdlib Require Import Numbers.DecimalString Numbers.DecimalN.
From stdpp Require Import base option list gmap strings.

Local Open Scope Z_scope.
Local Open Scope string_scope.

(* ================================================================== *)
(** ** JavaScript numbers *)
(* ================================================================== *)

Module Num.

Definition number := spec_float.

Definition prec : Z := 53.
Definition emax : Z := 1024.

Definition NaN : number := S754_nan.
Definition zero : number := S754_zero false.

(** The number nearest to the integer [z] (round to nearest, ties to
    even); exact whenever [|z| < 2^53]. *)
Definition ofZ (z : Z) : number := binary_normalize prec emax z 0 false.

(** The number nearest to the rational [n / d], for [d > 0]. *)
Definition ofRatio (n : Z) (d : positive) : number :=
  match n with
  | Z0 => S754_zero false
  | Zpos p =>
      let '(mz, ez, lz) := SFdiv_core_binary prec emax (Zpos p) 0 (Zpos d) 0 in
      binary_round_aux prec emax false mz ez lz
  | Zneg p =>
      let '(mz, ez, lz) := SFdiv_core_binary prec emax (Zpos p) 0 (Zpos d) 0 in
      binary_round_aux prec emax true mz ez lz
  end.

(** The number nearest to [c * 10^e]. *)
Definition ofDecimal (c e : Z) : number :=
  match e with
  | Zneg p => ofRatio c (Z.to_pos (10 ^ Zpos p))
  | _ => ofZ (c * 10 ^ e)
  end.

Definition add : number -> number -> number := SFadd prec emax.
Definition sub : number -> number -> number := SFsub prec emax.
Definition mul : number -> number -> number := SFmul prec emax.
Definition div : number -> number -> number := SFdiv prec emax.

(** Relational operators: every comparison with [NaN] is false. *)
Definition ltb (x y : number) : bool := SFltb x y.
Definition leb (x y : number) : bool := SFleb x y.
Definition gtb (x y : number) : bool := SFltb y x.
Definition geb (x y : number) : bool := SFleb y x.
(** [===] on numbers. *)
Definition eqb (x y : number) : bool := SFeqb x y.

Definition isNaN (x : number) : bool :=
  match x with S754_nan => true | _ => false end.

Definition isFinite (x : number) : bool :=
  match x with S754_nan | S754_infinity _ => false | _ => true end.

(** Truthiness of a number: [0], [-0] and [NaN] are falsy. *)
Definition truthy (x : number) : bool :=
  match x with S754_nan | S754_zero _ => false | _ => true end.

(** [Math.floor]. *)
Definition floor (x : number) : number :=
  match x with
  | S754_finite s m e =>
      match e with
      | Zneg p =>
          let q := Z.shiftr (Zpos m) (Zpos p) in
          let exact := Z.eqb (Z.shiftl q (Zpos p)) (Zpos m) in
          if s then ofZ (- (if exact then q else q + 1))
          else binary_normalize prec emax q 0 false
      | _ => x
      end
  | _ => x
  end.

(** [Math.ceil]; a negative argument above [-1] gives [-0]. *)
Definition ceil (x : number) : number :=
  match x with
  | S754_finite s m e =>
      match e with
      | Zneg p =>
          let q := Z.shiftr (Zpos m) (Zpos p) in
          let exact := Z.eqb (Z.shiftl q (Zpos p)) (Zpos m) in
          if s then binary_normalize prec emax (- q) 0 true
          else ofZ (if exact then q else q + 1)
      | _ => x
      end
  | _ => x
  end.

(** [Math.max] of two arguments: [NaN] if either is [NaN]; [+0] is
    larger than [-0]. *)
Definition max (x y : number) : number :=
  match SFcompare x y with
  | None => NaN
  | Some Gt => x
  | Some Lt => y
  | Some Eq =>
      match x, y with
      | S754_zero true, S754_zero _ => y
      | _, _ => x
      end
  end.

(** [10 ** d] for an integer [d], taken correctly rounded (it is exact
    for [0 <= d <= 22]). *)
Definition pow10 (d : Z) : number := ofDecimal 1 d.

(** The integer value of an integer-valued number, used for array
    indices and counts. *)
Definition toZ (x : number) : option Z :=
  match x with
  | S754_zero _ => Some 0
  | S754_finite s m e =>
      match e with
      | Zneg p =>
          let q := Z.shiftr (Zpos m) (Zpos p) in
          if Z.eqb (Z.shiftl q (Zpos p)) (Zpos m)
          then Some (if s then - q else q) else None
      | _ => Some ((if s then -1 else 1) * Zpos m * 2 ^ e)
      end
  | _ => None
  end.

(** [Math.round]: the nearest integer, a half going up. *)
Definition round (x : number) : number :=
  match x with
  | S754_finite s m e =>
      match e with
      | Zneg p =>
          let d := 2 ^ Zpos p in
          let q := (2 * (if s then - Zpos m else Zpos m) + d) / (2 * d) in
          binary_normalize prec emax q 0 s
      | _ => x
      end
  | _ => x
  end.

(** *** Decimal digits *)

Definition digitsOfN (n : N) : string := NilZero.string_of_uint (N.to_uint n).
Definition digitsOfZ (z : Z) : string := digitsOfN (Z.to_N z).

Fixpoint zeros (n : nat) : string :=
  match n with O => "" | S n' => String "0" (zeros n') end.

Definition isDigit (c : ascii) : bool :=
  let n := N_of_ascii c in (N.leb 48 n && N.leb n 57)%bool.

Fixpoint spanDigits (l : list ascii) : list ascii * list ascii :=
  match l with
  | c :: l' =>
      if isDigit c then let '(ds, r) := spanDigits l' in (c :: ds, r)
      else ([], l)
  | [] => ([], [])
  end.

Definition digitsValue (ds : list ascii) : Z :=
  fold_left (fun acc c => 10 * acc + (Z.of_N (N_of_ascii c) - 48)) ds 0.

(** An unsigned decimal literal [digits[.digits]] or [.digits], with an
    optional exponent part [e[+-]digits]: its value is [c * 10^x] for
    the returned pair [(c, x)]. *)
Definition lexExponent (l : list ascii) : option Z :=
  match l with
  | [] => Some 0
  | c :: l' =>
      if (Ascii.eqb c "e" || Ascii.eqb c "E")%bool then
        let '(neg, l'') :=
          match l' with
          | s :: r =>
              if Ascii.eqb s "-" then (true, r)
              else if Ascii.eqb s "+" then (false, r) else (false, l')
          | [] => (false, l')
          end in
        match spanDigits l'' with
        | (d :: ds, []) =>
            Some (if neg then - digitsValue (d :: ds) else digitsValue (d :: ds))
        | _ => None
        end
      else None
  end.

Definition lexDecimal (l : list ascii) : option (Z * Z) :=
  let '(ip, r) := spanDigits l in
  let '(fp, r', ok) :=
    match r with
    | c :: r1 =>
        if Ascii.eqb c "." then
          let '(fp, r2) := spanDigits r1 in
          (fp, r2, negb (Nat.eqb (length ip + length fp) 0))
        else ([], r, negb (Nat.eqb (length ip) 0))
    | [] => ([], r, negb (Nat.eqb (length ip) 0))
    end in
  if ok then
    match lexExponent r' with
    | Some x => Some (digitsValue (ip ++ fp), x - Z.of_nat (length fp))
    | None => None
    end
  else None.

(** [Number(s)] for a string [s].  Recognised: the empty string, an
    optional sign followed by a decimal literal or [Infinity].  Leading
    and trailing white space and the [0x], [0o], [0b] literals are not
    modelled; such strings are mapped to [NaN] here. *)
Definition ofString (s : string) : number :=
  match list_ascii_of_string s with
  | [] => zero
  | c :: l' =>
      let '(neg, body) :=
        if Ascii.eqb c "-" then (true, l')
        else if Ascii.eqb c "+" then (false, l') else (false, c :: l') in
      if String.eqb (string_of_list_ascii body) "Infinity"
      then S754_infinity neg
      else
        match lexDecimal body with
        | Some (c0, x) =>
            if Z.eqb c0 0 then S754_zero neg
            else ofDecimal (if neg then - c0 else c0) x
        | None => NaN
        end
  end.

(** *** [Number.prototype.toString] (radix 10)

    For a positive finite [x = m * 2^e] the digits are those of the
    least [k] and the integers [s], [n] with [10^(k-1) <= s < 10^k] such
    that [s * 10^(n-k)] rounds to [x]; among several [s] the one nearest
    to [x] is taken. *)

(** [s * 10^j] against [b * 2^(e-2)], both scaled to integers. *)
Definition scaleL (s j e : Z) : Z := s * 10 ^ Z.max j 0 * 2 ^ Z.max (2 - e) 0.
Definition scaleR (b j e : Z) : Z := b * 2 ^ Z.max (e - 2) 0 * 10 ^ Z.max (- j) 0.

(** Does [s * 10^j] round to [m * 2^e]?  The rounding interval reaches
    half way to both neighbours; its ends belong to it when [m] is even. *)
Definition roundsTo (m : positive) (e : Z) (s j : Z) : bool :=
  let lowGapHalved := (Pos.eqb m (2 ^ 52)%positive && Z.ltb (-1074) e)%bool in
  let lo := scaleR (4 * Zpos m - (if lowGapHalved then 1 else 2)) j e in
  let hi := scaleR (4 * Zpos m + 2) j e in
  let v := scaleL s j e in
  if Z.even (Zpos m) then (Z.leb lo v && Z.leb v hi)%bool
  else (Z.ltb lo v && Z.ltb v hi)%bool.

Definition distance (m : positive) (e : Z) (s j : Z) : Z :=
  Z.abs (scaleL s j e - scaleR (4 * Zpos m) j e).

(** The [n0] with [10^(n0-1) <= m * 2^e < 10^n0]. *)
Fixpoint belowOne (fuel : nat) (m d : Z) (t : Z) : Z :=
  match fuel with
  | O => - t
  | S fuel' => if Z.leb d (m * 10 ^ (t + 1)) then - t else belowOne fuel' m d (t + 1)
  end.

Definition decimalExponent (m : positive) (e : Z) : Z :=
  match e with
  | Zneg p =>
      let d := 2 ^ Zpos p in
      if Z.leb d (Zpos m)
      then Z.of_nat (String.length (digitsOfZ (Zpos m / d)))
      else belowOne 400 (Zpos m) d 0
  | _ => Z.of_nat (String.length (digitsOfZ (Zpos m * 2 ^ e)))
  end.

(** The candidates [(s, n)] with exactly [k] digits. *)
Definition candidates (m : positive) (e : Z) (n0 k : Z) : list (Z * Z) :=
  flat_map
    (fun n =>
       let j := n - k in
       let s0 := scaleR (4 * Zpos m) j e / scaleL 1 j e in
       filter
         (fun sn : Z * Z =>
            let s := fst sn in
            (Z.leb (10 ^ (k - 1)) s && Z.ltb s (10 ^ k) && roundsTo m e s j)%bool)
         [(s0, n); (s0 + 1, n)])
    [n0; n0 + 1].

Definition nearest (m : positive) (e k : Z) (cs : list (Z * Z)) : option (Z * Z) :=
  fold_left
    (fun best c =>
       match best with
       | None => Some c
       | Some b =>
           let db := distance m e (fst b) (snd b - k) in
           let dc := distance m e (fst c) (snd c - k) in
           if Z.ltb dc db then Some c
           else if (Z.eqb dc db && Z.even (fst c))%bool then Some c
           else Some b
       end)
    cs None.

Fixpoint shortest (fuel : nat) (m : positive) (e : Z) (n0 k : Z) : option (Z * Z * Z) :=
  match fuel with
  | O => None
  | S fuel' =>
      match nearest m e k (candidates m e n0 k) with
      | Some (s, n) => Some (s, n, k)
      | None => shortest fuel' m e n0 (k + 1)
      end
  end.

Definition splitAt (n : nat) (s : string) : string * string :=
  (String.substring 0 n s, String.substring n (String.length s - n) s).

Definition formatDigits (s n k : Z) : string :=
  let ds := digitsOfZ s in
  if (Z.leb k n && Z.leb n 21)%bool then ds +:+ zeros (Z.to_nat (n - k))
  else if (Z.ltb 0 n && Z.leb n 21)%bool then
    let '(a, b) := splitAt (Z.to_nat n) ds in a +:+ "." +:+ b
  else if (Z.ltb (-6) n && Z.leb n 0)%bool then
    "0." +:+ zeros (Z.to_nat (- n)) +:+ ds
  else
    let x := n - 1 in
    let xs := (if Z.leb 0 x then "+" else "-") +:+ digitsOfZ (Z.abs x) in
    if Z.eqb k 1 then ds +:+ "e" +:+ xs
    else let '(a, b) := splitAt 1 ds in a +:+ "." +:+ b +:+ "e" +:+ xs.

Definition toString (x : number) : string :=
  match x with
  | S754_nan => "NaN"
  | S754_zero _ => "0"
  | S754_infinity s => if s then "-Infinity" else "Infinity"
  | S754_finite sg m e =>
      let body :=
        match shortest 17 m e (decimalExponent m e) 1 with
        | Some (s, n, k) => formatDigits s n k
        | None => "NaN"
        end in
      if sg then "-" +:+ body else body
  end.

End Num.

(* ================================================================== *)
(** ** Exact decimals (decimal.js-light) *)
(* ================================================================== *)

Module Dec.

(** A [Decimal] denotes [coef * 10^expo]. *)
Record Decimal := mk { coef : Z; expo : Z }.

(** The JavaScript values that reach the [Decimal] constructor. *)
Inductive value :=
| VUndefined
| VNumber (n : Num.number)
| VString (s : string).

(** A string argument: an optional minus sign, then a decimal literal
    (the constructor's [isDecimal] pattern); anything else throws. *)
Definition ofString (s : string) : option Decimal :=
  let l := list_ascii_of_string s in
  let '(neg, body) :=
    match l with
    | c :: l' => if Ascii.eqb c "-" then (true, l') else (false, l)
    | [] => (false, l)
    end in
  match Num.lexDecimal body with
  | Some (c, x) => Some (mk (if neg then - c else c) x)
  | None => None
  end.

(** A number argument: [NaN] and the infinities throw; any other number
    is read through its [toString] digits. *)
Definition ofNumber (n : Num.number) : option Decimal :=
  match n with
  | S754_nan | S754_infinity _ => None
  | S754_zero _ => Some (mk 0 0)
  | S754_finite _ _ _ => ofString (Num.toString n)
  end.

(** [new Decimal(v)]; [None] is the thrown [DecimalError]. *)
Definition make (v : value) : option Decimal :=
  match v with
  | VUndefined => None
  | VNumber n => ofNumber n
  | VString s => ofString s
  end.

Definition compare (a b : Decimal) : comparison :=
  let e := Z.min (expo a) (expo b) in
  Z.compare (coef a * 10 ^ (expo a - e)) (coef b * 10 ^ (expo b - e)).

Definition lt (a b : Decimal) : bool :=
  match compare a b with Lt => true | _ => false end.
Definition gt (a b : Decimal) : bool :=
  match compare a b with Gt => true | _ => false end.

(** [toFixed(dp)] with the default rounding mode (half away from zero):
    normal notation with exactly [dp] decimal places; the sign is that
    of the value before rounding. *)
Definition toFixed (a : Decimal) (dp : Z) : string :=
  let c := Z.abs (coef a) in
  let sh := expo a + dp in
  let r :=
    match sh with
    | Zneg p =>
        let t := 10 ^ Zpos p in
        c / t + (if Z.leb t (2 * (c mod t)) then 1 else 0)
    | _ => c * 10 ^ sh
    end in
  let ds := Num.digitsOfZ r in
  let n := Z.to_nat dp in
  let padded := Num.zeros (S n - String.length ds) +:+ ds in
  let '(ip, fp) := Num.splitAt (String.length padded - n) padded in
  let body := if Nat.eqb n 0 then ip else ip +:+ "." +:+ fp in
  if Z.ltb (coef a) 0 then "-" +:+ body else body.

End Dec.

(* ================================================================== *)
(** ** Tokens and symbol resolution *)
(* ================================================================== *)

Record TokenInfo := mkToken {
  chainId : Z;
  address : string;
  symbol : string;
  name : string;
  decimals : Z
}.

(** [String.prototype.toUpperCase], on the ASCII letters. *)
Definition upperChar (c : ascii) : ascii :=
  let n := N_of_ascii c in
  if (N.leb 97 n && N.leb n 122)%bool then ascii_of_N (n - 32) else c.

Fixpoint toUpperCase (s : string) : string :=
  match s with
  | EmptyString => EmptyString
  | String c s' => String (upperChar c) (toUpperCase s')
  end.

Module Resolver.

(** [loadTokens]: every token of the list is stored under its symbol,
    in its original case; a later token replaces an earlier one.  The
    symbol table is a plain object: the assignment under the key
    [__proto__] makes the token the prototype of the table instead of a
    property of its own, and reading that key gives the prototype back.
    The entry of the map at [__proto__] stands for this prototype. *)
Definition loadTokens (tokenList : list TokenInfo) (tokenMap : gmap string TokenInfo)
  : gmap string TokenInfo :=
  fold_left (fun m t => <[symbol t := t]> m) tokenList tokenMap.

(** The names of the members that every object inherits from
    [Object.prototype]. *)
Definition objectPrototypeNames : list string :=
  ["constructor"; "__defineGetter__"; "__defineSetter__"; "hasOwnProperty";
   "__lookupGetter__"; "__lookupSetter__"; "isPrototypeOf";
   "propertyIsEnumerable"; "toString"; "valueOf"; "__proto__"; "toLocaleString"].

Definition inheritedName (key : string) : bool :=
  existsb (String.eqb key) objectPrototypeNames.

(** What reading a key of the symbol table can give, [undefined] apart:
    an entry of the token list; a member inherited from
    [Object.prototype] (a function, or that prototype itself for
    [__proto__]); a field of the entry that is the table's prototype. *)
Inductive Member :=
| Entry (t : TokenInfo)
| Builtin (name : string)
| NumberField (n : Z)
| StringField (s : string).

(** [!m] is false for [m]: the objects and functions are truthy, a
    number unless it is zero, a string unless it is empty. *)
Definition truthyMember (m : Member) : bool :=
  match m with
  | Entry _ | Builtin _ => true
  | NumberField n => negb (Z.eqb n 0)
  | StringField s => negb (String.eqb s "")
  end.

Definition inherited (key : string) : option Member :=
  if inheritedName key then Some (Builtin key) else None.

(** [P[key]] for a token entry [P], read with the five fields of
    [TokenInfo]; the further fields that an entry of the registry may
    carry are not kept. *)
Definition fieldOf (P : TokenInfo) (key : string) : option Member :=
  if String.eqb key "chainId" then Some (NumberField (chainId P))
  else if String.eqb key "address" then Some (StringField (address P))
  else if String.eqb key "symbol" then Some (StringField (symbol P))
  else if String.eqb key "name" then Some (StringField (name P))
  else if String.eqb key "decimals" then Some (NumberField (decimals P))
  else inherited key.

(** [this._tokenMap[key]]: a property of the table's own, or else what
    the chain of prototypes has under the key; [None] is [undefined]. *)
Definition member (tokenMap : gmap string TokenInfo) (key : string) : option Member :=
  match tokenMap !! key with
  | Some t => Some (Entry t)
  | None =>
      match tokenMap !! "__proto__" with
      | Some P => fieldOf P key
      | None => inherited key
      end
  end.

(** [getTokenForSymbol]: [None] is the thrown "not initialized" error;
    [Some None] is [null]. *)
Definition getTokenForSymbol (ready : bool) (tokenMap : gmap string TokenInfo)
    (sym : string) : option (option Member) :=
  if ready then Some (member tokenMap sym) else None.

(** The value, if [!value] is false. *)
Definition truthyValue (value : option Member) : option Member :=
  match value with
  | Some m => if truthyMember m then Some m else None
  | None => None
  end.

(** [value.symbol] as the key of a property: a value that is no entry
    has no such field, and [undefined] is the key [undefined]. *)
Definition symbolKey (value : Member) : string :=
  match value with
  | Entry t => symbol t
  | _ => "undefined"
  end.

(** The numbers of the clusters in the token registry ([CLUSTER_SLUGS]),
    and [TokenListContainer.filterByClusterSlug]: the entries of the
    cluster's chain.  The registry tests [slug in CLUSTER_SLUGS], which
    holds for the inherited names too; what is then compared with the
    chain numbers is no number and no entry is kept.  [None] is the
    thrown "Unknown slug" error. *)
Definition CLUSTER_SLUGS (slug : string) : option Z :=
  if String.eqb slug "mainnet-beta" then Some 101
  else if String.eqb slug "testnet" then Some 102
  else if String.eqb slug "devnet" then Some 103
  else None.

Definition filterByChainId (chain : Z) (tokenList : list TokenInfo) : list TokenInfo :=
  List.filter (fun item => Z.eqb (chainId item) chain) tokenList.

Definition filterByClusterSlug (slug : string) (tokenList : list TokenInfo)
  : option (list TokenInfo) :=
  match CLUSTER_SLUGS slug with
  | Some chain => Some (filterByChainId chain tokenList)
  | None => if inheritedName slug then Some [] else None
  end.

(** [getTokenBySymbol]: the scan runs from the end of the list towards
    its start and stops at the first match. *)
Fixpoint scanBack (l : list TokenInfo) (tokenSymbol : string) : option TokenInfo :=
  match l with
  | [] => None
  | t :: l' =>
      if String.eqb (toUpperCase (symbol t)) (toUpperCase tokenSymbol)
      then Some t else scanBack l' tokenSymbol
  end.

Definition getTokenBySymbol (tokenList : list TokenInfo) (tokenSymbol : string)
  : option TokenInfo :=
  scanBack (rev tokenList) tokenSymbol.

(** [t] is the last entry of [l] that satisfies [P]. *)
Definition lastMatch (P : TokenInfo -> Prop) (l : list TokenInfo) (t : TokenInfo) : Prop :=
  exists l1 l2 : list TokenInfo, l = (l1 ++ t :: l2)%list /\ P t /\ Forall (fun u => ~ P u) l2.

End Resolver.

(* ================================================================== *)
(** ** Errors, configuration and the scripted world *)
(* ================================================================== *)

(** Modelled from the spec: the error-handler module is not among the
    sources.  Its error codes are the named constants the controllers
    import, one failure kind each (the spec lists the limit-price
    violations and the insufficient balances as distinct kinds). *)
Inductive ErrorCode :=
| PRICE_FAILED_ERROR_CODE
| UNKNOWN_ERROR_ERROR_CODE
| SWAP_PRICE_EXCEEDS_LIMIT_PRICE_ERROR_CODE
| SWAP_PRICE_LOWER_THAN_LIMIT_PRICE_ERROR_CODE
| INSUFFICIENT_BASE_TOKEN_BALANCE_ERROR_CODE
| INSUFFICIENT_QUOTE_TOKEN_BALANCE_ERROR_CODE
| SIMULATION_ERROR_CODE
| SWAP_ROUTE_FETCH_ERROR_CODE.

(** The message constants of the error-handler module, taken as given. *)
Record ErrorMessages := {
  PRICE_FAILED_ERROR_MESSAGE : string;
  INSUFFICIENT_BASE_TOKEN_BALANCE_ERROR_MESSAGE : string;
  INSUFFICIENT_QUOTE_TOKEN_BALANCE_ERROR_MESSAGE : string;
  SIMULATION_ERROR_MESSAGE : string;
  SWAP_ROUTE_FETCH_ERROR_MESSAGE : string;
  SWAP_PRICE_EXCEEDS_LIMIT_PRICE_ERROR_MESSAGE : string -> string -> string;
  SWAP_PRICE_LOWER_THAN_LIMIT_PRICE_ERROR_MESSAGE : string -> string -> string
}.

(** What the code throws. *)
Inductive exn :=
| JsError (message : string)
| HttpException (status : Z) (message : string) (errorCode : ErrorCode)
| DecimalError
| TypeError.

Definition messageOf (e : exn) : string :=
  match e with
  | JsError m => m
  | HttpException _ m _ => m
  | DecimalError => "[DecimalError] Invalid argument"
  | TypeError => "TypeError"
  end.

(** The outcome of a call: a value, a thrown exception, or no outcome:
    the steps allotted to its loops are used up, or the call goes on with
    a value that the types of this development do not hold. *)
Inductive outcome (A : Type) :=
| Ret (a : A)
| Throw (e : exn)
| OutOfFuel.
Arguments Ret {A} a.
Arguments Throw {A} e.
Arguments OutOfFuel {A}.

Definition Connection := string.

Record Config := {
  network : string;
  rpcUrl : string;
  nativeTokenSymbol : string;
  defaultComputeUnits : Num.number;
  priorityFeePercentile : Num.number;
  priorityFeeMultiplier : Num.number;
  maxPriorityFee : Num.number;
  minPriorityFee : Num.number;
  retryIntervalMs : Num.number;
  (** the number of iterations of [while (retryCount < this.retryCount)] *)
  retryCount : nat
}.

Definition BASE_FEE : Num.number := Num.ofZ 5000.
Definition PRIORITY_FEE_CACHE_MS : Z := 10000.

(** *** Transactions *)

Inductive Instruction :=
| ComputeUnitPrice (microLamports : Num.number)
| ComputeBudgetOther (data : string)
| ProgramInstruction (programId : string) (data : string).

Definition isComputeBudget (i : Instruction) : bool :=
  match i with ProgramInstruction _ _ => false | _ => true end.

Record Transaction := mkTx {
  instructions : list Instruction;
  recentBlockhash : option string;
  lastValidBlockHeight : option Z;
  signedBy : list string
}.

(** A serialized transaction: a signed legacy transaction or the swap
    transaction built by the aggregator. *)
Inductive RawTx :=
| RawLegacy (tx : Transaction)
| RawSwap (swapTransaction : string) (signer : string).

(** *** Replies of the network *)

Inductive FeeReply :=
| FeeFetchError (message : string)
| FeeHttpStatus (status : Z)
| FeeResult (prioritizationFees : list Num.number).

Record TxMeta := { computeUnitsConsumed : Num.number; fee : Num.number }.
Record TxData := { meta : option TxMeta }.

Record SignatureStatus := {
  err : option string;             (** [None] is [null] *)
  confirmationStatus : string
}.

(** The course of one [confirmTransaction] call. *)
Inductive StatusReply :=
| NoReplyInTime
    (** the status request fails or stays unanswered: the time-out wins *)
| StatusHttpError (status : Z)
| StatusValue (v : option SignatureStatus) (tx : option (option TxData)).
    (** [value[0]] of the reply, and the answer of [getParsedTransaction]
        when it is asked: [None] if it does not come in time,
        [Some None] for [null] *)

Inductive SimulateReply :=
| SimulateRejected (message : string)
| SimulateErr (err : string) (logs : string)
| SimulateOk.

Record SwapResponse := {
  swapTransaction : string;
  swapLastValidBlockHeight : Z
}.

Record QuoteResponse := { inAmount : string; outAmount : string }.

Inductive SwapMode := ExactIn | ExactOut.

Record QuoteGetRequest := {
  inputMint : string;
  outputMint : string;
  quoteAmount : Num.number;
  slippageBps : Num.number;
  onlyDirectRoutes : bool;
  asLegacyTransaction : bool;
  swapMode : SwapMode
}.

Record TokenAccount := { mint : string; amount : Z }.

Record Keypair := { publicKey : string }.

(** The calls answered by the world. *)
Inductive Call :=
| CNow | CFees | CBlockhash | CHeight | CSend | CStatus | CSwap | CSimulate
| CQuote | CWallet | CNativeBalance | CTokenAccounts | CTokenList.

Global Instance Call_eq_dec : EqDecision Call.
Proof. solve_decision. Defined.

(** The world: for each kind of call, the answer to its [k]-th
    occurrence.  [None] is a rejected promise. *)
Record World := {
  nowAt : nat -> Z;
  feesAt : nat -> FeeReply;
  blockhashAt : nat -> option (string * Z);
  heightAt : nat -> option Z;
  sendAt : nat -> Connection -> option string;
  statusAt : nat -> StatusReply;
  swapAt : nat -> option SwapResponse;
  simulateAt : nat -> SimulateReply;
  quoteAt : nat -> QuoteGetRequest -> option QuoteResponse;
  walletAt : nat -> option Keypair;
  nativeBalanceAt : nat -> option Num.number;
  tokenAccountsAt : nat -> option (list TokenAccount);
  tokenListAt : nat -> option (list TokenInfo)
}.

(** What a run leaves behind, most recent first. *)
Inductive Event :=
| EvSubmit (rawTx : RawTx) (conn : Connection)
| EvConfirm (signature : option string) (conn : Connection)
| EvEscalate (fee : Num.number)
| EvSwapBuild (prioritizationFeeLamports : Num.number)
| EvSimulate
| EvSleep (ms : Num.number).

Record FeeEstimate := { timestamp : Z; cachedFee : Num.number }.

(** The state of the process. *)
Record St := mkSt {
  calls : Call -> nat;
  currentIndex : nat;
  lastPriorityFeeEstimate : option FeeEstimate;
  tokenMap : gmap string TokenInfo;
  ready : bool;
  trace : list Event
}.

Definition M (A : Type) : Type := St -> outcome A * St.

Definition ret {A} (a : A) : M A := fun st => (Ret a, st).
Definition throw {A} (e : exn) : M A := fun st => (Throw e, st).
Definition stuck {A} : M A := fun st => (OutOfFuel, st).

Definition bind {A B} (m : M A) (f : A -> M B) : M B :=
  fun st =>
    match m st with
    | (Ret a, st') => f a st'
    | (Throw e, st') => (Throw e, st')
    | (OutOfFuel, st') => (OutOfFuel, st')
    end.

(** [try { m } catch (e) { h e }] *)
Definition tryCatch {A} (m : M A) (h : exn -> M A) : M A :=
  fun st =>
    match m st with
    | (Throw e, st') => h e st'
    | r => r
    end.

Declare Scope eff_scope.
Delimit Scope eff_scope with eff.
Notation "'let!' x ':=' m 'in' k" := (bind m (fun x => k))
  (at level 10, x name, m at level 100, k at level 200, only parsing) : eff_scope.
Notation "'run!' m 'in' k" := (bind m (fun _ => k))
  (at level 10, m at level 100, k at level 200, only parsing) : eff_scope.
Local Open Scope eff_scope.

(** The state after one more call of kind [c]. *)
Definition bump (c : Call) (st : St) : St :=
  mkSt (fun c' => if decide (c' = c) then S (calls st c) else calls st c')
       (currentIndex st) (lastPriorityFeeEstimate st) (tokenMap st) (ready st)
       (trace st).

(** The state after the event [e]. *)
Definition record (e : Event) (st : St) : St :=
  mkSt (calls st) (currentIndex st) (lastPriorityFeeEstimate st) (tokenMap st)
       (ready st) (e :: trace st).

(** The index of the next call of kind [c]. *)
Definition next (c : Call) : M nat := fun st => (Ret (calls st c), bump c st).

Definition emit (e : Event) : M unit := fun st => (Ret tt, record e st).

Definition awaitOr {A} (o : option A) (e : exn) : M A :=
  match o with Some a => ret a | None => throw e end.

(** [setTimeout] for [ms] milliseconds. *)
Definition sleep (ms : Num.number) : M unit := emit (EvSleep ms).

Definition getState : M St := fun st => (Ret st, st).

Definition withCache (c : FeeEstimate) (st : St) : St :=
  mkSt (calls st) (currentIndex st) (Some c) (tokenMap st) (ready st) (trace st).

Definition setCache (c : FeeEstimate) : M unit := fun st => (Ret tt, withCache c st).

(** Every object is truthy. *)
Definition truthyObject {A} (_ : A) : bool := true.

(** [fees.sort((a, b) => a - b)]: ascending insertion by the sign of the
    difference. *)
Fixpoint insertFee (x : Num.number) (l : list Num.number) : list Num.number :=
  match l with
  | [] => [x]
  | y :: l' =>
      if Num.leb (Num.sub x y) Num.zero then x :: l else y :: insertFee x l'
  end.

Definition sortFees (l : list Num.number) : list Num.number :=
  fold_right insertFee [] l.

(** [a[i]] for a number [i]: [None] is [undefined]. *)
Definition index {A} (a : list A) (i : Num.number) : option A :=
  match Num.toZ i with
  | Some z => if Z.leb 0 z then nth_error a (Z.to_nat z) else None
  | None => None
  end.

Record ConfirmResult := { confirmed : bool; txData : option TxData }.

Record SwapReceipt := {
  signature : option string;
  feeInLamports : Num.number;
  computeUnitLimit : Num.number;
  priorityFeePrice : Num.number
}.

(* ================================================================== *)
(** ** The chain class [Solana] *)
(* ================================================================== *)

Section Solana.

Variable w : World.
Variable cfg : Config.
(** [connectionPool.getAllConnections()]; the constructor builds the
    pool from the single configured URL. *)
Variable connections : list Connection.

Definition now : M Z := let! k := next CNow in ret (nowAt w k).

(** [ConnectionPool.getNextConnection]; [None] is [undefined]. *)
Definition rotate (st : St) : St :=
  mkSt (calls st) ((currentIndex st + 1) mod length connections)%nat
       (lastPriorityFeeEstimate st) (tokenMap st) (ready st) (trace st).

Definition getNextConnection : M (option Connection) :=
  fun st => (Ret (connections !! currentIndex st), rotate st).

(** [connection.rpcEndpoint] *)
Definition rpcEndpoint (c : option Connection) : M string := awaitOr c TypeError.

Definition minimumFee : Num.number :=
  Num.mul (Num.div (minPriorityFee cfg) (defaultComputeUnits cfg)) (Num.ofZ 1000000).

Definition percentileIndex (n : nat) : Num.number :=
  Num.ceil (Num.mul (Num.ofZ (Z.of_nat n)) (priorityFeePercentile cfg)).

(** The body of the [try] block of [estimatePriorityFees], after the
    answer [reply] to the request has arrived. *)
Definition estimateFromReply (reply : FeeReply) : M Num.number :=
  match reply with
  | FeeFetchError m => throw (JsError m)
  | FeeHttpStatus s => throw (JsError ("Failed to fetch fees: " +:+ Num.digitsOfZ s))
  | FeeResult samples =>
      let fees := List.filter (fun fee => Num.gtb fee Num.zero) samples in
      if Nat.eqb (length fees) 0 then ret minimumFee
      else
        let sorted := sortFees fees in
        let percentileFee :=
          match index sorted (Num.sub (percentileIndex (length fees)) (Num.ofZ 1)) with
          | Some f => Num.max f minimumFee
          | None => Num.NaN
          end in
        let! t := now in
        run! setCache {| timestamp := t; cachedFee := percentileFee |} in
        ret percentileFee
  end.

Definition estimatePriorityFees (rcpURL : string) : M Num.number :=
  let! st := getState in
  let! fresh :=
    match lastPriorityFeeEstimate st with
    | Some c =>
        let! t := now in
        ret (if Z.ltb (t - timestamp c) PRIORITY_FEE_CACHE_MS
             then Some (cachedFee c) else None)
    | None => ret None
    end in
  match fresh with
  | Some f => ret f
  | None =>
      tryCatch
        (let! k := next CFees in estimateFromReply (feesAt w k))
        (fun e => throw (JsError ("Failed to fetch priority fees: " +:+ messageOf e)))
  end.

Definition getGasPrice : M Num.number :=
  let! c := getNextConnection in
  let! url := rpcEndpoint c in
  let! priorityFeeInMicroLamports := estimatePriorityFees url in
  let priorityFeeLamports :=
    Num.floor (Num.div (Num.mul (defaultComputeUnits cfg) priorityFeeInMicroLamports)
                       (Num.ofZ 1000000)) in
  ret (Num.div (Num.add (Num.ofZ 5000) priorityFeeLamports) (Num.pow10 9)).

Definition isConfirmed (status : SignatureStatus) : bool :=
  (String.eqb (confirmationStatus status) "confirmed"
   || String.eqb (confirmationStatus status) "finalized")%bool.

Definition confirmTransaction (sig : option string) (connection : Connection)
  : M ConfirmResult :=
  run! emit (EvConfirm sig connection) in
  let! k := next CStatus in
  match statusAt w k with
  | NoReplyInTime =>
      throw (JsError "Failed to confirm transaction: Confirmation timed out")
  | StatusHttpError s =>
      throw (JsError ("Failed to confirm transaction: HTTP error! status: "
                      +:+ Num.digitsOfZ s))
  | StatusValue None _ => ret {| confirmed := false; txData := None |}
  | StatusValue (Some status) tx =>
      match err status with
      | Some e =>
          throw (JsError ("Failed to confirm transaction: Transaction failed with error: "
                          +:+ e))
      | None =>
          if isConfirmed status then
            match tx with
            | Some d => ret {| confirmed := true; txData := d |}
            | None =>
                throw (JsError "Failed to confirm transaction: Confirmation timed out")
            end
          else ret {| confirmed := false; txData := None |}
      end
  end.

(** One fan-out of [conn.sendRawTransaction] over all connections;
    [None] is a rejected submission. *)
Definition fanOut (rawTx : RawTx) : M (list (option string)) :=
  let! k := next CSend in
  run! fold_right (fun conn m => run! emit (EvSubmit rawTx conn) in m) (ret tt) connections in
  ret (map (sendAt w k) connections).

(** The loop of [sendRawTransaction]; [blockheight] is the local
    variable read in the loop condition. *)
Fixpoint sendLoop (fuel : nat) (rawTx : RawTx) (blockheight lastValid : Z)
  : M (option string) :=
  match fuel with
  | O => stuck
  | S fuel' =>
      if Z.leb blockheight (lastValid + 50) then
        let! sendRawTransactionResults := fanOut rawTx in
        let successfulResults := filter is_Some sendRawTransactionResults in
        if Nat.ltb 0 (length successfulResults) then
          let signatures :=
            filter (fun sig => negb (String.eqb sig ""))
                   (omap id successfulResults) in
          if negb (forallb (fun sig => bool_decide (Some sig = head signatures)) signatures)
          then
            run! sleep (retryIntervalMs cfg) in
            sendLoop fuel' rawTx blockheight lastValid
          else ret (head signatures)
        else
          run! sleep (retryIntervalMs cfg) in
          sendLoop fuel' rawTx blockheight lastValid
      else throw (JsError "Maximum blockheight exceeded")
  end.

Definition sendRawTransaction (fuel : nat) (rawTx : RawTx) (lastValid : Z)
  : M (option string) :=
  run! getNextConnection in
  let! k := next CHeight in
  let! blockheight := awaitOr (heightAt w k) (JsError "getBlockHeight failed") in
  sendLoop fuel rawTx blockheight lastValid.

(** The confirmation loop of [sendAndConfirmTransaction] over the
    connections: [Some sig] is [return signature]. *)
Fixpoint confirmEach (conns : list Connection) (sig : option string)
  : M (option (option string)) :=
  match conns with
  | [] => ret None
  | connection :: conns' =>
      let! r := tryCatch
             (let! confirmed := confirmTransaction sig connection in
              if truthyObject confirmed then ret (Some sig) else ret None)
             (fun _ => ret None) in
      match r with
      | Some s => ret (Some s)
      | None => confirmEach conns' sig
      end
  end.

(** [while (retryCount < this.retryCount)], with [n] iterations left. *)
Fixpoint retryRound (fuel n : nat) (rawTx : RawTx) (lastValid : Z)
  : M (option (option string)) :=
  match n with
  | O => ret None
  | S n' =>
      let! r := tryCatch
             (let! sig := sendRawTransaction fuel rawTx lastValid in
              let! c := confirmEach connections sig in
              match c with
              | Some s => ret (Some s)
              | None => run! sleep (retryIntervalMs cfg) in ret None
              end)
             (fun _ => run! sleep (retryIntervalMs cfg) in ret None) in
      match r with
      | Some s => ret (Some s)
      | None => retryRound fuel n' rawTx lastValid
      end
  end.

Definition maxFeeMessage : string :=
  "Transaction failed after reaching maximum priority fee of "
  +:+ Num.toString (maxPriorityFee cfg) +:+ " microLamports".

(** The outer loop of [sendAndConfirmTransaction]. *)
Fixpoint feeLoop (fuel steps : nat) (currentPriorityFee : Num.number)
    (tx : Transaction) (signers : list string) : M (option string) :=
  match steps with
  | O => stuck
  | S steps' =>
      if Num.leb currentPriorityFee (maxPriorityFee cfg) then
        let priorityFeeInstruction := ComputeUnitPrice (Num.floor currentPriorityFee) in
        let instrs :=
          (filter (fun inst => negb (isComputeBudget inst)) (instructions tx)
           ++ [priorityFeeInstruction])%list in
        run! getNextConnection in
        let! k := next CBlockhash in
        let! bh := awaitOr (blockhashAt w k) (JsError "getLatestBlockhashAndContext failed") in
        (** [tx.sign(...signers)] refuses an empty list of signers; the
            instructions are kept without their accounts, and every
            other list is taken to sign *)
        run! (match signers with
              | [] => throw (JsError "No signers")
              | _ :: _ => ret tt
              end) in
        let tx' := mkTx instrs (Some (fst bh)) (Some (snd bh)) signers in
        let! r := retryRound fuel (retryCount cfg) (RawLegacy tx') (snd bh) in
        match r with
        | Some sig => ret sig
        | None =>
            let fee' := Num.floor (Num.mul currentPriorityFee (priorityFeeMultiplier cfg)) in
            run! emit (EvEscalate fee') in
            feeLoop fuel steps' fee' tx' signers
        end
      else throw (JsError maxFeeMessage)
  end.

Definition sendAndConfirmTransaction (fuel : nat) (tx : Transaction)
    (signers : list string) : M (option string) :=
  let! c := getNextConnection in
  let! url := rpcEndpoint c in
  let! currentPriorityFee := estimatePriorityFees url in
  feeLoop fuel fuel currentPriorityFee tx signers.

End Solana.

(* ================================================================== *)
(** ** Balances and token loading *)
(* ================================================================== *)

Section Balances.

Variable w : World.
Variable cfg : Config.
Variable connections : list Connection.

(** [getTokenList]: the resolved list, filtered by the cluster of the
    instance. *)
Definition getTokenList : M (list TokenInfo) :=
  let! k := next CTokenList in
  let! tokens := awaitOr (tokenListAt w k) (JsError "token list resolution failed") in
  awaitOr (Resolver.filterByClusterSlug (network cfg) tokens)
    (JsError ("Unknown slug: " +:+ network cfg
              +:+ ", please use one of mainnet-beta,testnet,devnet")).

Definition withTokens (m : gmap string TokenInfo) (r : bool) (st : St) : St :=
  mkSt (calls st) (currentIndex st) (lastPriorityFeeEstimate st) m r (trace st).

Definition setTokens (m : gmap string TokenInfo) (r : bool) : M unit :=
  fun st => (Ret tt, withTokens m r st).

(** [init], which loads the tokens once. *)
Definition init : M unit :=
  let! st := getState in
  if ready st then ret tt
  else
    let! tokenList := getTokenList in
    setTokens (Resolver.loadTokens tokenList (tokenMap st)) true.

Definition getTokenForSymbol (sym : string) : M (option Resolver.Member) :=
  let! st := getState in
  awaitOr (Resolver.getTokenForSymbol (ready st) (tokenMap st) sym)
          (JsError "Solana instance not initialized").

Definition getWallet (addr : string) : M Keypair :=
  let! k := next CWallet in
  awaitOr (walletAt w k) (JsError "wallet could not be loaded").

Definition includesUpper (upperCaseSymbols : option (list string)) (s : string) : bool :=
  match upperCaseSymbols with
  | None => true
  | Some l => existsb (String.eqb s) l
  end.

(** The [reduce] that builds [tokenDefs], keyed by mint address. *)
Definition tokenDefsOf (upperCaseSymbols : option (list string))
    (tokenList : list TokenInfo) : gmap string (string * Z) :=
  fold_left
    (fun acc token =>
       if includesUpper upperCaseSymbols (toUpperCase (symbol token))
       then <[address token := (symbol token, decimals token)]> acc
       else acc)
    tokenList ∅.

(** The loop over the wallet's token accounts. *)
Definition processAccounts (tokenDefs : gmap string (string * Z))
    (accounts : list TokenAccount) (balances : gmap string Num.number)
  : gmap string Num.number :=
  fold_left
    (fun bal value =>
       match tokenDefs !! mint value with
       | None => bal
       | Some (sym, dec) =>
           <[sym := Num.div (Num.ofZ (amount value)) (Num.pow10 dec)]> bal
       end)
    accounts balances.

Definition getBalance (wallet : Keypair) (symbols : option (list string))
  : M (gmap string Num.number) :=
  let upperCaseSymbols := option_map (map toUpperCase) symbols in
  let! balances :=
    if includesUpper upperCaseSymbols "SOL" then
      run! getNextConnection connections in
      let! k := next CNativeBalance in
      let! solBalance := awaitOr (nativeBalanceAt w k) (JsError "getBalance failed") in
      ret (<["SOL" := Num.div solBalance (Num.pow10 9)]> (∅ : gmap string Num.number))
    else ret ∅ in
  run! getNextConnection connections in
  let! k := next CTokenAccounts in
  let! accounts :=
    awaitOr (tokenAccountsAt w k) (JsError "getTokenAccountsByOwner failed") in
  let! tokenList := getTokenList in
  let tokenDefs := tokenDefsOf upperCaseSymbols tokenList in
  ret (processAccounts tokenDefs accounts balances).

End Balances.

(* ================================================================== *)
(** ** The connector [Jupiter] *)
(* ================================================================== *)

Definition JUPITER_API_RETRY_COUNT : nat := 5.
Definition JUPITER_API_RETRY_INTERVAL_MS : Num.number := Num.ofZ 1000.
(** [DECIMAL_MULTIPLIER] is [10]: [DECIMAL_MULTIPLIER ** d] is [Num.pow10 d]. *)

Record JupiterConfig := {
  (** the two groups of [allowedSlippage.match(percentRegexp)], as
      numbers; [None] when the pattern does not match *)
  allowedSlippageMatch : option (Num.number * Num.number)
}.

Record Wallet := { payer : Keypair }.

Section Jupiter.

Variable w : World.
Variable cfg : Config.
Variable jcfg : JupiterConfig.
Variable msgs : ErrorMessages.
Variable connections : list Connection.

Definition getSlippagePct : Num.number :=
  match allowedSlippageMatch jcfg with
  | Some (a, b) => Num.mul (Num.div a b) (Num.ofZ 100)
  | None => Num.ofZ 1
  end.

(** [getQuote].  With a truthy value that is no token entry in the
    place of a token, the request has no mint to name: that run has no
    outcome here. *)
Definition getQuote (inputTokenSymbol outputTokenSymbol : string)
    (amount : Num.number) (slippagePct : Num.number)
    (onlyDirect asLegacy : bool) (mode : SwapMode) : M QuoteResponse :=
  let! inputToken := getTokenForSymbol inputTokenSymbol in
  let! outputToken := getTokenForSymbol outputTokenSymbol in
  match Resolver.truthyValue inputToken, Resolver.truthyValue outputToken with
  | Some inputToken, Some outputToken =>
      match inputToken, outputToken with
      | Resolver.Entry inputToken, Resolver.Entry outputToken =>
          let bps :=
            if Num.truthy slippagePct
            then Num.round (Num.mul slippagePct (Num.ofZ 100)) else Num.zero in
          let tokenDecimals :=
            match mode with
            | ExactOut => decimals outputToken
            | ExactIn => decimals inputToken
            end in
          let params :=
            {| inputMint := address inputToken;
               outputMint := address outputToken;
               quoteAmount := Num.floor (Num.mul amount (Num.pow10 tokenDecimals));
               slippageBps := bps;
               onlyDirectRoutes := onlyDirect;
               asLegacyTransaction := asLegacy;
               swapMode := mode |} in
          let! k := next CQuote in
          awaitOr (quoteAt w k params) (JsError "Unable to get quote")
      | _, _ => stuck
      end
  | _, _ => throw (JsError "Invalid token symbols")
  end.

(** The attempts of [getSwapObj], [n] of them left. *)
Fixpoint swapAttempts (n : nat) (prioritizationFeeLamports : Num.number)
  : M (option SwapResponse) :=
  match n with
  | O => ret None
  | S n' =>
      run! emit (EvSwapBuild prioritizationFeeLamports) in
      let! k := next CSwap in
      match swapAt w k with
      | Some swapObj => ret (Some swapObj)
      | None =>
          run! (if Nat.ltb 0 n' then sleep JUPITER_API_RETRY_INTERVAL_MS else ret tt) in
          swapAttempts n' prioritizationFeeLamports
      end
  end.

Definition getSwapObj (wallet : Wallet) (quote : QuoteResponse)
    (priorityFee : Num.number) : M SwapResponse :=
  let prioritizationFeeLamports :=
    if Num.truthy priorityFee then priorityFee else minPriorityFee cfg in
  let! r := swapAttempts JUPITER_API_RETRY_COUNT prioritizationFeeLamports in
  match r with
  | Some swapObj => ret swapObj
  | None =>
      throw (HttpException 503
               (SWAP_ROUTE_FETCH_ERROR_MESSAGE msgs
                +:+ "Failed after 5 attempts. Last error: swapPost failed")
               SWAP_ROUTE_FETCH_ERROR_CODE)
  end.

Definition simulateTransaction (transaction : string) : M unit :=
  run! getNextConnection connections in
  run! emit EvSimulate in
  let! k := next CSimulate in
  match simulateAt w k with
  | SimulateRejected m => throw (JsError m)
  | SimulateErr e logs =>
      throw (HttpException 503
               (SIMULATION_ERROR_MESSAGE msgs +:+ " Error: " +:+ e
                +:+ " Program Logs: " +:+ logs)
               SIMULATION_ERROR_CODE)
  | SimulateOk => ret tt
  end.

(** The confirmation loop of [executeSwap] over the connections. *)
Fixpoint swapConfirmEach (conns : list Connection) (sig : option string)
  : M (option SwapReceipt) :=
  match conns with
  | [] => ret None
  | connection :: conns' =>
      let! r :=
        tryCatch
          (let! res := confirmTransaction w sig connection in
           match confirmed res, txData res with
           | true, Some data =>
               let! m := awaitOr (meta data) TypeError in
               let computeUnitsUsed := computeUnitsConsumed m in
               let totalFee := fee m in
               let priorityFee := Num.sub totalFee BASE_FEE in
               ret (Some {| signature := sig;
                            feeInLamports := totalFee;
                            computeUnitLimit := computeUnitsUsed;
                            priorityFeePrice :=
                              Num.mul (Num.div priorityFee computeUnitsUsed)
                                      (Num.ofZ 1000000) |})
           | _, _ => ret None
           end)
          (fun _ => ret None) in
      match r with
      | Some receipt => ret (Some receipt)
      | None => swapConfirmEach conns' sig
      end
  end.

Fixpoint swapRetryRound (fuel n : nat) (rawTx : RawTx) (lastValid : Z)
  : M (option SwapReceipt) :=
  match n with
  | O => ret None
  | S n' =>
      let! r :=
        tryCatch
          (let! sig := sendRawTransaction w cfg connections fuel rawTx lastValid in
           let! c := swapConfirmEach connections sig in
           match c with
           | Some receipt => ret (Some receipt)
           | None => run! sleep (retryIntervalMs cfg) in ret None
           end)
          (fun _ => run! sleep (retryIntervalMs cfg) in ret None) in
      match r with
      | Some receipt => ret (Some receipt)
      | None => swapRetryRound fuel n' rawTx lastValid
      end
  end.

Definition swapMaxFeeMessage : string :=
  "Swap failed after reaching maximum priority fee of "
  +:+ Num.toString (Num.div (maxPriorityFee cfg) (Num.pow10 9)) +:+ " SOL".

(** The outer loop of [executeSwap]. *)
Fixpoint swapFeeLoop (fuel steps : nat) (currentPriorityFee : Num.number)
    (wallet : Wallet) (quote : QuoteResponse) : M SwapReceipt :=
  match steps with
  | O => stuck
  | S steps' =>
      if Num.leb currentPriorityFee (maxPriorityFee cfg) then
        let! swapObj := getSwapObj wallet quote currentPriorityFee in
        run! simulateTransaction (swapTransaction swapObj) in
        let rawTx := RawSwap (swapTransaction swapObj) (publicKey (payer wallet)) in
        let! r := swapRetryRound fuel (retryCount cfg) rawTx
                    (swapLastValidBlockHeight swapObj) in
        match r with
        | Some receipt => ret receipt
        | None =>
            let fee' := Num.floor (Num.mul currentPriorityFee (priorityFeeMultiplier cfg)) in
            run! emit (EvEscalate fee') in
            swapFeeLoop fuel steps' fee' wallet quote
        end
      else throw (JsError swapMaxFeeMessage)
  end.

Definition executeSwap (fuel : nat) (wallet : Wallet) (quote : QuoteResponse)
  : M SwapReceipt :=
  let! gasPrice := getGasPrice w cfg connections in
  let currentPriorityFee := Num.sub (Num.mul gasPrice (Num.pow10 9)) BASE_FEE in
  swapFeeLoop fuel fuel currentPriorityFee wallet quote.

End Jupiter.

(* ================================================================== *)
(** ** The controllers: [getTradeInfo], [price], [trade] *)
(* ================================================================== *)

Inductive Side := BUY | SELL.

Record PriceRequest := {
  pBase : string;
  pQuote : string;
  pAmount : string;
  pSide : Side;
  pAllowedSlippage : option string
}.

Record TradeRequest := {
  base : string;
  quote : string;
  reqAmount : string;
  side : Side;
  reqAddress : string;
  limitPrice : option string;
  allowedSlippage : option string
}.

Record EstimateGasResponse := {
  gasNetwork : string;
  gasPrice : Num.number;
  gasPriceToken : string;
  gasLimit : Num.number;
  gasCost : string
}.

Record TradeInfo := {
  baseToken : TokenInfo;
  quoteToken : TokenInfo;
  requestAmount : Num.number;
  expectedPrice : Num.number;
  expectedAmount : Num.number;
  gasEstimate : EstimateGasResponse
}.

Record PriceResponse := {
  prNetwork : string;
  prBase : string;
  prQuote : string;
  prAmount : string;
  prRawAmount : string;
  prExpectedAmount : string;
  prPrice : string;
  prGasPrice : Num.number;
  prGasPriceToken : string;
  prGasLimit : Num.number;
  prGasCost : string
}.

Record TradeResponse := {
  trNetwork : string;
  trBase : string;
  trQuote : string;
  trAmount : string;
  trRawAmount : string;
  trGasPrice : Num.number;
  trGasPriceToken : string;
  trGasLimit : Num.number;
  trGasCost : string;
  trTxHash : option string;
  trPrice : string;
  trExpectedIn : option string;
  trExpectedOut : option string
}.

(** Truthiness of an optional string: [undefined] and [""] are falsy. *)
Definition truthyString (s : option string) : bool :=
  match s with
  | Some s' => negb (String.eqb s' "")
  | None => false
  end.

(** [new Decimal(v)] *)
Definition newDecimal (v : Dec.value) : M Dec.Decimal :=
  awaitOr (Dec.make v) DecimalError.

(** [balance[symbol]], as handed to [new Decimal]. *)
Definition balanceValue (balance : gmap string Num.number) (sym : string) : Dec.value :=
  match balance !! sym with
  | Some n => Dec.VNumber n
  | None => Dec.VUndefined
  end.

Section Controllers.

Variable w : World.
Variable cfg : Config.
Variable jcfg : JupiterConfig.
Variable msgs : ErrorMessages.
Variable connections : list Connection.

(** [wrapResponse] is kept as the identity on the payload. *)
Definition estimateGas : M EstimateGasResponse :=
  let! initTime := now w in
  let! c := getNextConnection connections in
  let! url := rpcEndpoint c in
  let! priorityFeeInMicroLamports := estimatePriorityFees w cfg url in
  let! gasCost := getGasPrice w cfg connections in
  ret {| gasNetwork := network cfg;
         gasPrice := priorityFeeInMicroLamports;
         gasPriceToken := nativeTokenSymbol cfg;
         gasLimit := defaultComputeUnits cfg;
         gasCost := Num.toString gasCost |}.

Definition priceFailed {A} (e : exn) : M A :=
  throw (HttpException 500 (PRICE_FAILED_ERROR_MESSAGE msgs +:+ messageOf e)
           PRICE_FAILED_ERROR_CODE).

(** [getTradeInfo].  A truthy value that is no token entry passes the
    two tests like a token; its [symbol] is [undefined], under which
    [getQuote] then looks the token up.  If the quote and the gas
    estimate are obtained all the same, what is returned holds a value
    that is no token: that run has no outcome here. *)
Definition getTradeInfo (baseAsset quoteAsset : string) (amount : Num.number)
    (tradeSide : Side) (slippage : option string)
  : M (TradeInfo * QuoteResponse) :=
  let! baseToken := getTokenForSymbol baseAsset in
  let! quoteToken := getTokenForSymbol quoteAsset in
  let! baseToken :=
    awaitOr (Resolver.truthyValue baseToken)
      (JsError ("Base token " +:+ baseAsset +:+ " not found in token list")) in
  let! quoteToken :=
    awaitOr (Resolver.truthyValue quoteToken)
      (JsError ("Quote token " +:+ quoteAsset +:+ " not found in token list")) in
  let slippagePct :=
    if truthyString slippage
    then Num.ofString (default "" slippage) else getSlippagePct jcfg in
  let slippagePct :=
    if (Num.isNaN slippagePct || Num.leb slippagePct Num.zero)%bool
    then Num.ofZ 1 else slippagePct in
  match baseToken, quoteToken with
  | Resolver.Entry baseToken, Resolver.Entry quoteToken =>
      let requestAmount :=
        Num.floor (Num.mul amount (Num.pow10 (decimals baseToken))) in
      tryCatch
        (let! quote :=
           match tradeSide with
           | BUY => getQuote w (symbol quoteToken) (symbol baseToken) amount slippagePct
                      false false ExactIn
           | SELL => getQuote w (symbol baseToken) (symbol quoteToken) amount slippagePct
                       false false ExactIn
           end in
         let baseAmount :=
           match tradeSide with
           | BUY => Num.div (Num.ofString (outAmount quote)) (Num.pow10 (decimals baseToken))
           | SELL => Num.div (Num.ofString (inAmount quote)) (Num.pow10 (decimals baseToken))
           end in
         let quoteAmount :=
           match tradeSide with
           | BUY => Num.div (Num.ofString (inAmount quote)) (Num.pow10 (decimals quoteToken))
           | SELL => Num.div (Num.ofString (outAmount quote)) (Num.pow10 (decimals quoteToken))
           end in
         let expectedPrice := Num.div quoteAmount baseAmount in
         let expectedAmount := quoteAmount in
         let! gasEstimate := estimateGas in
         ret ({| baseToken := baseToken;
                 quoteToken := quoteToken;
                 requestAmount := requestAmount;
                 expectedPrice := expectedPrice;
                 expectedAmount := expectedAmount;
                 gasEstimate := gasEstimate |}, quote))
        priceFailed
  | _, _ =>
      tryCatch
        (let! quote :=
           match tradeSide with
           | BUY => getQuote w (Resolver.symbolKey quoteToken) (Resolver.symbolKey baseToken)
                      amount slippagePct false false ExactIn
           | SELL => getQuote w (Resolver.symbolKey baseToken) (Resolver.symbolKey quoteToken)
                       amount slippagePct false false ExactIn
           end in
         let! gasEstimate := estimateGas in
         stuck)
        priceFailed
  end.

Definition price (req : PriceRequest) : M PriceResponse :=
  let! initTime := now w in
  let! result :=
    tryCatch
      (getTradeInfo (pBase req) (pQuote req) (Num.ofString (pAmount req))
         (pSide req) (pAllowedSlippage req))
      priceFailed in
  let '(tradeInfo, quote) := result in
  let! amount := newDecimal (Dec.VString (pAmount req)) in
  ret {| prNetwork := network cfg;
         prBase := address (baseToken tradeInfo);
         prQuote := address (quoteToken tradeInfo);
         prAmount := Dec.toFixed amount (decimals (baseToken tradeInfo));
         prRawAmount := Num.toString (requestAmount tradeInfo);
         prExpectedAmount := Num.toString (expectedAmount tradeInfo);
         prPrice := Num.toString (expectedPrice tradeInfo);
         prGasPrice := gasPrice (gasEstimate tradeInfo);
         prGasPriceToken := gasPriceToken (gasEstimate tradeInfo);
         prGasLimit := gasLimit (gasEstimate tradeInfo);
         prGasCost := gasCost (gasEstimate tradeInfo) |}.

(** The limit-price check of [trade]. *)
Definition checkLimitPrice (req : TradeRequest) (expectedPrice : Num.number) : M unit :=
  match side req with
  | BUY =>
      if truthyString (limitPrice req) then
        let! p := newDecimal (Dec.VNumber expectedPrice) in
        let! l := newDecimal (Dec.VString (default "" (limitPrice req))) in
        if Dec.gt p l then
          throw (HttpException 500
                   (SWAP_PRICE_EXCEEDS_LIMIT_PRICE_ERROR_MESSAGE msgs
                      (Num.toString expectedPrice) (default "" (limitPrice req)))
                   SWAP_PRICE_EXCEEDS_LIMIT_PRICE_ERROR_CODE)
        else ret tt
      else ret tt
  | SELL =>
      if truthyString (limitPrice req) then
        let! p := newDecimal (Dec.VNumber expectedPrice) in
        let! l := newDecimal (Dec.VString (default "" (limitPrice req))) in
        if Dec.lt p l then
          throw (HttpException 500
                   (SWAP_PRICE_LOWER_THAN_LIMIT_PRICE_ERROR_MESSAGE msgs
                      (Num.toString expectedPrice) (default "" (limitPrice req)))
                   SWAP_PRICE_LOWER_THAN_LIMIT_PRICE_ERROR_CODE)
        else ret tt
      else ret tt
  end.

(** The balance check of [trade]. *)
Definition checkBalance (req : TradeRequest) (keypair : Keypair) (tradeInfo : TradeInfo)
  : M unit :=
  match side req with
  | SELL =>
      let sym := symbol (baseToken tradeInfo) in
      let! balance := getBalance w cfg connections keypair (Some [sym]) in
      let! b := newDecimal (balanceValue balance sym) in
      let! a := newDecimal (Dec.VString (reqAmount req)) in
      if Dec.lt b a then
        throw (HttpException 500 (INSUFFICIENT_BASE_TOKEN_BALANCE_ERROR_MESSAGE msgs)
                 INSUFFICIENT_BASE_TOKEN_BALANCE_ERROR_CODE)
      else ret tt
  | BUY =>
      let sym := symbol (quoteToken tradeInfo) in
      let! balance := getBalance w cfg connections keypair (Some [sym]) in
      let! b := newDecimal (balanceValue balance sym) in
      let! a := newDecimal (Dec.VNumber (expectedAmount tradeInfo)) in
      if Dec.lt b a then
        throw (HttpException 500 (INSUFFICIENT_QUOTE_TOKEN_BALANCE_ERROR_MESSAGE msgs)
                 INSUFFICIENT_QUOTE_TOKEN_BALANCE_ERROR_CODE)
      else ret tt
  end.

Definition trade (fuel : nat) (req : TradeRequest) : M TradeResponse :=
  let! initTime := now w in
  let! keypair := getWallet w (reqAddress req) in
  let wallet := {| payer := keypair |} in
  let! result :=
    tryCatch
      (getTradeInfo (base req) (quote req) (Num.ofString (reqAmount req))
         (side req) (allowedSlippage req))
      priceFailed in
  let '(tradeInfo, quoteResponse) := result in
  run! checkLimitPrice req (expectedPrice tradeInfo) in
  run! checkBalance req keypair tradeInfo in
  let! receipt := executeSwap w cfg msgs connections fuel wallet quoteResponse in
  let! amount := newDecimal (Dec.VString (reqAmount req)) in
  let expected := Num.toString (expectedAmount tradeInfo) in
  ret {| trNetwork := network cfg;
         trBase := address (baseToken tradeInfo);
         trQuote := address (quoteToken tradeInfo);
         trAmount := Dec.toFixed amount (decimals (baseToken tradeInfo));
         trRawAmount := Num.toString (requestAmount tradeInfo);
         trGasPrice := priorityFeePrice receipt;
         trGasPriceToken := gasPriceToken (gasEstimate tradeInfo);
         trGasLimit := computeUnitLimit receipt;
         trGasCost := Num.toString (Num.div (feeInLamports receipt) (Num.pow10 9));
         trTxHash := signature receipt;
         trPrice := Num.toString (expectedPrice tradeInfo);
         trExpectedIn := match side req with BUY => Some expected | SELL => None end;
         trExpectedOut := match side req with BUY => None | SELL => Some expected end |}.

End Controllers.

(* ================================================================== *)
(** ** Vocabulary of the statements *)
(* ================================================================== *)

(** Exact and case-insensitive agreement of a token's symbol with a
    queried one. *)
Definition sameSymbol (s : string) (t : TokenInfo) : Prop := symbol t = s.
Definition sameSymbolUpToCase (s : string) (t : TokenInfo) : Prop :=
  toUpperCase (symbol t) = toUpperCase s.

(** Wrapped SOL, as the token list has it. *)
Definition solToken : TokenInfo :=
  mkToken 101 "So11111111111111111111111111111111111111112" "SOL" "Wrapped SOL" 9.

(** The cached estimate is still within its window at the next reading
    of the clock. *)
Definition cacheFresh (w : World) (st : St) : bool :=
  match lastPriorityFeeEstimate st with
  | Some c => Z.ltb (nowAt w (calls st CNow) - timestamp c) PRIORITY_FEE_CACHE_MS
  | None => false
  end.

Definition positiveFee (fee : Num.number) : bool := Num.gtb fee Num.zero.

(** The percentile index, less one, is a position of a list of [n] fees. *)
Definition percentileInRange (cfg : Config) (n : nat) : bool :=
  match Num.toZ (Num.sub (percentileIndex cfg n) (Num.ofZ 1)) with
  | Some i => (Z.leb 0 i && Z.ltb i (Z.of_nat n))%bool
  | None => false
  end.

(** A configuration and a world for the examples: one endpoint, 0.9 as
    percentile, fees doubling up to 8 microlamports. *)
Definition exampleConfig : Config :=
  {| network := "mainnet-beta";
     rpcUrl := "https://rpc.example";
     nativeTokenSymbol := "SOL";
     defaultComputeUnits := Num.ofZ 200000;
     priorityFeePercentile := Num.ofString "0.9";
     priorityFeeMultiplier := Num.ofZ 2;
     maxPriorityFee := Num.ofZ 8;
     minPriorityFee := Num.ofString "0.1";
     retryIntervalMs := Num.ofZ 500;
     retryCount := 2 |}.

Definition exampleConnections : list Connection := ["https://rpc.example"].

Definition initialState (tokens : list TokenInfo) : St :=
  mkSt (fun _ => O) O None (Resolver.loadTokens tokens ∅) true [].

(** A world in which nothing answers. *)
Definition silentWorld : World :=
  {| nowAt := fun k => Z.of_nat k;
     feesAt := fun _ => FeeFetchError "unreachable";
     blockhashAt := fun _ => None;
     heightAt := fun _ => None;
     sendAt := fun _ _ => None;
     statusAt := fun _ => NoReplyInTime;
     swapAt := fun _ => None;
     simulateAt := fun _ => SimulateRejected "unreachable";
     quoteAt := fun _ _ => None;
     walletAt := fun _ => None;
     nativeBalanceAt := fun _ => None;
     tokenAccountsAt := fun _ => None;
     tokenListAt := fun _ => None |}.

Definition withFees (w : World) (f : nat -> FeeReply) : World :=
  {| nowAt := nowAt w; feesAt := f; blockhashAt := blockhashAt w;
     heightAt := heightAt w; sendAt := sendAt w; statusAt := statusAt w;
     swapAt := swapAt w; simulateAt := simulateAt w; quoteAt := quoteAt w;
     walletAt := walletAt w; nativeBalanceAt := nativeBalanceAt w;
     tokenAccountsAt := tokenAccountsAt w; tokenListAt := tokenListAt w |}.

(** The fee samples [0, 5, 3, 7] and [0, 0], in microlamports. *)
Definition mixedSamples : list Num.number :=
  [Num.ofZ 0; Num.ofZ 5; Num.ofZ 3; Num.ofZ 7].
Definition zeroSamples : list Num.number := [Num.ofZ 0; Num.ofZ 0].

Definition feeWorld (samples : list Num.number) : World :=
  withFees silentWorld (fun _ => FeeResult samples).

Definition withHeights (w : World) (h : nat -> option Z) : World :=
  {| nowAt := nowAt w; feesAt := feesAt w; blockhashAt := blockhashAt w;
     heightAt := h; sendAt := sendAt w; statusAt := statusAt w;
     swapAt := swapAt w; simulateAt := simulateAt w; quoteAt := quoteAt w;
     walletAt := walletAt w; nativeBalanceAt := nativeBalanceAt w;
     tokenAccountsAt := tokenAccountsAt w; tokenListAt := tokenListAt w |}.

Definition withSends (w : World) (f : nat -> Connection -> option string) : World :=
  {| nowAt := nowAt w; feesAt := feesAt w; blockhashAt := blockhashAt w;
     heightAt := heightAt w; sendAt := f; statusAt := statusAt w;
     swapAt := swapAt w; simulateAt := simulateAt w; quoteAt := quoteAt w;
     walletAt := walletAt w; nativeBalanceAt := nativeBalanceAt w;
     tokenAccountsAt := tokenAccountsAt w; tokenListAt := tokenListAt w |}.

Definition withStatuses (w : World) (f : nat -> StatusReply) : World :=
  {| nowAt := nowAt w; feesAt := feesAt w; blockhashAt := blockhashAt w;
     heightAt := heightAt w; sendAt := sendAt w; statusAt := f;
     swapAt := swapAt w; simulateAt := simulateAt w; quoteAt := quoteAt w;
     walletAt := walletAt w; nativeBalanceAt := nativeBalanceAt w;
     tokenAccountsAt := tokenAccountsAt w; tokenListAt := tokenListAt w |}.

Definition withBlockhashes (w : World) (f : nat -> option (string * Z)) : World :=
  {| nowAt := nowAt w; feesAt := feesAt w; blockhashAt := f;
     heightAt := heightAt w; sendAt := sendAt w; statusAt := statusAt w;
     swapAt := swapAt w; simulateAt := simulateAt w; quoteAt := quoteAt w;
     walletAt := walletAt w; nativeBalanceAt := nativeBalanceAt w;
     tokenAccountsAt := tokenAccountsAt w; tokenListAt := tokenListAt w |}.

(** A transfer to be sent, and its payer. *)
Definition exampleTx : Transaction :=
  mkTx [ProgramInstruction "11111111111111111111111111111111" "transfer"] None None [].
Definition exampleSigners : list string := ["payer"].

(** The network is at height 100 when [sendRawTransaction] starts and at
    height 1000 at every later reading; every endpoint rejects the
    submission. *)
Definition stallingWorld : World :=
  withHeights silentWorld (fun k => Some (if Nat.eqb k 0 then 100 else 1000)).

(** Every endpoint accepts the transaction under the signature [SIG];
    the fee samples give a fee of 1; the signature status is not known
    yet ([value[0]] is [null]) whenever it is asked. *)
Definition acceptingWorld : World :=
  withBlockhashes
    (withSends
       (withHeights (withFees silentWorld (fun _ => FeeResult [Num.ofZ 1]))
          (fun _ => Some 10))
       (fun _ _ => Some "SIG"))
    (fun _ => Some ("blockhash", 100)).

Definition unconfirmedWorld : World :=
  withStatuses acceptingWorld (fun _ => StatusValue None None).

(** The number of fee escalations among the events of a run. *)
Definition isEscalation (e : Event) : bool :=
  match e with EvEscalate _ => true | _ => false end.
Definition escalations (tr : list Event) : nat := length (List.filter isEscalation tr).

(** The number of submissions to an endpoint among the events of a run. *)
Definition isSubmission (e : Event) : bool :=
  match e with EvSubmit _ _ => true | _ => false end.
Definition submissions (tr : list Event) : nat := length (List.filter isSubmission tr).


(** The fee after [i] escalations: [Math.floor(fee * multiplier)],
    [i] times. *)
Definition escalate (cfg : Config) (f : Num.number) : Num.number :=
  Num.floor (Num.mul f (priorityFeeMultiplier cfg)).
Definition feeAfter (cfg : Config) (i : nat) (f0 : Num.number) : Num.number :=
  Nat.iter i (escalate cfg) f0.

(** A confirmation request whose course makes [confirmTransaction] throw:
    no reply in time, an HTTP error, a status with an error, or a
    confirmed status whose transaction data does not arrive in time. *)
Definition confirmationThrows (r : StatusReply) : bool :=
  match r with
  | NoReplyInTime => true
  | StatusHttpError _ => true
  | StatusValue None _ => false
  | StatusValue (Some status) tx =>
      match err status with
      | Some _ => true
      | None =>
          if isConfirmed status then
            match tx with None => true | Some _ => false end
          else false
      end
  end.

(** A confirmation request that gives [executeSwap] no receipt: any of the
    above, a status that is not confirmed, or transaction data that is
    [null] or lacks [meta]. *)
Definition givesNoReceipt (r : StatusReply) : bool :=
  match r with
  | StatusValue (Some status) (Some (Some d)) =>
      match err status with
      | Some _ => true
      | None => if isConfirmed status then negb (bool_decide (is_Some (meta d))) else true
      end
  | _ => true
  end.

(** Every endpoint accepts every broadcast, all under one non-empty
    signature. *)
Definition alwaysAccepted (w : World) : Prop :=
  forall k, exists s, s <> "" /\ forall c, sendAt w k c = Some s.


(** [calm m]: the call [m] ends, by a value or an exception, and records
    no fee escalation. *)
Definition calm {A} (m : M A) : Prop :=
  forall st, fst (m st) <> OutOfFuel
             /\ escalations (trace (snd (m st))) = escalations (trace st).

(** A world in which every round of retries is exhausted: each broadcast
    is accepted, no confirmation request succeeds, and the blockhash, the
    swap transaction and its simulation are always obtained. *)
Definition exhaustingWorld (w : World) : Prop :=
  alwaysAccepted w
  /\ (forall k, confirmationThrows (statusAt w k) = true)
  /\ (forall k, is_Some (blockhashAt w k))
  /\ (forall k, is_Some (swapAt w k))
  /\ (forall k, simulateAt w k = SimulateOk).

Definition withSwaps (w : World) (f : nat -> option SwapResponse)
    (g : nat -> SimulateReply) : World :=
  {| nowAt := nowAt w; feesAt := feesAt w; blockhashAt := blockhashAt w;
     heightAt := heightAt w; sendAt := sendAt w; statusAt := statusAt w;
     swapAt := f; simulateAt := g; quoteAt := quoteAt w;
     walletAt := walletAt w; nativeBalanceAt := nativeBalanceAt w;
     tokenAccountsAt := tokenAccountsAt w; tokenListAt := tokenListAt w |}.

(** Every broadcast is accepted and every confirmation request times
    out. *)
Definition timeoutWorld : World :=
  withSwaps acceptingWorld
    (fun _ => Some {| swapTransaction := "c3dhcA=="; swapLastValidBlockHeight := 100 |})
    (fun _ => SimulateOk).

Definition exampleWallet : Wallet := {| payer := {| publicKey := "payer" |} |}.
Definition exampleQuote : QuoteResponse := {| inAmount := "1000000"; outAmount := "5000000" |}.

Definition exampleMessages : ErrorMessages :=
  {| PRICE_FAILED_ERROR_MESSAGE := "Failed to get price: ";
     INSUFFICIENT_BASE_TOKEN_BALANCE_ERROR_MESSAGE := "Insufficient base token balance";
     INSUFFICIENT_QUOTE_TOKEN_BALANCE_ERROR_MESSAGE := "Insufficient quote token balance";
     SIMULATION_ERROR_MESSAGE := "Simulation failed";
     SWAP_ROUTE_FETCH_ERROR_MESSAGE := "Swap route fetch failed: ";
     SWAP_PRICE_EXCEEDS_LIMIT_PRICE_ERROR_MESSAGE :=
       fun p l => "Swap price " +:+ p +:+ " exceeds limitPrice " +:+ l;
     SWAP_PRICE_LOWER_THAN_LIMIT_PRICE_ERROR_MESSAGE :=
       fun p l => "Swap price " +:+ p +:+ " lower than limitPrice " +:+ l |}.

(** The example configuration with the multiplier 1.5. *)
Definition slowConfig : Config :=
  {| network := network exampleConfig;
     rpcUrl := rpcUrl exampleConfig;
     nativeTokenSymbol := nativeTokenSymbol exampleConfig;
     defaultComputeUnits := defaultComputeUnits exampleConfig;
     priorityFeePercentile := priorityFeePercentile exampleConfig;
     priorityFeeMultiplier := Num.ofString "1.5";
     maxPriorityFee := maxPriorityFee exampleConfig;
     minPriorityFee := minPriorityFee exampleConfig;
     retryIntervalMs := retryIntervalMs exampleConfig;
     retryCount := retryCount exampleConfig |}.




(** [trade] before its guards: the clock, the wallet and the trade
    information. *)
Definition tradePrelude (w : World) (cfg : Config) (jcfg : JupiterConfig)
    (msgs : ErrorMessages) (connections : list Connection) (req : TradeRequest)
  : M (Keypair * TradeInfo * QuoteResponse) :=
  let! initTime := now w in
  let! keypair := getWallet w (reqAddress req) in
  let! result :=
    tryCatch
      (getTradeInfo w cfg jcfg msgs connections (base req) (quote req)
         (Num.ofString (reqAmount req)) (side req) (allowedSlippage req))
      (priceFailed msgs) in
  ret (keypair, fst result, snd result).

(** [trade] after its guards: the swap and the response. *)
Definition tradeExecute (w : World) (cfg : Config) (msgs : ErrorMessages)
    (connections : list Connection) (fuel : nat) (req : TradeRequest)
    (keypair : Keypair) (tradeInfo : TradeInfo) (quoteResponse : QuoteResponse)
  : M TradeResponse :=
  let! receipt :=
    executeSwap w cfg msgs connections fuel {| payer := keypair |} quoteResponse in
  let! amount := newDecimal (Dec.VString (reqAmount req)) in
  let expected := Num.toString (expectedAmount tradeInfo) in
  ret {| trNetwork := network cfg;
         trBase := address (baseToken tradeInfo);
         trQuote := address (quoteToken tradeInfo);
         trAmount := Dec.toFixed amount (decimals (baseToken tradeInfo));
         trRawAmount := Num.toString (requestAmount tradeInfo);
         trGasPrice := priorityFeePrice receipt;
         trGasPriceToken := gasPriceToken (gasEstimate tradeInfo);
         trGasLimit := computeUnitLimit receipt;
         trGasCost := Num.toString (Num.div (feeInLamports receipt) (Num.pow10 9));
         trTxHash := signature receipt;
         trPrice := Num.toString (expectedPrice tradeInfo);
         trExpectedIn := match side req with BUY => Some expected | SELL => None end;
         trExpectedOut := match side req with BUY => None | SELL => Some expected end |}.

(** The error code of a failed call, when it fails with an
    [HttpException]. *)
Definition thrownCode {A} (o : outcome A) : option ErrorCode :=
  match o with
  | Throw (HttpException _ _ c) => Some c
  | _ => None
  end.

(** The code of the limit-price violation of a side, and of its
    insufficient balance. *)
Definition limitCode (s : Side) : ErrorCode :=
  match s with
  | BUY => SWAP_PRICE_EXCEEDS_LIMIT_PRICE_ERROR_CODE
  | SELL => SWAP_PRICE_LOWER_THAN_LIMIT_PRICE_ERROR_CODE
  end.

Definition balanceCode (s : Side) : ErrorCode :=
  match s with
  | BUY => INSUFFICIENT_QUOTE_TOKEN_BALANCE_ERROR_CODE
  | SELL => INSUFFICIENT_BASE_TOKEN_BALANCE_ERROR_CODE
  end.

Definition isGuardCode (c : ErrorCode) : bool :=
  match c with
  | SWAP_PRICE_EXCEEDS_LIMIT_PRICE_ERROR_CODE
  | SWAP_PRICE_LOWER_THAN_LIMIT_PRICE_ERROR_CODE
  | INSUFFICIENT_BASE_TOKEN_BALANCE_ERROR_CODE
  | INSUFFICIENT_QUOTE_TOKEN_BALANCE_ERROR_CODE => true
  | _ => false
  end.

(** The side's violation of the limit: the price is above it for a BUY,
    below it for a SELL. *)
Definition violatesLimit (s : Side) (price lim : Dec.Decimal) : bool :=
  match s with
  | BUY => Dec.gt price lim
  | SELL => Dec.lt price lim
  end.

(** The token whose balance [trade] checks, and the amount it must
    cover. *)
Definition guardedToken (s : Side) (tradeInfo : TradeInfo) : TokenInfo :=
  match s with
  | SELL => baseToken tradeInfo
  | BUY => quoteToken tradeInfo
  end.

Definition requiredAmount (req : TradeRequest) (tradeInfo : TradeInfo) : Dec.value :=
  match side req with
  | SELL => Dec.VString (reqAmount req)
  | BUY => Dec.VNumber (expectedAmount tradeInfo)
  end.

(** [quiet m]: the call [m] records no event. *)
Definition quiet {A} (m : M A) : Prop :=
  forall st, trace (snd (m st)) = trace st.

(** [throwsOnly P m]: whatever [m] throws satisfies [P]. *)
Definition throwsOnly {A} (P : exn -> Prop) (m : M A) : Prop :=
  forall st e, fst (m st) = Throw e -> P e.

(** An exception that is not one of the guards' [HttpException]s. *)
Definition notGuardError (e : exn) : Prop :=
  match e with
  | HttpException _ _ c => isGuardCode c = false
  | _ => True
  end.

(** The message of the limit-price violation of a side. *)
Definition limitMessage (msgs : ErrorMessages) (s : Side) (price : Num.number)
    (lim : string) : string :=
  match s with
  | BUY => SWAP_PRICE_EXCEEDS_LIMIT_PRICE_ERROR_MESSAGE msgs (Num.toString price) lim
  | SELL => SWAP_PRICE_LOWER_THAN_LIMIT_PRICE_ERROR_MESSAGE msgs (Num.toString price) lim
  end.

Definition balanceMessage (msgs : ErrorMessages) (s : Side) : string :=
  match s with
  | BUY => INSUFFICIENT_QUOTE_TOKEN_BALANCE_ERROR_MESSAGE msgs
  | SELL => INSUFFICIENT_BASE_TOKEN_BALANCE_ERROR_MESSAGE msgs
  end.

(** *** A wallet, three tokens and four requests *)

Definition usdcToken : TokenInfo :=
  mkToken 101 "EPjFWdd5AufqSSqeM2qN1xzybapC8G4wEGGkZwyTDt1v" "USDC" "USD Coin" 6.
Definition jupToken : TokenInfo :=
  mkToken 101 "JUPyiwrYJFskUPiHa7hkeR8VUtAeFoSYbKedZNsDvCN" "JUP" "Jupiter" 6.
Definition exampleTokens : list TokenInfo := [solToken; usdcToken; jupToken].

Definition exampleJupiter : JupiterConfig :=
  {| allowedSlippageMatch := Some (Num.ofZ 1, Num.ofZ 100) |}.

(** The wallet holds 0.5 SOL and one token account with 5000 JUP; the
    aggregator quotes 10 units of the input token for 1 unit of the
    output token (both with six decimals). *)
Definition tradeWorld : World :=
  {| nowAt := nowAt timeoutWorld;
     feesAt := feesAt timeoutWorld;
     blockhashAt := blockhashAt timeoutWorld;
     heightAt := heightAt timeoutWorld;
     sendAt := sendAt timeoutWorld;
     statusAt := statusAt timeoutWorld;
     swapAt := swapAt timeoutWorld;
     simulateAt := simulateAt timeoutWorld;
     quoteAt := fun _ _ => Some {| inAmount := "10000000"; outAmount := "1000000" |};
     walletAt := fun _ => Some {| publicKey := "payer" |};
     nativeBalanceAt := fun _ => Some (Num.ofZ 500000000);
     tokenAccountsAt :=
       fun _ => Some [ {| mint := address jupToken; amount := 5000000000 |} ];
     tokenListAt := fun _ => Some exampleTokens |}.

(** BUY 1 JUP with USDC, at no more than 9 USDC per JUP. *)
Definition buyAboveLimit : TradeRequest :=
  {| base := "JUP"; quote := "USDC"; reqAmount := "1"; side := BUY;
     reqAddress := "payer"; limitPrice := Some "9"; allowedSlippage := None |}.

(** SELL 10000 JUP for USDC. *)
Definition sellTooMuch : TradeRequest :=
  {| base := "JUP"; quote := "USDC"; reqAmount := "10000"; side := SELL;
     reqAddress := "payer"; limitPrice := None; allowedSlippage := None |}.



(** A token with eighteen decimals, and price requests. *)
Definition wideToken : TokenInfo :=
  mkToken 101 "WETC111111111111111111111111111111111111111" "WETC" "Wrapped ETC" 18.

Definition priceOfWide : PriceRequest :=
  {| pBase := "WETC"; pQuote := "USDC"; pAmount := "10000"; pSide := BUY;
     pAllowedSlippage := None |}.

Definition priceOfFraction : PriceRequest :=
  {| pBase := "JUP"; pQuote := "USDC"; pAmount := "2.01"; pSide := SELL;
     pAllowedSlippage := None |}.

(** Some confirmation request of the world is answered with a confirmed
    (or finalized) status without error, together with the transaction
    data [d]. *)
Definition confirmedSomewhere (w : World) (d : TxData) : Prop :=
  exists k status,
    statusAt w k = StatusValue (Some status) (Some (Some d))
    /\ err status = None
    /\ isConfirmed status = true.

(* ================================================================== *)
(** ** Token lookup by address, and the token listing *)
(* ================================================================== *)

Section TokenByAddress.

Variable w : World.
Variable cfg : Config.
(** Whether [new PublicKey(text)] accepts [text]. *)
Variable isPublicKey : string -> bool.
(** The answer of [_utl.fetchMint] for a mint; [None] is a rejected
    promise. *)
Variable fetchMint : string -> option TokenInfo.

Definition getTokenByAddress (tokenAddress : string) (useApi : bool) : M TokenInfo :=
  if (useApi && negb (String.eqb (network cfg) "mainnet-beta"))%bool
  then throw (JsError "API usage is only allowed on mainnet-beta")
  else
    run! (if isPublicKey tokenAddress then ret tt
          else throw (JsError "Invalid public key input")) in
    if useApi then awaitOr (fetchMint tokenAddress) (JsError "fetchMint failed")
    else
      let! tokenList := getTokenList w cfg in
      awaitOr (List.find (fun t => String.eqb (address t) tokenAddress) tokenList)
              (JsError "Token not found in the token list").

End TokenByAddress.

(** [SolanaController.getTokens]: [storedTokenList] is the value of the
    getter of that name, [tokenList] the list that [getTokenBySymbol]
    scans; a token that is not found is left out. *)
Definition getTokens (w : World) (storedTokenList tokenList : list TokenInfo)
    (tokenSymbols : option (list string)) : M (list TokenInfo) :=
  let! initTime := now w in
  ret (match tokenSymbols with
       | None => storedTokenList
       | Some symbols => omap (Resolver.getTokenBySymbol tokenList) symbols
       end).

(* ================================================================== *)
(** ** Transactions read back from the ledger *)
(* ================================================================== *)

Module Math.

(** [Math.abs] *)
Definition abs (x : Num.number) : Num.number := SFabs x.

End Math.

(** The members of [TransactionResponseStatusCode] that the chain class
    names. *)
Inductive TransactionResponseStatusCode := FAILED | UNCONFIRMED | CONFIRMED.

(** The answer of [getTransaction], as far as it is read. *)
Record ResponseMeta := { metaErr : option string }.

Record TransactionResponse := {
  slot : Z;
  responseMeta : option ResponseMeta;
  (** [transaction.message.accountKeys], in base-58 text *)
  accountKeys : list string
}.

(** The answer of [getParsedTransaction], as far as it is read. *)
Module Parsed.

Record TokenBalance := {
  mint : string;
  owner : option string;
  (** [uiTokenAmount.uiAmount]; [None] is [null] *)
  uiAmount : option Num.number
}.

Record Meta := {
  fee : Num.number;
  preBalances : list Num.number;
  postBalances : list Num.number;
  preTokenBalances : option (list TokenBalance);
  postTokenBalances : option (list TokenBalance)
}.

Record Transaction := { meta : option Meta }.

End Parsed.

(** [{ balanceChange, fee }] *)
Module Change.

Record t := { balanceChange : Num.number; fee : Num.number }.

End Change.

(** [x || 0] for a number that may be missing. *)
Definition orZero (x : option Num.number) : Num.number :=
  match x with
  | Some n => if Num.truthy n then n else Num.zero
  | None => Num.zero
  end.

(** [a - b] for two array elements that may be [undefined]. *)
Definition minus (a b : option Num.number) : Num.number :=
  match a, b with
  | Some x, Some y => Num.sub x y
  | _, _ => Num.NaN
  end.

(** [balances.find(...)?.uiTokenAmount.uiAmount || 0] *)
Definition findBalance (balances : option (list Parsed.TokenBalance))
    (mintAddress ownerAddress : string) : Num.number :=
  orZero
    (match List.find
             (fun b => (String.eqb (Parsed.mint b) mintAddress
                        && bool_decide (Parsed.owner b = Some ownerAddress))%bool)
             (default [] balances) with
     | Some b => Parsed.uiAmount b
     | None => None
     end).

(** How one pass of the fetching loop ends. *)
Inductive Attempt :=
| Found (txDetails : Parsed.Transaction)
| Retry
| GiveUp.

(** The answers to the successive [getParsedTransaction] requests of one
    call, by attempt: [None] is a rejected promise, [Some None] is
    [null]. *)
Definition DetailsScript := nat -> option (option Parsed.Transaction).

Section Ledger.

Variable connections : list Connection.

(** [this.connectionPool.getNextConnection()], about to be used. *)
Definition connection : M Connection :=
  let! c := getNextConnection connections in
  awaitOr c TypeError.

Definition getCurrentBlockNumber (slotReply : option Z) : M Z :=
  run! connection in
  awaitOr slotReply (JsError "getSlot failed").

Definition getTransaction (reply : option (option TransactionResponse))
    (payerSignature : string) : M (option TransactionResponse) :=
  run! connection in
  awaitOr reply (JsError "getTransaction failed").

Definition getTransactionStatusCode (txData : option TransactionResponse)
  : TransactionResponseStatusCode :=
  match txData with
  | None => UNCONFIRMED
  | Some d =>
      match responseMeta d with
      | Some m =>
          match metaErr m with
          | None => CONFIRMED
          | Some _ => FAILED
          end
      | None => CONFIRMED
      end
  end.

(** The loop [for (let attempt = 0; attempt < 20; attempt++)] of the two
    extraction functions, with [remaining] passes left; [patience] is the
    bound of [if (attempt < ...)] in the [catch] block.  [None] is the
    [return] of the default values from inside the loop; [Some d] is the
    value of [txDetails] after the loop. *)
Fixpoint fetchDetails (script : DetailsScript) (patience remaining attempt : nat)
  : M (option (option Parsed.Transaction)) :=
  match remaining with
  | O => ret (Some None)
  | S remaining' =>
      let! pass :=
        tryCatch
          (run! connection in
           let! txDetails :=
             awaitOr (script attempt) (JsError "getParsedTransaction failed") in
           match txDetails with
           | Some d => ret (Found d)
           | None => throw (JsError "Transaction details are null")
           end)
          (fun _ =>
             if Nat.ltb attempt patience
             then run! sleep (Num.ofZ 1000) in ret Retry
             else ret GiveUp) in
      match pass with
      | Found d => ret (Some (Some d))
      | Retry => fetchDetails script patience remaining' (S attempt)
      | GiveUp => ret None
      end
  end.

Definition extractTokenBalanceChangeAndFee (script : DetailsScript)
    (sig mintAddress ownerAddress : string) : M Change.t :=
  let! fetched := fetchDetails script 10 20 0 in
  match fetched with
  | None => ret {| Change.balanceChange := Num.zero; Change.fee := Num.zero |}
  | Some txDetails =>
      let! txDetails := awaitOr txDetails TypeError in
      let preTokenBalances :=
        match Parsed.meta txDetails with
        | Some m => Parsed.preTokenBalances m
        | None => None
        end in
      let postTokenBalances :=
        match Parsed.meta txDetails with
        | Some m => Parsed.postTokenBalances m
        | None => None
        end in
      let preBalance := findBalance preTokenBalances mintAddress ownerAddress in
      let postBalance := findBalance postTokenBalances mintAddress ownerAddress in
      ret {| Change.balanceChange := Num.sub postBalance preBalance;
             Change.fee :=
               Num.div (orZero (option_map Parsed.fee (Parsed.meta txDetails)))
                       (Num.ofZ 1000000000) |}
  end.

Definition extractAccountBalanceChangeAndFee (script : DetailsScript)
    (sig : string) (accountIndex : Num.number) : M Change.t :=
  let! fetched := fetchDetails script 19 20 0 in
  match fetched with
  | None => ret {| Change.balanceChange := Num.zero; Change.fee := Num.zero |}
  | Some txDetails =>
      let! txDetails := awaitOr txDetails TypeError in
      let preBalances :=
        match Parsed.meta txDetails with
        | Some m => Parsed.preBalances m
        | None => []
        end in
      let postBalances :=
        match Parsed.meta txDetails with
        | Some m => Parsed.postBalances m
        | None => []
        end in
      ret {| Change.balanceChange :=
               Num.div
                 (Math.abs (minus (index postBalances accountIndex)
                                  (index preBalances accountIndex)))
                 (Num.ofZ 1000000000);
             Change.fee :=
               Num.div (orZero (option_map Parsed.fee (Parsed.meta txDetails)))
                       (Num.ofZ 1000000000) |}
  end.

End Ledger.

(** The response of [SolanaController.poll]. *)
Module Poll.

Record Response := {
  currentBlock : Z;
  txHash : string;
  txBlock : option Z;
  (** a number: the literal [0], or the number of a status code *)
  txStatus : Z;
  fee : option Num.number;
  txData : option TransactionResponse
}.

End Poll.

(** [SolanaController.poll]; the node's answers to [getSlot], to
    [getTransaction] and to the [getParsedTransaction] requests are
    [slotReply], [reply] and [script].  The members of
    [TransactionResponseStatusCode] are numbers that the module of the
    requests declares, which is not among the sources: [statusNumber]
    gives them. *)
Definition poll (w : World) (connections : list Connection)
    (statusNumber : TransactionResponseStatusCode -> Z)
    (slotReply : option Z) (reply : option (option TransactionResponse))
    (script : DetailsScript) (txHash : string) : M Poll.Response :=
  let! initTime := now w in
  let! currentBlock := getCurrentBlockNumber connections slotReply in
  let! txData := getTransaction connections reply txHash in
  match txData with
  | None =>
      ret {| Poll.currentBlock := currentBlock;
             Poll.txHash := txHash;
             Poll.txBlock := None;
             Poll.txStatus := 0;
             Poll.fee := None;
             Poll.txData := None |}
  | Some d =>
      let txStatus := getTransactionStatusCode (Some d) in
      let! change :=
        extractAccountBalanceChangeAndFee connections script txHash Num.zero in
      ret {| Poll.currentBlock := currentBlock;
             Poll.txHash := txHash;
             Poll.txBlock := Some (slot d);
             Poll.txStatus := statusNumber txStatus;
             Poll.fee := Some (Change.fee change);
             Poll.txData := Some d |}
  end.

(** One numbering of the status codes, with [UNCONFIRMED] at 0. *)
Definition statusFromZero (code : TransactionResponseStatusCode) : Z :=
  match code with
  | UNCONFIRMED => 0
  | CONFIRMED => 1
  | FAILED => -1
  end.

(** The mint of wrapped SOL, which [extractSwapBalances] singles out. *)
Definition NATIVE_MINT : string := "So11111111111111111111111111111111111111112".

Module Swapped.

Record t := {
  totalInputSwapped : Num.number;
  totalOutputSwapped : Num.number;
  fee : Num.number
}.

End Swapped.

(** [Jupiter.extractSwapBalances]; [inputScript] and [outputScript] answer
    the [getParsedTransaction] requests of the two extractions. *)
Definition extractSwapBalances (connections : list Connection)
    (reply : option (option TransactionResponse))
    (inputScript outputScript : DetailsScript)
    (sig inputMint outputMint : string) : M Swapped.t :=
  run! connection connections in
  let! txInfo := awaitOr reply (JsError "getTransaction failed") in
  let! txInfo := awaitOr txInfo (JsError "Transaction not found") in
  let! fromAddress := awaitOr (head (accountKeys txInfo)) TypeError in
  let! input :=
    if String.eqb inputMint NATIVE_MINT
    then extractAccountBalanceChangeAndFee connections inputScript sig Num.zero
    else extractTokenBalanceChangeAndFee connections inputScript sig inputMint
           fromAddress in
  let! output :=
    if String.eqb outputMint NATIVE_MINT
    then extractAccountBalanceChangeAndFee connections outputScript sig Num.zero
    else extractTokenBalanceChangeAndFee connections outputScript sig outputMint
           fromAddress in
  ret {| Swapped.totalInputSwapped := Math.abs (Change.balanceChange input);
         Swapped.totalOutputSwapped := Math.abs (Change.balanceChange output);
         Swapped.fee := Change.fee input |}.

(** [Jupiter.getRequestAmount] *)
Definition getRequestAmount (amount : Num.number) (tokenDecimals : Z) : Num.number :=
  Num.floor (Num.mul amount (Num.pow10 tokenDecimals)).

(* ================================================================== *)
(** ** Vocabulary of the further statements *)
(* ================================================================== *)

(** [n] successive calls of [getNextConnection]. *)
Fixpoint draw (connections : list Connection) (n : nat) : M (list (option Connection)) :=
  match n with
  | O => ret []
  | S n' =>
      let! c := getNextConnection connections in
      let! rest := draw connections n' in
      ret (c :: rest)
  end.

(** [appends P m]: what [m] records is put in front of the trace, and
    every event of it satisfies [P]. *)
Definition appends {A} (P : Event -> Prop) (m : M A) : Prop :=
  forall st, exists evs,
    trace (snd (m st)) = (evs ++ trace st)%list /\ Forall P evs.

(** [fails m]: the call [m] never returns a value. *)
Definition fails {A} (m : M A) : Prop :=
  forall st a, fst (m st) <> Ret a.

(** A world whose fee request is refused with an HTTP status. *)
Definition refusedFeeWorld : World := withFees silentWorld (fun _ => FeeHttpStatus 429).

(** Three endpoints. *)
Definition threeConnections : list Connection := ["a"; "b"; "c"].

(** A world that resolves the token list to the example tokens. *)
Definition listingWorld : World :=
  {| nowAt := nowAt silentWorld;
     feesAt := feesAt silentWorld;
     blockhashAt := blockhashAt silentWorld;
     heightAt := heightAt silentWorld;
     sendAt := sendAt silentWorld;
     statusAt := statusAt silentWorld;
     swapAt := swapAt silentWorld;
     simulateAt := simulateAt silentWorld;
     quoteAt := quoteAt silentWorld;
     walletAt := walletAt silentWorld;
     nativeBalanceAt := nativeBalanceAt silentWorld;
     tokenAccountsAt := tokenAccountsAt silentWorld;
     tokenListAt := fun _ => Some exampleTokens |}.

(** An instance that has not been initialised. *)
Definition freshState : St := mkSt (fun _ => O) O None ∅ false [].

(** The number of pauses among the events of a run. *)
Definition isSleep (e : Event) : bool :=
  match e with EvSleep _ => true | _ => false end.
Definition sleeps (tr : list Event) : nat := length (List.filter isSleep tr).

(** The endpoints reject the first two broadcasts and accept the third
    under the signature [SIG]; the network is at height 10. *)
Definition thirdTimeWorld : World :=
  withSends (withHeights silentWorld (fun _ => Some 10))
    (fun k _ => if Nat.ltb k 2 then None else Some "SIG").

(** The network is at height 1000. *)
Definition lateWorld : World := withHeights silentWorld (fun _ => Some 1000).

(** An event other than a submission to an endpoint. *)
Definition notSubmission (e : Event) : Prop := isSubmission e = false.

(** Whatever is submitted is the serialized transaction [rawTx]. *)
Definition submits (rawTx : RawTx) (e : Event) : Prop :=
  match e with
  | EvSubmit r _ => r = rawTx
  | _ => True
  end.

(** A submission made for the transaction [tx]: the instructions of [tx]
    outside the compute-budget program, in their order, followed by the
    one instruction that sets the price of a compute unit to the floor of
    a fee within the ceiling; signed by [signers] under a recent
    blockhash. *)
Definition carriesOneFee (cfg : Config) (tx : Transaction) (signers : list string)
    (e : Event) : Prop :=
  match e with
  | EvSubmit (RawLegacy t) _ =>
      exists currentPriorityFee,
        Num.leb currentPriorityFee (maxPriorityFee cfg) = true
        /\ instructions t
           = (filter (fun inst => negb (isComputeBudget inst)) (instructions tx)
              ++ [ComputeUnitPrice (Num.floor currentPriorityFee)])%list
        /\ signedBy t = signers
        /\ is_Some (recentBlockhash t)
  | EvSubmit (RawSwap _ _) _ => False
  | _ => True
  end.

(** The trade world, with a simulation that always reports an error. *)
Definition failingSimulationWorld : World :=
  withSwaps tradeWorld (swapAt tradeWorld)
    (fun _ => SimulateErr "InstructionError" "Program log: insufficient funds").

(** SELL 1 JUP for USDC. *)
Definition sellOne : TradeRequest :=
  {| base := "JUP"; quote := "USDC"; reqAmount := "1"; side := SELL;
     reqAddress := "payer"; limitPrice := None; allowedSlippage := None |}.

(** A transfer that already carries a limit of compute units and a price
    per compute unit. *)
Definition budgetedTx : Transaction :=
  mkTx [ComputeBudgetOther "setComputeUnitLimit(1400000)";
        ProgramInstruction "11111111111111111111111111111111" "transfer";
        ComputeUnitPrice (Num.ofZ 3)]
       None None [].

(** The receipt that [executeSwap] builds from the meta data of the
    confirmed transaction. *)
Definition receiptOf (sig : option string) (m : TxMeta) : SwapReceipt :=
  {| signature := sig;
     feeInLamports := fee m;
     computeUnitLimit := computeUnitsConsumed m;
     priorityFeePrice :=
       Num.mul (Num.div (Num.sub (fee m) BASE_FEE) (computeUnitsConsumed m))
               (Num.ofZ 1000000) |}.

(** The meta data of a transaction that consumed 50000 compute units for
    a fee of 5500 lamports. *)
Definition exampleMeta : TxMeta :=
  {| computeUnitsConsumed := Num.ofZ 50000; fee := Num.ofZ 5500 |}.

(** Every broadcast is accepted and every confirmation request finds the
    transaction confirmed, with its data. *)
Definition confirmingWorld : World :=
  withStatuses timeoutWorld
    (fun _ =>
       StatusValue (Some {| err := None; confirmationStatus := "confirmed" |})
                   (Some (Some {| meta := Some exampleMeta |}))).

(** The example configuration with a ceiling of zero for the fee. *)
Definition cappedConfig : Config :=
  {| network := network exampleConfig;
     rpcUrl := rpcUrl exampleConfig;
     nativeTokenSymbol := nativeTokenSymbol exampleConfig;
     defaultComputeUnits := defaultComputeUnits exampleConfig;
     priorityFeePercentile := priorityFeePercentile exampleConfig;
     priorityFeeMultiplier := priorityFeeMultiplier exampleConfig;
     maxPriorityFee := Num.ofZ 0;
     minPriorityFee := minPriorityFee exampleConfig;
     retryIntervalMs := retryIntervalMs exampleConfig;
     retryCount := retryCount exampleConfig |}.

(** The symbols that a balance request asks for, compared in upper
    case; without a list of symbols every symbol is asked for. *)
Definition requested (symbols : option (list string)) (s : string) : bool :=
  includesUpper (option_map (map toUpperCase) symbols) (toUpperCase s).


(** The failures that a price request reports. *)
Definition priceFailure (msgs : ErrorMessages) (e : exn) : Prop :=
  e = DecimalError
  \/ exists m,
      e = HttpException 500 (PRICE_FAILED_ERROR_MESSAGE msgs +:+ m) PRICE_FAILED_ERROR_CODE.

(** The token that a trade gives to the aggregator, and the one it
    takes: a BUY pays with the quote token, a SELL with the base token. *)
Definition inputToken (s : Side) (tradeInfo : TradeInfo) : TokenInfo :=
  match s with
  | BUY => quoteToken tradeInfo
  | SELL => baseToken tradeInfo
  end.

Definition outputToken (s : Side) (tradeInfo : TradeInfo) : TokenInfo :=
  match s with
  | BUY => baseToken tradeInfo
  | SELL => quoteToken tradeInfo
  end.

(** A price request for a token that is not listed. *)
Definition priceOfUnknown : PriceRequest :=
  {| pBase := "BONK"; pQuote := "USDC"; pAmount := "1"; pSide := SELL;
     pAllowedSlippage := None |}.

(** A price request whose base symbol is the name of a member that every
    object inherits. *)
Definition priceOfInherited : PriceRequest :=
  {| pBase := "constructor"; pQuote := "USDC"; pAmount := "1"; pSide := SELL;
     pAllowedSlippage := None |}.

(** Every entry of the symbol table is stored under its own symbol. *)
Definition keyedBySymbol (m : gmap string TokenInfo) : Prop :=
  forall s t, m !! s = Some t -> symbol t = s.

(** BUY 2 JUP with USDC, with an allowed slippage that is no number. *)
Definition buyTwo : TradeRequest :=
  {| base := "JUP"; quote := "USDC"; reqAmount := "2"; side := BUY;
     reqAddress := "payer"; limitPrice := None; allowedSlippage := Some "abc" |}.

(** A token with nine decimals that is paid for with USDC. *)
Definition nineToken : TokenInfo :=
  mkToken 101 "NiNE111111111111111111111111111111111111111" "NINE" "Nine" 9.

(** The aggregator answers only the request to pay 2 * 10^6 units of
    USDC for NINE, at a slippage of 100 basis points. *)
Definition strictQuoteWorld : World :=
  {| nowAt := nowAt tradeWorld;
     feesAt := feesAt tradeWorld;
     blockhashAt := blockhashAt tradeWorld;
     heightAt := heightAt tradeWorld;
     sendAt := sendAt tradeWorld;
     statusAt := statusAt tradeWorld;
     swapAt := swapAt tradeWorld;
     simulateAt := simulateAt tradeWorld;
     quoteAt :=
       fun _ params =>
         if (String.eqb (inputMint params) (address usdcToken)
             && String.eqb (outputMint params) (address nineToken)
             && Num.eqb (quoteAmount params) (Num.ofZ 2000000)
             && Num.eqb (slippageBps params) (Num.ofZ 100))%bool
         then Some {| inAmount := "2000000"; outAmount := "1000000000" |}
         else None;
     walletAt := walletAt tradeWorld;
     nativeBalanceAt := nativeBalanceAt tradeWorld;
     tokenAccountsAt := tokenAccountsAt tradeWorld;
     tokenListAt := tokenListAt tradeWorld |}.

Definition nineTokens : list TokenInfo := [solToken; usdcToken; nineToken].

(** An answer to [getParsedTransaction] that brings the transaction. *)
Definition available (r : option (option Parsed.Transaction)) : bool :=
  match r with
  | Some (Some _) => true
  | _ => false
  end.

(** The default values that the extraction functions return when they
    give up. *)
Definition noChange : Change.t :=
  {| Change.balanceChange := Num.zero; Change.fee := Num.zero |}.

(** A node that never has the parsed transaction, and one that has it
    from the twelfth request on. *)
Definition neverScript : DetailsScript := fun _ => Some None.

Definition exampleParsed : Parsed.Transaction :=
  {| Parsed.meta :=
       Some {| Parsed.fee := Num.ofZ 5000;
               Parsed.preBalances := [Num.ofZ 1000000000; Num.ofZ 0];
               Parsed.postBalances := [Num.ofZ 899995000; Num.ofZ 100000000];
               Parsed.preTokenBalances := None;
               Parsed.postTokenBalances :=
                 Some [ {| Parsed.mint := address usdcToken;
                           Parsed.owner := Some "payer";
                           Parsed.uiAmount := Some (Num.ofZ 25) |} ] |} |}.

Definition lateScript : DetailsScript :=
  fun k => if Nat.ltb k 11 then None else Some (Some exampleParsed).

Definition promptScript : DetailsScript := fun _ => Some (Some exampleParsed).

(** [t] is the first entry of [l] that satisfies [P]. *)
Definition firstMatch (P : TokenInfo -> Prop) (l : list TokenInfo) (t : TokenInfo) : Prop :=
  exists l1 l2 : list TokenInfo, l = (l1 ++ t :: l2)%list /\ P t /\ Forall (fun u => ~ P u) l1.

(** A value that is not below zero: positive, a zero, or no number. *)
Definition notNegative (x : Num.number) : Prop := Num.ltb x Num.zero = false.

(** A transaction of the payer, as [getTransaction] answers it. *)
Definition exampleResponse : TransactionResponse :=
  {| slot := 250000000;
     responseMeta := Some {| metaErr := None |};
     accountKeys := ["payer"; "pool"] |}.

Definition failedResponse : TransactionResponse :=
  {| slot := 250000001;
     responseMeta := Some {| metaErr := Some "InstructionError" |};
     accountKeys := ["payer"; "pool"] |}.

(** A token list in which one mint is listed twice. *)
Definition oldJupToken : TokenInfo :=
  mkToken 101 "JUPyiwrYJFskUPiHa7hkeR8VUtAeFoSYbKedZNsDvCN" "JUP-OLD" "Jupiter (old)" 6.

Definition twiceListed : list TokenInfo := [solToken; oldJupToken; jupToken].

Definition twiceListedWorld : World :=
  {| nowAt := nowAt silentWorld;
     feesAt := feesAt silentWorld;
     blockhashAt := blockhashAt silentWorld;
     heightAt := heightAt silentWorld;
     sendAt := sendAt silentWorld;
     statusAt := statusAt silentWorld;
     swapAt := swapAt silentWorld;
     simulateAt := simulateAt silentWorld;
     quoteAt := quoteAt silentWorld;
     walletAt := walletAt silentWorld;
     nativeBalanceAt := nativeBalanceAt silentWorld;
     tokenAccountsAt := tokenAccountsAt silentWorld;
     tokenListAt := fun _ => Some twiceListed |}.

(** The example configuration on the development network. *)
Definition devnetConfig : Config :=
  {| network := "devnet";
     rpcUrl := rpcUrl exampleConfig;
     nativeTokenSymbol := nativeTokenSymbol exampleConfig;
     defaultComputeUnits := defaultComputeUnits exampleConfig;
     priorityFeePercentile := priorityFeePercentile exampleConfig;
     priorityFeeMultiplier := priorityFeeMultiplier exampleConfig;
     maxPriorityFee := maxPriorityFee exampleConfig;
     minPriorityFee := minPriorityFee exampleConfig;
     retryIntervalMs := retryIntervalMs exampleConfig;
     retryCount := retryCount exampleConfig |}.

(** The transaction carries an error in its meta data. *)
Definition failedOnChain (d : TransactionResponse) : bool :=
  match responseMeta d with
  | Some m => match metaErr m with Some _ => true | None => false end
  | None => false
  end.

(** Every text is taken for a public key; the token API knows nothing. *)
Definition anyKey : string -> bool := fun _ => true.
Definition noMint : string -> option TokenInfo := fun _ => None.

(* ================================================================== *)
(** ** Symbol resolution *)
(* ================================================================== *)

Local Open Scope list_scope.

(* ================================================================== *)
(** ** Running the effects *)
(* ================================================================== *)

Lemma bind_ret {A B} (a : A) (f : A -> M B) (st : St) :
  bind (ret a) f st = f a st.
Proof. reflexivity. Qed.

Lemma bind_throw {A B} (e : exn) (f : A -> M B) (st : St) :
  bind (throw e) f st = (Throw e, st).
Proof. reflexivity. Qed.

Lemma bind_stuck {A B} (f : A -> M B) (st : St) :
  bind stuck f st = (OutOfFuel, st).
Proof. reflexivity. Qed.

Lemma bind_next {B} (c : Call) (f : nat -> M B) (st : St) :
  bind (next c) f st = f (calls st c) (bump c st).
Proof. reflexivity. Qed.

Lemma bind_emit {B} (e : Event) (f : unit -> M B) (st : St) :
  bind (emit e) f st = f tt (record e st).
Proof. reflexivity. Qed.

Lemma bind_sleep {B} (ms : Num.number) (f : unit -> M B) (st : St) :
  bind (sleep ms) f st = f tt (record (EvSleep ms) st).
Proof. reflexivity. Qed.

Lemma bind_getState {B} (f : St -> M B) (st : St) :
  bind getState f st = f st st.
Proof. reflexivity. Qed.

Lemma bind_setCache {B} (c : FeeEstimate) (f : unit -> M B) (st : St) :
  bind (setCache c) f st = f tt (withCache c st).
Proof. reflexivity. Qed.

Lemma bind_getNextConnection {B} (conns : list Connection)
    (f : option Connection -> M B) (st : St) :
  bind (getNextConnection conns) f st = f (conns !! currentIndex st) (rotate conns st).
Proof. reflexivity. Qed.

Lemma bind_awaitOr_Some {A B} (a : A) (e : exn) (f : A -> M B) (st : St) :
  bind (awaitOr (Some a) e) f st = f a st.
Proof. reflexivity. Qed.

Lemma bind_awaitOr_None {A B} (e : exn) (f : A -> M B) (st : St) :
  bind (awaitOr None e) f st = (Throw e, st).
Proof. reflexivity. Qed.

Lemma bind_assoc {A B C} (m : M A) (f : A -> M B) (g : B -> M C) (st : St) :
  bind (bind m f) g st = bind m (fun a => bind (f a) g) st.
Proof. unfold bind. destruct (m st) as [[a|e|] st']; reflexivity. Qed.

Lemma bind_run {A B} (m : M A) (f : A -> M B) (st st' : St) (a : A) :
  m st = (Ret a, st') -> bind m f st = f a st'.
Proof. unfold bind. intros ->. reflexivity. Qed.

Lemma bind_run_throw {A B} (m : M A) (f : A -> M B) (st st' : St) (e : exn) :
  m st = (Throw e, st') -> bind m f st = (Throw e, st').
Proof. unfold bind. intros ->. reflexivity. Qed.

Lemma bind_run_stuck {A B} (m : M A) (f : A -> M B) (st st' : St) :
  m st = (OutOfFuel, st') -> bind m f st = (OutOfFuel, st').
Proof. unfold bind. intros ->. reflexivity. Qed.

Lemma tryCatch_run {A} (m : M A) (h : exn -> M A) (st st' : St) (a : A) :
  m st = (Ret a, st') -> tryCatch m h st = (Ret a, st').
Proof. unfold tryCatch. intros ->. reflexivity. Qed.

Lemma tryCatch_run_throw {A} (m : M A) (h : exn -> M A) (st st' : St) (e : exn) :
  m st = (Throw e, st') -> tryCatch m h st = h e st'.
Proof. unfold tryCatch. intros ->. reflexivity. Qed.

Lemma tryCatch_run_stuck {A} (m : M A) (h : exn -> M A) (st st' : St) :
  m st = (OutOfFuel, st') -> tryCatch m h st = (OutOfFuel, st').
Proof. unfold tryCatch. intros ->. reflexivity. Qed.

Lemma bind_inv_ret {A B} (m : M A) (f : A -> M B) (st st' : St) (b : B) :
  bind m f st = (Ret b, st') ->
  exists a st1, m st = (Ret a, st1) /\ f a st1 = (Ret b, st').
Proof.
  unfold bind. destruct (m st) as [[a|e|] st1]; try discriminate. eauto.
Qed.

Lemma tryCatch_inv_ret {A} (m : M A) (h : exn -> M A) (st st' : St) (a : A) :
  (forall e s, fst (h e s) <> Ret a) ->
  tryCatch m h st = (Ret a, st') -> m st = (Ret a, st').
Proof.
  intros Hh. unfold tryCatch. destruct (m st) as [[a'|e|] st1]; auto.
  intros H. exfalso. apply (Hh e st1). rewrite H. reflexivity.
Qed.

Create Rewrite HintDb run.
#[local] Hint Rewrite @bind_ret @bind_throw @bind_stuck @bind_next @bind_emit
  @bind_sleep @bind_getState @bind_setCache @bind_getNextConnection
  @bind_awaitOr_Some @bind_awaitOr_None @bind_assoc : run.

(** One step of a run: the head of the sequence is executed. *)
Ltac run := repeat (autorewrite with run; cbn beta iota).

Section LastMatch.

Variable P : TokenInfo -> Prop.

Lemma lastMatch_unique (l : list TokenInfo) (t t' : TokenInfo) :
  Resolver.lastMatch P l t -> Resolver.lastMatch P l t' -> t = t'.
Proof.
  intros (l1 & l2 & -> & Ht & Hl2) (l1' & l2' & Heq & Ht' & Hl2').
  revert l1' Heq. induction l1 as [|x l1 IH]; intros [|y l1'] Heq; simpl in Heq.
  - congruence.
  - injection Heq as -> ->. exfalso.
    rewrite Forall_app, Forall_cons in Hl2. tauto.
  - injection Heq as <- <-. exfalso.
    rewrite Forall_app, Forall_cons in Hl2'. tauto.
  - injection Heq as _ Heq. eauto.
Qed.

Lemma lastMatch_not_all (l : list TokenInfo) (t : TokenInfo) :
  Resolver.lastMatch P l t -> Forall (fun u => ~ P u) l -> False.
Proof.
  intros (l1 & l2 & -> & Ht & _) Hall.
  rewrite Forall_app, Forall_cons in Hall. tauto.
Qed.

(** A lookup that yields a last match or, failing that, finds no match,
    is characterised by these two facts. *)
Lemma lastMatch_iff (l : list TokenInfo) (r : option TokenInfo) :
  (forall t, r = Some t -> Resolver.lastMatch P l t) ->
  (r = None -> Forall (fun u => ~ P u) l) ->
  (forall t, r = Some t <-> Resolver.lastMatch P l t)
  /\ (r = None <-> Forall (fun u => ~ P u) l).
Proof.
  intros Hsome Hnone. split.
  - intros t. split; [auto|]. intros Hm. destruct r as [t'|].
    + f_equal. eapply lastMatch_unique; eauto.
    + exfalso. eapply lastMatch_not_all; eauto.
  - split; [auto|]. intros Hall. destruct r as [t'|]; [|reflexivity].
    exfalso. eapply lastMatch_not_all; eauto.
Qed.

Lemma lastMatch_snoc_hit (l : list TokenInfo) (t : TokenInfo) :
  P t -> Resolver.lastMatch P (l ++ [t]) t.
Proof. intros Ht. exists l, []. auto. Qed.

Lemma lastMatch_snoc_miss (l : list TokenInfo) (t u : TokenInfo) :
  ~ P u -> Resolver.lastMatch P l t -> Resolver.lastMatch P (l ++ [u]) t.
Proof.
  intros Hu (l1 & l2 & -> & Ht & Hl2). exists l1, (l2 ++ [u]).
  rewrite <- app_assoc. simpl. repeat split; auto.
  rewrite Forall_app. auto.
Qed.

End LastMatch.

Lemma loadTokens_snoc (l : list TokenInfo) (t : TokenInfo) (m : gmap string TokenInfo) :
  Resolver.loadTokens (l ++ [t]) m = <[symbol t := t]> (Resolver.loadTokens l m).
Proof. unfold Resolver.loadTokens. rewrite fold_left_app. reflexivity. Qed.

Lemma loadTokens_lookup (l : list TokenInfo) (s : string) :
  (forall t, Resolver.loadTokens l ∅ !! s = Some t ->
             Resolver.lastMatch (sameSymbol s) l t)
  /\ (Resolver.loadTokens l ∅ !! s = None -> Forall (fun u => ~ sameSymbol s u) l).
Proof.
  induction l as [|u l [IHs IHn]] using rev_ind.
  - split; [intros t H; simpl in H; rewrite lookup_empty in H; discriminate|auto].
  - rewrite loadTokens_snoc. destruct (decide (symbol u = s)) as [Heq|Hne].
    + rewrite Heq, lookup_insert_eq. split; [|discriminate].
      intros t [= <-]. apply lastMatch_snoc_hit. exact Heq.
    + rewrite lookup_insert_ne by exact Hne. split.
      * intros t Ht. apply lastMatch_snoc_miss; auto.
      * intros Hn. rewrite Forall_app. split; auto.
  Qed.

Lemma scanBack_first (r : list TokenInfo) (s : string) :
  (forall t, Resolver.scanBack r s = Some t ->
             exists r1 r2, r = r1 ++ t :: r2 /\ sameSymbolUpToCase s t
                           /\ Forall (fun u => ~ sameSymbolUpToCase s u) r1)
  /\ (Resolver.scanBack r s = None -> Forall (fun u => ~ sameSymbolUpToCase s u) r).
Proof.
  induction r as [|u r [IHs IHn]]; simpl.
  - split; [discriminate|auto].
  - destruct (String.eqb_spec (toUpperCase (symbol u)) (toUpperCase s)) as [Heq|Hne].
    + split; [|discriminate]. intros t [= <-]. exists [], r. auto.
    + split.
      * intros t Ht. destruct (IHs t Ht) as (r1 & r2 & -> & Hp & Hall).
        exists (u :: r1), r2. auto.
      * intros Hn. constructor; auto.
Qed.

Lemma getTokenBySymbol_lookup (l : list TokenInfo) (s : string) :
  (forall t, Resolver.getTokenBySymbol l s = Some t ->
             Resolver.lastMatch (sameSymbolUpToCase s) l t)
  /\ (Resolver.getTokenBySymbol l s = None ->
      Forall (fun u => ~ sameSymbolUpToCase s u) l).
Proof.
  unfold Resolver.getTokenBySymbol.
  destruct (scanBack_first (rev l) s) as [Hs Hn]. split.
  - intros t Ht. destruct (Hs t Ht) as (r1 & r2 & Hrev & Hp & Hall).
    exists (rev r2), (rev r1). repeat split; auto.
    + rewrite <- (rev_involutive l), Hrev, rev_app_distr. simpl.
      rewrite <- app_assoc. reflexivity.
    + apply Forall_rev. exact Hall.
  - intros Hnone. rewrite <- (rev_involutive l). apply Forall_rev. auto.
Qed.

(** The token list fills the table with what it has last under each
    symbol, and with nothing else. *)
Lemma loadTokens_entry (l : list TokenInfo) (s : string) :
  (forall t, Resolver.loadTokens l ∅ !! s = Some t <-> Resolver.lastMatch (sameSymbol s) l t)
  /\ (Resolver.loadTokens l ∅ !! s = None <-> Forall (fun u => ~ sameSymbol s u) l).
Proof.
  destruct (loadTokens_lookup l s) as [Hs Hn].
  exact (lastMatch_iff (sameSymbol s) l _ Hs Hn).
Qed.

(** Reading a key of the symbol table gives an entry exactly if the
    table has one under the key. *)
Lemma member_entry (m : gmap string TokenInfo) (key : string) (t : TokenInfo) :
  Resolver.member m key = Some (Resolver.Entry t) <-> m !! key = Some t.
Proof.
  unfold Resolver.member, Resolver.fieldOf, Resolver.inherited.
  destruct (m !! key) as [t'|].
  - split; intros [= ->]; reflexivity.
  - split; [|discriminate].
    destruct (m !! "__proto__") as [P|];
      repeat match goal with
             | |- context [if ?c then _ else _] => destruct c
             end; discriminate.
Qed.

Lemma member_entry_inv (m : gmap string TokenInfo) (key : string) (v : Resolver.Member) :
  Resolver.member m key = Some v ->
  match v with
  | Resolver.Entry t => m !! key = Some t
  | _ => True
  end.
Proof. destruct v; auto. apply member_entry. Qed.

(** A table without a prototype of its own answers with [undefined] for
    the keys it does not have, the inherited names apart; those give the
    inherited member. *)
Lemma member_absent (m : gmap string TokenInfo) (key : string) :
  m !! "__proto__" = None ->
  m !! key = None ->
  Resolver.member m key
  = if Resolver.inheritedName key then Some (Resolver.Builtin key) else None.
Proof.
  intros Hp Hk. unfold Resolver.member, Resolver.inherited. rewrite Hk, Hp. reflexivity.
Qed.

Lemma member_undefined (m : gmap string TokenInfo) (key : string) :
  m !! "__proto__" = None ->
  (Resolver.member m key = None <-> m !! key = None /\ Resolver.inheritedName key = false).
Proof.
  intros Hp. destruct (m !! key) as [t|] eqn:Hk.
  - unfold Resolver.member. rewrite Hk. split; [discriminate|intros [H _]; discriminate H].
  - rewrite (member_absent m key Hp Hk).
    destruct (Resolver.inheritedName key); split;
      try discriminate; try (intros [_ H]; discriminate H); auto.
Qed.

(* ================================================================== *)
(** ** Comparisons of numbers *)
(* ================================================================== *)

Lemma SFcompare_antisym (x y : Num.number) (c : comparison) :
  SFcompare x y = Some c -> SFcompare y x = Some (CompOpp c).
Proof.
  destruct x as [sx|sx| |sx mx ex], y as [sy|sy| |sy my ey]; simpl;
    try discriminate; intros [= <-];
    try (destruct sx; reflexivity); try (destruct sy; reflexivity);
    try (destruct sx, sy; reflexivity).
  destruct sx, sy; try reflexivity;
    rewrite (Z.compare_antisym ex ey);
    destruct (ex ?= ey)%Z; simpl; try reflexivity;
    change (Pos.compare_cont Eq my mx) with (Pos.compare_cont (CompOpp Eq) my mx);
    rewrite <- (Pos.compare_cont_antisym mx my Eq);
    destruct (Pos.compare_cont Eq mx my); reflexivity.
Qed.

Lemma SFcompare_refl (x : Num.number) :
  Num.isNaN x = false -> SFcompare x x = Some Eq.
Proof.
  destruct x as [s|s| |s m e]; simpl; try discriminate; intros _;
    try (destruct s; reflexivity).
  rewrite Z.compare_refl. fold (Pos.compare m m). rewrite Pos.compare_refl.
  destruct s; reflexivity.
Qed.

Lemma SFcompare_none (x y : Num.number) :
  SFcompare x y = None -> Num.isNaN x = true \/ Num.isNaN y = true.
Proof.
  destruct x as [sx|sx| |sx mx ex], y as [sy|sy| |sy my ey]; simpl;
    try discriminate; auto.
Qed.

Lemma gtb_not_NaN (x y : Num.number) : Num.gtb x y = true -> Num.isNaN x = false.
Proof. destruct x, y; simpl; try discriminate; reflexivity. Qed.

Lemma gtb_zero_not_zero (x : Num.number) :
  Num.gtb x Num.zero = true -> Num.eqb x Num.zero = false.
Proof.
  destruct x as [s|s| |s m e]; try discriminate; try reflexivity;
    destruct s; try discriminate; reflexivity.
Qed.

(** [Math.max] is at least its second argument, unless one is [NaN]. *)
Lemma max_geb_r (x y : Num.number) :
  Num.isNaN x = false -> Num.isNaN y = false -> Num.geb (Num.max x y) y = true.
Proof.
  intros Hx Hy. unfold Num.geb, Num.max, SFleb.
  destruct (SFcompare x y) as [c|] eqn:Hc.
  - pose proof (SFcompare_antisym _ _ _ Hc) as Hc'.
    pose proof (SFcompare_refl y Hy) as Hr.
    destruct c; simpl in Hc'.
    + destruct x as [[|]| | |]; try (rewrite Hc'; reflexivity);
        destruct y as [[|]| | |]; try (rewrite Hc'; reflexivity);
        try (rewrite Hr; reflexivity).
    + rewrite Hr. reflexivity.
    + rewrite Hc'. reflexivity.
  - destruct (SFcompare_none _ _ Hc); congruence.
Qed.

(* ================================================================== *)
(** ** The fee estimator *)
(* ================================================================== *)

Lemma insertFee_In (x y : Num.number) (l : list Num.number) :
  In x (insertFee y l) -> x = y \/ In x l.
Proof.
  induction l as [|z l IH]; simpl.
  - intros [<-|[]]. auto.
  - destruct (Num.leb (Num.sub y z) Num.zero); simpl; intuition.
Qed.

Lemma sortFees_In (x : Num.number) (l : list Num.number) :
  In x (sortFees l) -> In x l.
Proof.
  induction l as [|y l IH]; simpl; [auto|].
  intros H. apply insertFee_In in H. intuition.
Qed.

Lemma insertFee_length (y : Num.number) (l : list Num.number) :
  length (insertFee y l) = S (length l).
Proof.
  induction l as [|z l IH]; simpl; [reflexivity|].
  destruct (Num.leb (Num.sub y z) Num.zero); simpl; congruence.
Qed.

Lemma sortFees_length (l : list Num.number) : length (sortFees l) = length l.
Proof.
  induction l as [|y l IH]; simpl; [reflexivity|].
  rewrite insertFee_length. congruence.
Qed.

Lemma index_In {A} (a : list A) (i : Num.number) (x : A) :
  index a i = Some x -> In x a.
Proof.
  unfold index. destruct (Num.toZ i) as [z|]; [|discriminate].
  destruct (Z.leb 0 z); [|discriminate]. apply nth_error_In.
Qed.

Lemma index_in_range (cfg : Config) (fees : list Num.number) :
  percentileInRange cfg (length fees) = true ->
  exists f, index (sortFees fees)
                  (Num.sub (percentileIndex cfg (length fees)) (Num.ofZ 1)) = Some f.
Proof.
  unfold percentileInRange, index.
  destruct (Num.toZ _) as [z|]; [|discriminate].
  intros H. apply andb_true_iff in H as [H0 H1]. rewrite H0.
  apply Z.ltb_lt in H1. apply Z.leb_le in H0.
  destruct (nth_error (sortFees fees) (Z.to_nat z)) as [f|] eqn:Hn; [eauto|].
  apply nth_error_None in Hn. rewrite sortFees_length in Hn. lia.
Qed.

Lemma filter_positive_In (x : Num.number) (samples : list Num.number) :
  In x (List.filter positiveFee samples) -> Num.gtb x Num.zero = true.
Proof. intros H. apply filter_In in H as [_ H]. exact H. Qed.

(** What [estimatePriorityFees] does when the cache does not answer. *)
Lemma estimatePriorityFees_miss (w : World) (cfg : Config) (url : string) (st : St) :
  cacheFresh w st = false ->
  exists st1,
    calls st1 CFees = calls st CFees
    /\ estimatePriorityFees w cfg url st
       = tryCatch
           (let! k := next CFees in estimateFromReply w cfg (feesAt w k))
           (fun e => throw (JsError ("Failed to fetch priority fees: " +:+ messageOf e)))
           st1.
Proof.
  unfold cacheFresh, estimatePriorityFees. rewrite bind_getState.
  destruct (lastPriorityFeeEstimate st) as [c|] eqn:Hc.
  - intros Hf. unfold now. run. rewrite Hf.
    eexists. split; [|reflexivity]. reflexivity.
  - intros _. rewrite bind_ret. exists st. split; reflexivity.
Qed.

(** C4: with no fresh cached estimate, [estimatePriorityFees] works on the
    samples that are greater than zero, so no zero-valued sample is among
    them.  If none remains (the list is empty or all zeros) the result is
    exactly the configured minimum fee
    [minPriorityFee / defaultComputeUnits * 1_000_000].  Otherwise the
    result is at least that minimum, for a minimum that is a number and a
    percentile setting whose index lies within the samples. *)
Theorem estimatePriorityFees_floor (w : World) (cfg : Config) (url : string)
    (st : St) (samples : list Num.number) :
  cacheFresh w st = false ->
  feesAt w (calls st CFees) = FeeResult samples ->
  let fees := List.filter positiveFee samples in
  let r := fst (estimatePriorityFees w cfg url st) in
  Forall (fun f => Num.eqb f Num.zero = false) fees
  /\ (fees = [] -> r = Ret (minimumFee cfg))
  /\ (fees <> [] ->
      Num.isNaN (minimumFee cfg) = false ->
      percentileInRange cfg (length fees) = true ->
      exists v, r = Ret v /\ Num.geb v (minimumFee cfg) = true).
Proof.
  intros Hfresh Hreply. cbv zeta.
  destruct (estimatePriorityFees_miss w cfg url st Hfresh) as (st1 & Hk & Hrun).
  rewrite Hrun. clear Hrun.
  unfold tryCatch. rewrite bind_next, Hk, Hreply.
  unfold estimateFromReply.
  change (fun fee => Num.gtb fee Num.zero) with positiveFee.
  assert (Hpos : forall f, In f (List.filter positiveFee samples) ->
                           Num.gtb f Num.zero = true)
    by (intros f; apply filter_positive_In).
  remember (List.filter positiveFee samples) as fees eqn:Hfees. clear Hfees.
  split; [|split].
  - apply Forall_forall. intros f Hf. apply gtb_zero_not_zero.
    apply Hpos. apply list_elem_of_In. exact Hf.
  - intros ->. reflexivity.
  - intros Hne Hmin Hrange.
    replace (Nat.eqb (length fees) 0) with false
      by (destruct fees; [congruence|reflexivity]).
    destruct (index_in_range cfg fees Hrange) as (f & Hidx). rewrite Hidx.
    unfold now. run.
    eexists. split; [reflexivity|].
    apply max_geb_r; [|exact Hmin].
    apply gtb_not_NaN with Num.zero. apply Hpos.
    apply sortFees_In. apply index_In in Hidx. exact Hidx.
Qed.

(** C4 (witness): from the samples 0, 5, 3, 7 the estimate is at least the
    minimum fee of 0.5; from the samples 0, 0 it is that minimum. *)
Lemma estimatePriorityFees_floor_witness :
  (cacheFresh (feeWorld mixedSamples) (initialState []) = false
   /\ exists v,
       fst (estimatePriorityFees (feeWorld mixedSamples) exampleConfig
              "https://rpc.example" (initialState [])) = Ret v
       /\ Num.geb v (minimumFee exampleConfig) = true)
  /\ fst (estimatePriorityFees (feeWorld zeroSamples) exampleConfig
            "https://rpc.example" (initialState []))
     = Ret (minimumFee exampleConfig).
Proof.
  split; [split; [reflexivity|]|].
  - destruct (estimatePriorityFees_floor (feeWorld mixedSamples) exampleConfig
                "https://rpc.example" (initialState []) mixedSamples
                eq_refl eq_refl) as (_ & _ & H).
    apply H; [discriminate|vm_compute; reflexivity|vm_compute; reflexivity].
  - destruct (estimatePriorityFees_floor (feeWorld zeroSamples) exampleConfig
                "https://rpc.example" (initialState []) zeroSamples
                eq_refl eq_refl) as (_ & H & _).
    apply H. reflexivity.
Defined.

(* ================================================================== *)
(** ** Broadcast *)
(* ================================================================== *)

(** The submissions of one fan-out, as they are recorded. *)
Lemma emits_run (rawTx : RawTx) (conns : list Connection) (st : St) :
  fold_right (fun conn m => bind (emit (EvSubmit rawTx conn)) (fun _ => m)) (ret tt)
    conns st
  = (Ret tt, fold_left (fun s conn => record (EvSubmit rawTx conn) s) conns st).
Proof.
  revert st. induction conns as [|c conns IH]; intros st; simpl; [reflexivity|].
  rewrite bind_emit. apply IH.
Qed.

Lemma fanOut_run (w : World) (conns : list Connection) (rawTx : RawTx) (st : St) :
  fanOut w conns rawTx st
  = (Ret (map (sendAt w (calls st CSend)) conns),
     fold_left (fun s conn => record (EvSubmit rawTx conn) s) conns (bump CSend st)).
Proof.
  unfold fanOut. rewrite bind_next.
  rewrite (bind_run _ _ _ _ _ (emits_run rawTx conns (bump CSend st))).
  reflexivity.
Qed.

Lemma no_success (w : World) (conns : list Connection) (k : nat) :
  (forall c, sendAt w k c = None) ->
  filter is_Some (map (sendAt w k) conns) = [].
Proof.
  intros H. induction conns as [|c conns IH]; [reflexivity|].
  simpl. rewrite H. rewrite filter_cons_False; [exact IH|].
  intros [x Hx]. discriminate.
Qed.

(** The loop of [sendRawTransaction] never ends when the height read
    before the loop is within the bound and no endpoint ever accepts. *)
Lemma sendLoop_stalls (w : World) (cfg : Config) (conns : list Connection)
    (rawTx : RawTx) (blockheight lastValid : Z) :
  (forall k c, sendAt w k c = None) ->
  blockheight <= lastValid + 50 ->
  forall fuel st, fst (sendLoop w cfg conns fuel rawTx blockheight lastValid st) = OutOfFuel.
Proof.
  intros Hsend Hle. apply Z.leb_le in Hle.
  induction fuel as [|fuel IH]; intros st; [reflexivity|].
  cbn [sendLoop]. rewrite Hle.
  rewrite (bind_run _ _ _ _ _ (fanOut_run w conns rawTx st)).
  rewrite no_success by apply Hsend. cbn [length Nat.ltb Nat.leb].
  rewrite bind_sleep. apply IH.
Qed.

(** C3 (the code at the failing input): the network height is 100 at the
    first reading and 1000, beyond [lastValidBlockHeight + 50 = 150], at
    every later one, and no endpoint accepts the transaction; whatever the
    number of steps granted, [sendRawTransaction] has not ended: the loop
    compares the height it read before the loop. *)
Theorem sendRawTransaction_reads_height_once :
  heightAt stallingWorld 0 = Some 100
  /\ (forall k, (0 < k)%nat -> heightAt stallingWorld k = Some 1000)
  /\ forall fuel,
      fst (sendRawTransaction stallingWorld exampleConfig exampleConnections fuel
             (RawLegacy exampleTx) 100 (initialState []))
      = OutOfFuel.
Proof.
  split; [reflexivity|split].
  - intros [|k] Hk; [lia|reflexivity].
  - intros fuel. unfold sendRawTransaction.
    rewrite bind_getNextConnection, bind_next.
    change (heightAt stallingWorld
              (calls (rotate exampleConnections (initialState [])) CHeight))
      with (Some 100).
    rewrite bind_awaitOr_Some.
    apply sendLoop_stalls; [reflexivity|lia].
Qed.

(* ================================================================== *)
(** ** Confirmation in [sendAndConfirmTransaction] *)
(* ================================================================== *)

(** C1 (the code at the failing input): every confirmation request is
    answered with no status for the signature, so every
    [confirmTransaction] call resolves with [confirmed = false]; yet
    [sendAndConfirmTransaction] returns the signature, because it tests
    the result object and not its [confirmed] field. *)
Theorem sendAndConfirmTransaction_returns_unconfirmed :
  (forall sig c st,
      fst (confirmTransaction unconfirmedWorld sig c st)
      = Ret {| confirmed := false; txData := None |})
  /\ fst (sendAndConfirmTransaction unconfirmedWorld exampleConfig exampleConnections
            3 exampleTx exampleSigners (initialState []))
     = Ret (Some "SIG").
Proof. split; [intros sig c st|]; reflexivity. Qed.

(* ================================================================== *)
(** ** Calls that end and do not escalate *)
(* ================================================================== *)


Lemma calm_ret {A} (a : A) : calm (ret a).
Proof. intros st. split; [discriminate|reflexivity]. Qed.

Lemma calm_throw {A} (e : exn) : calm (@throw A e).
Proof. intros st. split; [discriminate|reflexivity]. Qed.

Lemma calm_bind {A B} (m : M A) (f : A -> M B) :
  calm m -> (forall a, calm (f a)) -> calm (bind m f).
Proof.
  intros Hm Hf st. specialize (Hm st). unfold bind.
  destruct (m st) as [[a|e|] st1]; simpl in Hm; destruct Hm as [Hne Hesc].
  - destruct (Hf a st1) as [H1 H2]. split; [exact H1|congruence].
  - split; [discriminate|exact Hesc].
  - congruence.
Qed.

Lemma calm_tryCatch {A} (m : M A) (h : exn -> M A) :
  calm m -> (forall e, calm (h e)) -> calm (tryCatch m h).
Proof.
  intros Hm Hh st. specialize (Hm st). unfold tryCatch.
  destruct (m st) as [[a|e|] st1]; simpl in Hm; destruct Hm as [Hne Hesc].
  - split; [discriminate|exact Hesc].
  - destruct (Hh e st1) as [H1 H2]. split; [exact H1|congruence].
  - congruence.
Qed.

Lemma calm_next (c : Call) : calm (next c).
Proof. intros st. split; [discriminate|reflexivity]. Qed.

Lemma calm_emit (e : Event) : isEscalation e = false -> calm (emit e).
Proof.
  intros He st. split; [discriminate|]. unfold escalations. simpl.
  rewrite He. reflexivity.
Qed.

Lemma calm_sleep (ms : Num.number) : calm (sleep ms).
Proof. apply calm_emit. reflexivity. Qed.

Lemma calm_getState : calm getState.
Proof. intros st. split; [discriminate|reflexivity]. Qed.

Lemma calm_setCache (c : FeeEstimate) : calm (setCache c).
Proof. intros st. split; [discriminate|reflexivity]. Qed.

Lemma calm_getNextConnection (conns : list Connection) : calm (getNextConnection conns).
Proof. intros st. split; [discriminate|reflexivity]. Qed.

Lemma calm_awaitOr {A} (o : option A) (e : exn) : calm (awaitOr o e).
Proof. destruct o; [apply calm_ret|apply calm_throw]. Qed.

Create HintDb calm.
#[local] Hint Resolve @calm_ret @calm_throw @calm_next @calm_sleep @calm_getState
  @calm_setCache @calm_getNextConnection @calm_awaitOr : calm.

(** Decomposes a sequence into its calls. *)
Ltac calm :=
  repeat first
    [ solve [auto with calm]
    | apply calm_emit; reflexivity
    | apply calm_bind; [|intros ?]
    | apply calm_tryCatch; [|intros ?]
    | progress cbv zeta
    | match goal with
      | |- calm (match ?x with _ => _ end) => destruct x
      | |- calm (if ?x then _ else _) => destruct x
      | |- calm (let '(_, _) := ?x in _) => destruct x
      end ].

Lemma calm_confirmTransaction (w : World) (sig : option string) (c : Connection) :
  calm (confirmTransaction w sig c).
Proof. unfold confirmTransaction. calm. Qed.

Lemma calm_fanOut (w : World) (conns : list Connection) (rawTx : RawTx) :
  calm (fanOut w conns rawTx).
Proof.
  unfold fanOut. calm.
  induction conns as [|c conns IH]; simpl; calm.
Qed.

(* ================================================================== *)
(** ** A broadcast that every endpoint accepts *)
(* ================================================================== *)

Lemma accepted_successful (s : string) (conns : list Connection) :
  filter is_Some (map (fun _ : Connection => Some s) conns)
  = map (fun _ => Some s) conns.
Proof.
  induction conns as [|c conns IH]; [reflexivity|].
  cbn [map]. rewrite filter_cons_True by (exists s; reflexivity).
  rewrite IH. reflexivity.
Qed.

Lemma accepted_values (s : string) (conns : list Connection) :
  omap id (map (fun _ : Connection => Some s) conns) = map (fun _ => s) conns.
Proof.
  induction conns as [|c conns IH]; [reflexivity|].
  cbn [map]. change (omap id (Some s :: map (fun _ : Connection => Some s) conns))
    with (s :: omap id (map (fun _ : Connection => Some s) conns)).
  rewrite IH. reflexivity.
Qed.

Lemma accepted_nonempty (s : string) (conns : list Connection) :
  s <> "" ->
  filter (fun sig => negb (String.eqb sig "")) (map (fun _ : Connection => s) conns)
  = map (fun _ => s) conns.
Proof.
  intros Hs. induction conns as [|c conns IH]; [reflexivity|].
  cbn [map]. rewrite filter_cons_True; [rewrite IH; reflexivity|].
  destruct (String.eqb_spec s ""); [contradiction|exact I].
Qed.

Lemma accepted_agree (s : string) (o : option string) (conns : list Connection) :
  o = Some s ->
  forallb (fun sig => bool_decide (Some sig = o)) (map (fun _ : Connection => s) conns)
  = true.
Proof.
  intros ->. induction conns as [|c conns IH]; [reflexivity|].
  simpl. rewrite IH, bool_decide_eq_true_2; reflexivity.
Qed.

Lemma calm_sendLoop (w : World) (cfg : Config) (conns : list Connection) :
  alwaysAccepted w -> conns <> [] ->
  forall fuel rawTx blockheight lastValid,
    calm (sendLoop w cfg conns (S fuel) rawTx blockheight lastValid).
Proof.
  intros Hacc Hne fuel rawTx h lv. cbn [sendLoop].
  destruct (Z.leb h (lv + 50)); [|calm].
  intros st. destruct (calm_fanOut w conns rawTx st) as [_ Hesc].
  rewrite fanOut_run in Hesc. cbn [snd] in Hesc.
  rewrite (bind_run _ _ _ _ _ (fanOut_run w conns rawTx st)).
  destruct (Hacc (calls st CSend)) as (s & Hs & Hall).
  rewrite (map_ext _ (fun _ => Some s) Hall).
  rewrite accepted_successful, accepted_values, accepted_nonempty by exact Hs.
  replace (Nat.ltb 0 (length (map (fun _ : Connection => Some s) conns))) with true
    by (destruct conns; [congruence|reflexivity]).
  rewrite accepted_agree by (destruct conns; [congruence|reflexivity]).
  cbn [negb]. split; [discriminate|exact Hesc].
Qed.

Lemma calm_sendRawTransaction (w : World) (cfg : Config) (conns : list Connection) :
  alwaysAccepted w -> conns <> [] ->
  forall fuel rawTx lastValid,
    calm (sendRawTransaction w cfg conns (S fuel) rawTx lastValid).
Proof.
  intros Hacc Hne fuel rawTx lv. unfold sendRawTransaction. calm.
  apply calm_sendLoop; assumption.
Qed.

(* ================================================================== *)
(** ** Rounds of retries that bring no confirmation *)
(* ================================================================== *)

Lemma confirmTransaction_throws (w : World) (sig : option string) (c : Connection)
    (st : St) :
  confirmationThrows (statusAt w (calls st CStatus)) = true ->
  exists e, confirmTransaction w sig c st
            = (Throw e, bump CStatus (record (EvConfirm sig c) st)).
Proof.
  unfold confirmTransaction, confirmationThrows. rewrite bind_emit, bind_next.
  change (calls (record (EvConfirm sig c) st) CStatus) with (calls st CStatus).
  destruct (statusAt w (calls st CStatus)) as [|s|[status|] tx]; try discriminate;
    eauto.
  destruct (err status); eauto.
  destruct (isConfirmed status); [|discriminate].
  destruct tx; [discriminate|eauto].
Qed.

Section Exhausted.

Variable w : World.
Variable cfg : Config.
Variable connections : list Connection.

Hypothesis accepted : alwaysAccepted w.
Hypothesis nonempty : connections <> [].
Hypothesis unconfirmed : forall k, confirmationThrows (statusAt w k) = true.

Lemma confirmEach_none (conns : list Connection) (sig : option string) (st : St) :
  exists st', confirmEach w conns sig st = (Ret None, st')
              /\ escalations (trace st') = escalations (trace st).
Proof.
  revert st. induction conns as [|c conns IH]; intros st; simpl.
  - eauto.
  - destruct (confirmTransaction_throws w sig c st (unconfirmed _)) as (e & He).
    rewrite (bind_run _ _ _ _ None
               (tryCatch_run_throw _ _ _ _ _ (bind_run_throw _ _ _ _ _ He))).
    destruct (IH (bump CStatus (record (EvConfirm sig c) st))) as (st' & Hrun & Hesc).
    exists st'. split; [exact Hrun|]. rewrite Hesc. reflexivity.
Qed.

Lemma retryRound_none (fuel n : nat) (rawTx : RawTx) (lastValid : Z) (st : St) :
  exists st', retryRound w cfg connections (S fuel) n rawTx lastValid st = (Ret None, st')
              /\ escalations (trace st') = escalations (trace st).
Proof.
  revert st. induction n as [|n IH]; intros st; cbn [retryRound].
  - eauto.
  - destruct (calm_sendRawTransaction w cfg connections accepted nonempty
                fuel rawTx lastValid st) as [Hend Hesc].
    destruct (sendRawTransaction w cfg connections (S fuel) rawTx lastValid st)
      as [[sig|e|] st1] eqn:Hsend; cbn [fst snd] in *; [| |congruence].
    + destruct (confirmEach_none connections sig st1) as (st2 & Hc & Hesc2).
      assert (Htry :
        tryCatch
          (bind (sendRawTransaction w cfg connections (S fuel) rawTx lastValid)
             (fun sig0 =>
                bind (confirmEach w connections sig0)
                  (fun c =>
                     match c with
                     | Some s => ret (Some s)
                     | None => bind (sleep (retryIntervalMs cfg)) (fun _ => ret None)
                     end)))
          (fun _ => bind (sleep (retryIntervalMs cfg)) (fun _ => ret None)) st
        = (Ret None, record (EvSleep (retryIntervalMs cfg)) st2)).
      { apply tryCatch_run. rewrite (bind_run _ _ _ _ _ Hsend).
        rewrite (bind_run _ _ _ _ _ Hc). reflexivity. }
      rewrite (bind_run _ _ _ _ _ Htry).
      destruct (IH (record (EvSleep (retryIntervalMs cfg)) st2)) as (st' & Hr & He).
      exists st'. split; [exact Hr|]. rewrite He. unfold escalations in *. simpl.
      congruence.
    + assert (Htry :
        tryCatch
          (bind (sendRawTransaction w cfg connections (S fuel) rawTx lastValid)
             (fun sig0 =>
                bind (confirmEach w connections sig0)
                  (fun c =>
                     match c with
                     | Some s => ret (Some s)
                     | None => bind (sleep (retryIntervalMs cfg)) (fun _ => ret None)
                     end)))
          (fun _ => bind (sleep (retryIntervalMs cfg)) (fun _ => ret None)) st
        = (Ret None, record (EvSleep (retryIntervalMs cfg)) st1)).
      { rewrite (tryCatch_run_throw _ _ _ _ _ (bind_run_throw _ _ _ _ _ Hsend)).
        reflexivity. }
      rewrite (bind_run _ _ _ _ _ Htry).
      destruct (IH (record (EvSleep (retryIntervalMs cfg)) st1)) as (st' & Hr & He).
      exists st'. split; [exact Hr|]. rewrite He. unfold escalations in *. simpl.
      congruence.
Qed.

End Exhausted.

(* ================================================================== *)
(** ** The number of escalations of [sendAndConfirmTransaction] *)
(* ================================================================== *)

Lemma feeAfter_shift (cfg : Config) (i : nat) (f : Num.number) :
  feeAfter cfg i (escalate cfg f) = feeAfter cfg (S i) f.
Proof. unfold feeAfter. rewrite Nat.iter_succ_r. reflexivity. Qed.

Lemma escalations_escalate (f : Num.number) (st : St) :
  escalations (trace (record (EvEscalate f) st)) = S (escalations (trace st)).
Proof. reflexivity. Qed.

Section Escalation.

Variable w : World.
Variable cfg : Config.
Variable connections : list Connection.

Hypothesis accepted : alwaysAccepted w.
Hypothesis nonempty : connections <> [].
Hypothesis unconfirmed : forall k, confirmationThrows (statusAt w k) = true.
Hypothesis blockhashes : forall k, is_Some (blockhashAt w k).

(** One pass of the outer loop whose round of retries is exhausted. *)
Lemma feeLoop_step (fuel steps : nat) (f : Num.number) (tx : Transaction)
    (signers : list string) (st : St) :
  signers <> [] ->
  Num.leb f (maxPriorityFee cfg) = true ->
  exists tx' st',
    feeLoop w cfg connections (S fuel) (S steps) f tx signers st
    = feeLoop w cfg connections (S fuel) steps (escalate cfg f) tx' signers st'
    /\ escalations (trace st') = S (escalations (trace st)).
Proof.
  intros Hsigners Hle. cbn [feeLoop]. rewrite Hle.
  rewrite bind_getNextConnection, bind_next.
  destruct (blockhashes (calls (rotate connections st) CBlockhash)) as (bh & Hbh).
  rewrite Hbh, bind_awaitOr_Some.
  destruct signers as [|signer signers]; [congruence|]. rewrite bind_ret.
  match goal with
  | |- context [retryRound w cfg connections (S fuel) ?n ?raw ?lv] =>
      destruct (retryRound_none w cfg connections accepted nonempty unconfirmed
                  fuel n raw lv (bump CBlockhash (rotate connections st)))
        as (st1 & Hround & Hesc)
  end.
  rewrite (bind_run _ _ _ _ _ Hround). rewrite bind_emit.
  eexists _, _. split; [reflexivity|].
  rewrite escalations_escalate, Hesc. reflexivity.
Qed.


Lemma feeLoop_forever (steps : nat) :
  forall (f0 : Num.number) (fuel : nat) (tx : Transaction) (signers : list string)
         (st : St),
    signers <> [] ->
    (forall i, Num.leb (feeAfter cfg i f0) (maxPriorityFee cfg) = true) ->
    fst (feeLoop w cfg connections (S fuel) steps f0 tx signers st) = OutOfFuel.
Proof.
  induction steps as [|steps IH]; intros f0 fuel tx signers st Hsigners Hbelow;
    [reflexivity|].
  destruct (feeLoop_step fuel steps f0 tx signers st Hsigners (Hbelow O))
    as (tx' & st1 & Hstep & _).
  rewrite Hstep. apply IH; [exact Hsigners|]. intros i. rewrite feeAfter_shift. apply Hbelow.
Qed.


End Escalation.

(* ================================================================== *)
(** ** The number of escalations of [executeSwap] *)
(* ================================================================== *)


Section SwapEscalation.

Variable w : World.
Variable cfg : Config.
Variable msgs : ErrorMessages.
Variable connections : list Connection.

Hypothesis accepted : alwaysAccepted w.
Hypothesis nonempty : connections <> [].
Hypothesis noReceipt : forall k, givesNoReceipt (statusAt w k) = true.
Hypothesis swaps : forall k, is_Some (swapAt w k).
Hypothesis simulations : forall k, simulateAt w k = SimulateOk.

Lemma swapConfirmEach_none (conns : list Connection) (sig : option string) (st : St) :
  exists st', swapConfirmEach w conns sig st = (Ret None, st')
              /\ escalations (trace st') = escalations (trace st).
Proof.
  revert st. induction conns as [|c conns IH]; intros st; cbn [swapConfirmEach].
  - eauto.
  - match goal with
    | |- context [bind (tryCatch ?m ?h) ?k] =>
        assert (Htry : tryCatch m h st
                       = (Ret None, bump CStatus (record (EvConfirm sig c) st)))
    end.
    { unfold tryCatch, confirmTransaction. run.
      change (calls (record (EvConfirm sig c) st) CStatus) with (calls st CStatus).
      pose proof (noReceipt (calls st CStatus)) as Hno.
      destruct (statusAt w (calls st CStatus)) as [|s|[status|] tx];
        try reflexivity.
      cbn [givesNoReceipt] in Hno.
      destruct (err status); [reflexivity|].
      destruct (isConfirmed status); [|reflexivity].
      destruct tx as [[d|]|]; try reflexivity.
      run. cbn [confirmed txData].
      destruct (meta d) as [m|]; [|reflexivity].
      exfalso. rewrite bool_decide_eq_true_2 in Hno by (exists m; reflexivity).
      discriminate. }
    rewrite (bind_run _ _ _ _ _ Htry).
    destruct (IH (bump CStatus (record (EvConfirm sig c) st))) as (st' & Hrun & Hesc).
    exists st'. split; [exact Hrun|]. rewrite Hesc. reflexivity.
Qed.

Lemma swapRetryRound_none (fuel n : nat) (rawTx : RawTx) (lastValid : Z) (st : St) :
  exists st',
    swapRetryRound w cfg connections (S fuel) n rawTx lastValid st = (Ret None, st')
    /\ escalations (trace st') = escalations (trace st).
Proof.
  revert st. induction n as [|n IH]; intros st; cbn [swapRetryRound].
  - eauto.
  - destruct (calm_sendRawTransaction w cfg connections accepted nonempty
                fuel rawTx lastValid st) as [Hend Hesc].
    match goal with
    | |- context [bind (tryCatch ?m ?h) ?k] =>
        assert (Htry : exists st1,
                   tryCatch m h st = (Ret None, st1)
                   /\ escalations (trace st1) = escalations (trace st))
    end.
    { destruct (sendRawTransaction w cfg connections (S fuel) rawTx lastValid st)
        as [[sig|e|] st1] eqn:Hsend; cbn [fst snd] in *; [| |congruence].
      - destruct (swapConfirmEach_none connections sig st1) as (st2 & Hc & Hesc2).
        exists (record (EvSleep (retryIntervalMs cfg)) st2). split.
        + apply tryCatch_run. rewrite (bind_run _ _ _ _ _ Hsend).
          rewrite (bind_run _ _ _ _ _ Hc). reflexivity.
        + unfold escalations in *. simpl. congruence.
      - exists (record (EvSleep (retryIntervalMs cfg)) st1). split.
        + rewrite (tryCatch_run_throw _ _ _ _ _ (bind_run_throw _ _ _ _ _ Hsend)).
          reflexivity.
        + unfold escalations in *. simpl. congruence. }
    destruct Htry as (st1 & Htry & Hesc1).
    rewrite (bind_run _ _ _ _ _ Htry).
    destruct (IH st1) as (st' & Hr & He).
    exists st'. split; [exact Hr|]. congruence.
Qed.

Lemma getSwapObj_run (wallet : Wallet) (quote : QuoteResponse) (f : Num.number)
    (st : St) :
  exists swapObj st',
    getSwapObj w cfg msgs wallet quote f st = (Ret swapObj, st')
    /\ escalations (trace st') = escalations (trace st).
Proof.
  unfold getSwapObj, JUPITER_API_RETRY_COUNT. cbn [swapAttempts]. run.
  match goal with
  | |- context [swapAt w ?k] => destruct (swaps k) as (obj & Hobj); rewrite Hobj
  end.
  run. eexists _, _. split; reflexivity.
Qed.

Lemma simulateTransaction_run (transaction : string) (st : St) :
  exists st',
    simulateTransaction w msgs connections transaction st = (Ret tt, st')
    /\ escalations (trace st') = escalations (trace st).
Proof.
  unfold simulateTransaction. run. rewrite simulations.
  eexists. split; reflexivity.
Qed.

Lemma swapFeeLoop_step (fuel steps : nat) (f : Num.number) (wallet : Wallet)
    (quote : QuoteResponse) (st : St) :
  Num.leb f (maxPriorityFee cfg) = true ->
  exists st',
    swapFeeLoop w cfg msgs connections (S fuel) (S steps) f wallet quote st
    = swapFeeLoop w cfg msgs connections (S fuel) steps (escalate cfg f) wallet quote st'
    /\ escalations (trace st') = S (escalations (trace st)).
Proof.
  intros Hle. cbn [swapFeeLoop]. rewrite Hle.
  destruct (getSwapObj_run wallet quote f st) as (obj & st1 & Hobj & He1).
  rewrite (bind_run _ _ _ _ _ Hobj).
  destruct (simulateTransaction_run (swapTransaction obj) st1) as (st2 & Hsim & He2).
  rewrite (bind_run _ _ _ _ _ Hsim).
  match goal with
  | |- context [swapRetryRound w cfg connections (S fuel) ?n ?raw ?lv] =>
      destruct (swapRetryRound_none fuel n raw lv st2) as (st3 & Hround & He3)
  end.
  rewrite (bind_run _ _ _ _ _ Hround). rewrite bind_emit.
  eexists. split; [reflexivity|].
  rewrite escalations_escalate. congruence.
Qed.


Lemma swapFeeLoop_forever (steps : nat) :
  forall (f0 : Num.number) (fuel : nat) (wallet : Wallet) (quote : QuoteResponse)
         (st : St),
    (forall i, Num.leb (feeAfter cfg i f0) (maxPriorityFee cfg) = true) ->
    fst (swapFeeLoop w cfg msgs connections (S fuel) steps f0 wallet quote st)
    = OutOfFuel.
Proof.
  induction steps as [|steps IH]; intros f0 fuel wallet quote st Hbelow; [reflexivity|].
  destruct (swapFeeLoop_step fuel steps f0 wallet quote st (Hbelow O))
    as (st1 & Hstep & _).
  rewrite Hstep. apply IH. intros i. rewrite feeAfter_shift. apply Hbelow.
Qed.

End SwapEscalation.

Lemma timeoutWorld_exhausting : exhaustingWorld timeoutWorld.
Proof.
  repeat split.
  - intros k. exists "SIG". split; [discriminate|reflexivity].
  - intros k. eexists. reflexivity.
  - intros k. eexists. reflexivity.
Qed.




(** With the multiplier 1.5 the fee 1 stays 1, since [Math.floor(1.5)] is
    1: the escalation loop never reaches the ceiling and never ends. *)
Lemma escalation_can_stall (fuel steps : nat) :
  fst (feeLoop timeoutWorld slowConfig exampleConnections (S fuel) steps (Num.ofZ 1)
         exampleTx exampleSigners (initialState []))
  = OutOfFuel.
Proof.
  destruct timeoutWorld_exhausting as (Hacc & Hthrows & Hbh & _).
  apply (feeLoop_forever timeoutWorld slowConfig exampleConnections Hacc
           ltac:(discriminate) Hthrows Hbh); [discriminate|].
  intros i. replace (feeAfter slowConfig i (Num.ofZ 1)) with (Num.ofZ 1).
  - vm_compute. reflexivity.
  - induction i as [|i IH]; [reflexivity|].
    rewrite <- feeAfter_shift.
    replace (escalate slowConfig (Num.ofZ 1)) with (Num.ofZ 1)
      by (vm_compute; reflexivity).
    exact IH.
Qed.

(* ================================================================== *)
(** ** Confirmation in [executeSwap] *)
(* ================================================================== *)

Lemma confirmTransaction_confirmed (w : World) (sig : option string) (c : Connection)
    (st st' : St) (res : ConfirmResult) :
  confirmTransaction w sig c st = (Ret res, st') ->
  confirmed res = true ->
  exists status,
    statusAt w (calls st CStatus) = StatusValue (Some status) (Some (txData res))
    /\ err status = None
    /\ isConfirmed status = true.
Proof.
  unfold confirmTransaction. run.
  change (calls (record (EvConfirm sig c) st) CStatus) with (calls st CStatus).
  unfold ret, throw.
  destruct (statusAt w (calls st CStatus)) as [|s|[status|] tx];
    try (intros H; discriminate H).
  - destruct (err status) eqn:He; [intros H; discriminate H|].
    destruct (isConfirmed status) eqn:Hc.
    + destruct tx as [d|]; [|intros H; discriminate H].
      intros [= <- _] _. exists status. auto.
    + intros [= <- _] [=].
  - intros [= <- _] [=].
Qed.

Section SwapConfirmed.

Variable w : World.
Variable cfg : Config.
Variable msgs : ErrorMessages.
Variable connections : list Connection.

Lemma swapConfirmEach_confirmed (conns : list Connection) (sig : option string) :
  forall (st st' : St) (receipt : SwapReceipt),
    swapConfirmEach w conns sig st = (Ret (Some receipt), st') ->
    signature receipt = sig /\ exists d, confirmedSomewhere w d.
Proof.
  induction conns as [|c conns IH]; intros st st' receipt; cbn [swapConfirmEach].
  - intros [=].
  - intros H. apply bind_inv_ret in H as (r & s1 & Htry & H).
    destruct r as [receipt'|]; [|eapply IH; exact H].
    injection H as -> ->.
    apply tryCatch_inv_ret in Htry; [|intros e s0; discriminate].
    apply bind_inv_ret in Htry as (res & s2 & Hconf & Hres).
    destruct (confirmed res) eqn:Hc; [|discriminate].
    destruct (txData res) as [d|] eqn:Hd; [|discriminate].
    apply bind_inv_ret in Hres as (m & s3 & _ & Hres). injection Hres as <- _.
    destruct (confirmTransaction_confirmed w sig c st s2 res Hconf Hc)
      as (status & Hs & He & Hi).
    rewrite Hd in Hs. split; [reflexivity|]. exists d, (calls st CStatus), status. auto.
Qed.

Lemma swapRetryRound_confirmed (fuel n : nat) (rawTx : RawTx) (lastValid : Z) :
  forall (st st' : St) (receipt : SwapReceipt),
    swapRetryRound w cfg connections fuel n rawTx lastValid st
    = (Ret (Some receipt), st') ->
    exists d, confirmedSomewhere w d.
Proof.
  induction n as [|n IH]; intros st st' receipt; cbn [swapRetryRound].
  - intros [=].
  - intros H. apply bind_inv_ret in H as (r & s1 & Htry & H).
    destruct r as [receipt'|]; [|eapply IH; exact H].
    apply tryCatch_inv_ret in Htry; [|intros e s0; discriminate].
    apply bind_inv_ret in Htry as (sig & s2 & _ & Hc).
    apply bind_inv_ret in Hc as (c & s3 & Hc & Hr).
    destruct c as [receipt''|]; [|discriminate].
    eapply swapConfirmEach_confirmed. exact Hc.
Qed.

Lemma swapFeeLoop_confirmed (fuel steps : nat) :
  forall (f : Num.number) (wallet : Wallet) (quote : QuoteResponse) (st st' : St)
         (receipt : SwapReceipt),
    swapFeeLoop w cfg msgs connections fuel steps f wallet quote st = (Ret receipt, st') ->
    exists d, confirmedSomewhere w d.
Proof.
  induction steps as [|steps IH]; intros f wallet quote st st' receipt;
    cbn [swapFeeLoop]; [intros [=]|].
  destruct (Num.leb f (maxPriorityFee cfg)); [|intros [=]].
  intros H. apply bind_inv_ret in H as (obj & s1 & _ & H).
  apply bind_inv_ret in H as (u & s2 & _ & H).
  apply bind_inv_ret in H as (r & s3 & Hround & H).
  destruct r as [receipt'|].
  - eapply swapRetryRound_confirmed. exact Hround.
  - apply bind_inv_ret in H as (u' & s4 & _ & H). eapply IH. exact H.
Qed.

(** [executeSwap] returns a receipt only if some confirmation request
    found the transaction confirmed, without error, and brought its
    data. *)
Lemma executeSwap_confirmed (fuel : nat) (wallet : Wallet) (quote : QuoteResponse)
    (st : St) (receipt : SwapReceipt) :
  fst (executeSwap w cfg msgs connections fuel wallet quote st) = Ret receipt ->
  exists d, confirmedSomewhere w d.
Proof.
  intros Hret.
  destruct (executeSwap w cfg msgs connections fuel wallet quote st) as [r st'] eqn:H.
  cbn [fst] in Hret. subst r. unfold executeSwap in H.
  apply bind_inv_ret in H as (g & s1 & _ & H).
  eapply swapFeeLoop_confirmed. exact H.
Qed.

End SwapConfirmed.

(* ================================================================== *)
(** ** A transaction rejected on chain *)
(* ================================================================== *)

Lemma bind_cong {A B} (m m' : M A) (f f' : A -> M B) (st : St) :
  m st = m' st -> (forall a s, f a s = f' a s) -> bind m f st = bind m' f' st.
Proof.
  intros Hm Hf. unfold bind. rewrite Hm.
  destruct (m' st) as [[a|e|] s]; [apply Hf|reflexivity|reflexivity].
Qed.





Section Forget.

Variable w : World.
Variable cfg : Config.
Variable msgs : ErrorMessages.
Variable connections : list Connection.







End Forget.



(* ================================================================== *)
(** ** Calls that record no event *)
(* ================================================================== *)

Lemma quiet_ret {A} (a : A) : quiet (ret a).
Proof. intros st. reflexivity. Qed.

Lemma quiet_throw {A} (e : exn) : quiet (@throw A e).
Proof. intros st. reflexivity. Qed.

Lemma quiet_bind {A B} (m : M A) (f : A -> M B) :
  quiet m -> (forall a, quiet (f a)) -> quiet (bind m f).
Proof.
  intros Hm Hf st. specialize (Hm st). unfold bind.
  destruct (m st) as [[a|e|] st1]; simpl in Hm; [|exact Hm|exact Hm].
  rewrite Hf. exact Hm.
Qed.

Lemma quiet_tryCatch {A} (m : M A) (h : exn -> M A) :
  quiet m -> (forall e, quiet (h e)) -> quiet (tryCatch m h).
Proof.
  intros Hm Hh st. specialize (Hm st). unfold tryCatch.
  destruct (m st) as [[a|e|] st1]; simpl in Hm; [exact Hm| |exact Hm].
  rewrite Hh. exact Hm.
Qed.

Lemma quiet_next (c : Call) : quiet (next c).
Proof. intros st. reflexivity. Qed.

Lemma quiet_getState : quiet getState.
Proof. intros st. reflexivity. Qed.

Lemma quiet_setCache (c : FeeEstimate) : quiet (setCache c).
Proof. intros st. reflexivity. Qed.

Lemma quiet_getNextConnection (conns : list Connection) : quiet (getNextConnection conns).
Proof. intros st. reflexivity. Qed.

Lemma quiet_awaitOr {A} (o : option A) (e : exn) : quiet (awaitOr o e).
Proof. destruct o; [apply quiet_ret|apply quiet_throw]. Qed.

Create HintDb quiet.
#[local] Hint Resolve @quiet_ret @quiet_throw @quiet_next @quiet_getState
  @quiet_setCache @quiet_getNextConnection @quiet_awaitOr : quiet.

Ltac quiet :=
  repeat first
    [ solve [auto with quiet]
    | apply quiet_bind; [|intros ?]
    | apply quiet_tryCatch; [|intros ?]
    | progress cbv zeta
    | match goal with
      | |- quiet (match ?x with _ => _ end) => destruct x
      | |- quiet (if ?x then _ else _) => destruct x
      | |- quiet (let '(_, _) := ?x in _) => destruct x
      end ].

Lemma quiet_now (w : World) : quiet (now w).
Proof. unfold now. quiet. Qed.

Lemma quiet_estimatePriorityFees (w : World) (cfg : Config) (url : string) :
  quiet (estimatePriorityFees w cfg url).
Proof.
  pose proof (quiet_now w).
  unfold estimatePriorityFees, estimateFromReply. quiet.
Qed.

Lemma quiet_getGasPrice (w : World) (cfg : Config) (conns : list Connection) :
  quiet (getGasPrice w cfg conns).
Proof.
  pose proof (quiet_estimatePriorityFees w cfg).
  unfold getGasPrice, rpcEndpoint. quiet.
Qed.

Lemma quiet_estimateGas (w : World) (cfg : Config) (conns : list Connection) :
  quiet (estimateGas w cfg conns).
Proof.
  pose proof (quiet_now w). pose proof (quiet_estimatePriorityFees w cfg).
  pose proof (quiet_getGasPrice w cfg conns).
  unfold estimateGas, rpcEndpoint. quiet.
Qed.

Lemma quiet_getTokenForSymbol (sym : string) : quiet (getTokenForSymbol sym).
Proof. unfold getTokenForSymbol. quiet. Qed.

Lemma quiet_getQuote (w : World) (i o : string) (a s : Num.number) (d l : bool)
    (mode : SwapMode) :
  quiet (getQuote w i o a s d l mode).
Proof.
  pose proof quiet_getTokenForSymbol. unfold getQuote. quiet.
Qed.

Lemma quiet_getTradeInfo (w : World) (cfg : Config) (jcfg : JupiterConfig)
    (msgs : ErrorMessages) (conns : list Connection) (b q : string) (a : Num.number)
    (s : Side) (sl : option string) :
  quiet (getTradeInfo w cfg jcfg msgs conns b q a s sl).
Proof.
  pose proof quiet_getTokenForSymbol. pose proof (quiet_getQuote w).
  pose proof (quiet_estimateGas w cfg conns).
  unfold getTradeInfo, priceFailed. quiet.
Qed.

Lemma quiet_tradePrelude (w : World) (cfg : Config) (jcfg : JupiterConfig)
    (msgs : ErrorMessages) (conns : list Connection) (req : TradeRequest) :
  quiet (tradePrelude w cfg jcfg msgs conns req).
Proof.
  pose proof (quiet_now w). pose proof (quiet_getTradeInfo w cfg jcfg msgs conns).
  unfold tradePrelude, getWallet, priceFailed. quiet.
Qed.

Lemma quiet_getBalance (w : World) (cfg : Config) (conns : list Connection)
    (kp : Keypair) (symbols : option (list string)) :
  quiet (getBalance w cfg conns kp symbols).
Proof. unfold getBalance, getTokenList. quiet. Qed.

Lemma quiet_newDecimal (v : Dec.value) : quiet (newDecimal v).
Proof. unfold newDecimal. quiet. Qed.

Lemma quiet_checkLimitPrice (msgs : ErrorMessages) (req : TradeRequest)
    (p : Num.number) :
  quiet (checkLimitPrice msgs req p).
Proof. pose proof quiet_newDecimal. unfold checkLimitPrice. quiet. Qed.

Lemma quiet_checkBalance (w : World) (cfg : Config) (msgs : ErrorMessages)
    (conns : list Connection)
    (req : TradeRequest) (kp : Keypair) (ti : TradeInfo) :
  quiet (checkBalance w cfg msgs conns req kp ti).
Proof.
  pose proof quiet_newDecimal. pose proof (quiet_getBalance w cfg conns).
  unfold checkBalance. quiet.
Qed.

(* ================================================================== *)
(** ** What a call can throw *)
(* ================================================================== *)

Section ThrowsOnly.

Variable P : exn -> Prop.

Lemma throwsOnly_ret {A} (a : A) : throwsOnly P (ret a).
Proof. intros st e H. discriminate. Qed.

Lemma throwsOnly_throw {A} (e : exn) : P e -> throwsOnly P (@throw A e).
Proof. intros He st e' [= <-]. exact He. Qed.

Lemma throwsOnly_stuck {A} : throwsOnly P (@stuck A).
Proof. intros st e H. discriminate. Qed.

Lemma throwsOnly_bind {A B} (m : M A) (f : A -> M B) :
  throwsOnly P m -> (forall a, throwsOnly P (f a)) -> throwsOnly P (bind m f).
Proof.
  intros Hm Hf st e. specialize (Hm st). unfold bind.
  destruct (m st) as [[a|e'|] st1]; simpl in *.
  - apply Hf.
  - intros [= <-]. apply Hm. reflexivity.
  - discriminate.
Qed.

(** Only the handler of a [try] lets an exception out. *)
Lemma throwsOnly_tryCatch {A} (m : M A) (h : exn -> M A) :
  (forall e, throwsOnly P (h e)) -> throwsOnly P (tryCatch m h).
Proof.
  intros Hh st e. unfold tryCatch.
  destruct (m st) as [[a|e'|] st1]; simpl; try discriminate. apply Hh.
Qed.

Lemma throwsOnly_next (c : Call) : throwsOnly P (next c).
Proof. intros st e H. discriminate. Qed.

Lemma throwsOnly_emit (ev : Event) : throwsOnly P (emit ev).
Proof. intros st e H. discriminate. Qed.

Lemma throwsOnly_sleep (ms : Num.number) : throwsOnly P (sleep ms).
Proof. intros st e H. discriminate. Qed.

Lemma throwsOnly_getState : throwsOnly P getState.
Proof. intros st e H. discriminate. Qed.

Lemma throwsOnly_setCache (c : FeeEstimate) : throwsOnly P (setCache c).
Proof. intros st e H. discriminate. Qed.

Lemma throwsOnly_getNextConnection (conns : list Connection) :
  throwsOnly P (getNextConnection conns).
Proof. intros st e H. discriminate. Qed.

Lemma throwsOnly_awaitOr {A} (o : option A) (e : exn) : P e -> throwsOnly P (awaitOr o e).
Proof. intros He. destruct o; [apply throwsOnly_ret|apply throwsOnly_throw, He]. Qed.

End ThrowsOnly.

Create HintDb throws.
#[local] Hint Resolve @throwsOnly_ret @throwsOnly_stuck @throwsOnly_next
  @throwsOnly_emit @throwsOnly_sleep @throwsOnly_getState @throwsOnly_setCache
  @throwsOnly_getNextConnection : throws.

Ltac throws :=
  repeat first
    [ solve [auto with throws]
    | apply throwsOnly_throw; exact I
    | apply throwsOnly_throw; reflexivity
    | apply throwsOnly_awaitOr; exact I
    | apply throwsOnly_tryCatch; intros ?
    | apply throwsOnly_bind; [|intros ?]
    | progress cbv zeta
    | match goal with
      | |- throwsOnly _ (match ?x with _ => _ end) => destruct x
      | |- throwsOnly _ (if ?x then _ else _) => destruct x
      end ].

Lemma throws_estimatePriorityFees (w : World) (cfg : Config) (url : string) :
  throwsOnly notGuardError (estimatePriorityFees w cfg url).
Proof. unfold estimatePriorityFees, now. throws. Qed.

Lemma throws_getGasPrice (w : World) (cfg : Config) (conns : list Connection) :
  throwsOnly notGuardError (getGasPrice w cfg conns).
Proof.
  pose proof (throws_estimatePriorityFees w cfg).
  unfold getGasPrice, rpcEndpoint. throws.
Qed.

Lemma throws_swapAttempts (w : World) (n : nat) (f : Num.number) :
  throwsOnly notGuardError (swapAttempts w n f).
Proof. induction n as [|n IH]; cbn [swapAttempts]; throws. Qed.

Lemma throws_getSwapObj (w : World) (cfg : Config) (msgs : ErrorMessages)
    (wallet : Wallet) (quote : QuoteResponse) (f : Num.number) :
  throwsOnly notGuardError (getSwapObj w cfg msgs wallet quote f).
Proof. pose proof (throws_swapAttempts w). unfold getSwapObj. throws. Qed.

Lemma throws_simulateTransaction (w : World) (msgs : ErrorMessages)
    (conns : list Connection) (t : string) :
  throwsOnly notGuardError (simulateTransaction w msgs conns t).
Proof. unfold simulateTransaction. throws. Qed.

Lemma throws_swapRetryRound (w : World) (cfg : Config) (conns : list Connection)
    (fuel n : nat) (rawTx : RawTx) (lastValid : Z) :
  throwsOnly notGuardError (swapRetryRound w cfg conns fuel n rawTx lastValid).
Proof. induction n as [|n IH]; cbn [swapRetryRound]; throws. Qed.

Lemma throws_swapFeeLoop (w : World) (cfg : Config) (msgs : ErrorMessages)
    (conns : list Connection) (fuel steps : nat) :
  forall (f : Num.number) (wallet : Wallet) (quote : QuoteResponse),
    throwsOnly notGuardError (swapFeeLoop w cfg msgs conns fuel steps f wallet quote).
Proof.
  pose proof (throws_getSwapObj w cfg msgs).
  pose proof (throws_simulateTransaction w msgs conns).
  pose proof (throws_swapRetryRound w cfg conns fuel).
  induction steps as [|steps IH]; intros f wallet quote; cbn [swapFeeLoop]; throws.
Qed.

Lemma throws_executeSwap (w : World) (cfg : Config) (msgs : ErrorMessages)
    (conns : list Connection) (fuel : nat) (wallet : Wallet) (quote : QuoteResponse) :
  throwsOnly notGuardError (executeSwap w cfg msgs conns fuel wallet quote).
Proof.
  pose proof (throws_getGasPrice w cfg conns).
  pose proof (throws_swapFeeLoop w cfg msgs conns fuel fuel).
  unfold executeSwap. throws.
Qed.

Lemma throws_tradeExecute (w : World) (cfg : Config) (msgs : ErrorMessages)
    (conns : list Connection) (fuel : nat) (req : TradeRequest) (kp : Keypair)
    (ti : TradeInfo) (q : QuoteResponse) :
  throwsOnly notGuardError (tradeExecute w cfg msgs conns fuel req kp ti q).
Proof.
  pose proof (throws_executeSwap w cfg msgs conns fuel).
  unfold tradeExecute, newDecimal. throws.
Qed.

Lemma notGuardError_code {A} (o : outcome A) (c : ErrorCode) :
  (forall e, o = Throw e -> notGuardError e) -> isGuardCode c = true ->
  thrownCode o <> Some c.
Proof.
  intros H Hc Ht. destruct o as [a|[m|s m c'| |]|]; try discriminate.
  injection Ht as ->. specialize (H _ eq_refl). simpl in H. congruence.
Qed.

(* ================================================================== *)
(** ** The guards of [trade] *)
(* ================================================================== *)

(** [trade] is its prelude, its two guards and the execution of the
    swap, in this order. *)
Lemma trade_sequence (w : World) (cfg : Config) (jcfg : JupiterConfig)
    (msgs : ErrorMessages) (conns : list Connection) (fuel : nat)
    (req : TradeRequest) (st : St) :
  trade w cfg jcfg msgs conns fuel req st
  = bind (tradePrelude w cfg jcfg msgs conns req)
      (fun x =>
         bind (checkLimitPrice msgs req (expectedPrice (snd (fst x))))
           (fun _ =>
              bind (checkBalance w cfg msgs conns req (fst (fst x)) (snd (fst x)))
                (fun _ =>
                   tradeExecute w cfg msgs conns fuel req (fst (fst x)) (snd (fst x))
                     (snd x))))
      st.
Proof.
  unfold trade, tradePrelude. rewrite !bind_assoc.
  apply bind_cong; [reflexivity|]. intros t s1. rewrite !bind_assoc.
  apply bind_cong; [reflexivity|]. intros kp s2. rewrite !bind_assoc.
  apply bind_cong; [reflexivity|]. intros [ti q] s3. rewrite bind_ret.
  reflexivity.
Qed.

Lemma ofString_nonempty (s : string) (d : Dec.Decimal) :
  Dec.ofString s = Some d -> truthyString (Some s) = true.
Proof. destruct s; [discriminate|reflexivity]. Qed.

(** Without a limit price the check does nothing. *)
Lemma checkLimitPrice_absent (msgs : ErrorMessages) (req : TradeRequest)
    (p : Num.number) (st : St) :
  limitPrice req = None -> checkLimitPrice msgs req p st = (Ret tt, st).
Proof. intros H. unfold checkLimitPrice. rewrite H. destruct (side req); reflexivity. Qed.

(** With a limit price the check compares the two decimals. *)
Lemma checkLimitPrice_present (msgs : ErrorMessages) (req : TradeRequest)
    (p : Num.number) (st : St) (lp : string) (l dp : Dec.Decimal) :
  limitPrice req = Some lp ->
  Dec.ofString lp = Some l ->
  Dec.ofNumber p = Some dp ->
  checkLimitPrice msgs req p st
  = if violatesLimit (side req) dp l
    then (Throw (HttpException 500 (limitMessage msgs (side req) p lp)
                   (limitCode (side req))), st)
    else (Ret tt, st).
Proof.
  intros Hlp Hl Hp. unfold checkLimitPrice, newDecimal. rewrite Hlp.
  rewrite (ofString_nonempty lp l Hl).
  change (default "" (Some lp)) with lp.
  change (Dec.make (Dec.VString lp)) with (Dec.ofString lp).
  change (Dec.make (Dec.VNumber p)) with (Dec.ofNumber p).
  rewrite Hl, Hp. destruct (side req); cbn [violatesLimit limitMessage limitCode];
    run.
  - destruct (Dec.gt dp l); reflexivity.
  - destruct (Dec.lt dp l); reflexivity.
Qed.

Lemma throws_checkBalance_limit (w : World) (cfg : Config) (msgs : ErrorMessages)
    (conns : list Connection) (req : TradeRequest) (kp : Keypair) (ti : TradeInfo)
    (st : St) (s : Side) :
  thrownCode (fst (checkBalance w cfg msgs conns req kp ti st)) <> Some (limitCode s).
Proof.
  assert (H : throwsOnly
                (fun e => match e with
                          | HttpException _ _ c => c = balanceCode (side req)
                          | _ => True
                          end)
                (checkBalance w cfg msgs conns req kp ti)).
  { unfold checkBalance, getBalance, getTokenList, newDecimal.
    destruct (side req); throws. }
  intros Hc. specialize (H st).
  destruct (fst (checkBalance w cfg msgs conns req kp ti st)) as [a|[m|x m c| |]|];
    try discriminate.
  injection Hc as ->. specialize (H _ eq_refl). simpl in H.
  destruct s, (side req); discriminate.
Qed.

(** Past a limit check that lets the request through, [trade] does not
    end with a limit-price violation. *)
Lemma trade_past_limit (w : World) (cfg : Config) (jcfg : JupiterConfig)
    (msgs : ErrorMessages) (conns : list Connection) (fuel : nat)
    (req : TradeRequest) (st : St) (kp : Keypair) (ti : TradeInfo)
    (q : QuoteResponse) (s : Side) :
  fst (tradePrelude w cfg jcfg msgs conns req st) = Ret (kp, ti, q) ->
  (forall st1, checkLimitPrice msgs req (expectedPrice ti) st1 = (Ret tt, st1)) ->
  thrownCode (fst (trade w cfg jcfg msgs conns fuel req st)) <> Some (limitCode s).
Proof.
  intros Hpre Hpass. rewrite trade_sequence.
  destruct (tradePrelude w cfg jcfg msgs conns req st) as [r st1] eqn:Hrun.
  cbn [fst] in Hpre. subst r. rewrite (bind_run _ _ _ _ _ Hrun). cbn [fst snd].
  rewrite (bind_run _ _ _ _ _ (Hpass st1)).
  pose proof (throws_checkBalance_limit w cfg msgs conns req kp ti st1 s) as Hbal.
  unfold bind at 1.
  destruct (checkBalance w cfg msgs conns req kp ti st1) as [[[]|e|] st2]; cbn [fst] in *.
  - apply notGuardError_code; [|destruct s; reflexivity].
    intros e He. eapply throws_tradeExecute. exact He.
  - exact Hbal.
  - discriminate.
Qed.

(** With a limit price that is a decimal literal, the limit check decides
    by the comparison of the two decimals. *)
Lemma trade_limit_decided (w : World) (cfg : Config) (jcfg : JupiterConfig)
    (msgs : ErrorMessages) (conns : list Connection) (fuel : nat)
    (req : TradeRequest) (st : St) (kp : Keypair) (ti : TradeInfo)
    (q : QuoteResponse) (lp : string) (l p : Dec.Decimal) :
  fst (tradePrelude w cfg jcfg msgs conns req st) = Ret (kp, ti, q) ->
  limitPrice req = Some lp ->
  Dec.ofString lp = Some l ->
  Dec.ofNumber (expectedPrice ti) = Some p ->
  (thrownCode (fst (trade w cfg jcfg msgs conns fuel req st))
   = Some (limitCode (side req))
   <-> violatesLimit (side req) p l = true)
  /\ (violatesLimit (side req) p l = true ->
      fst (trade w cfg jcfg msgs conns fuel req st)
      = Throw (HttpException 500 (limitMessage msgs (side req) (expectedPrice ti) lp)
                 (limitCode (side req)))
      /\ trace (snd (trade w cfg jcfg msgs conns fuel req st)) = trace st).
Proof.
  intros Hpre Hlp Hl Hp.
  pose proof (fun st1 => checkLimitPrice_present msgs req (expectedPrice ti) st1
                           lp l p Hlp Hl Hp) as Hcheck.
  destruct (violatesLimit (side req) p l) eqn:Hv.
  - assert (Hrun : trade w cfg jcfg msgs conns fuel req st
                   = (Throw (HttpException 500
                               (limitMessage msgs (side req) (expectedPrice ti) lp)
                               (limitCode (side req))),
                      snd (tradePrelude w cfg jcfg msgs conns req st))).
    { rewrite trade_sequence.
      destruct (tradePrelude w cfg jcfg msgs conns req st) as [r st1] eqn:Hrun.
      cbn [fst snd] in *. subst r. rewrite (bind_run _ _ _ _ _ Hrun). cbn [fst snd].
      rewrite (bind_run_throw _ _ _ _ _ (Hcheck st1)). reflexivity. }
    rewrite Hrun. cbn [fst snd thrownCode]. split; [tauto|].
    intros _. split; [reflexivity|apply quiet_tradePrelude].
  - split; [|discriminate]. split; [|discriminate].
    intros Hc. exfalso. revert Hc. eapply trade_past_limit; [exact Hpre|].
    exact Hcheck.
Qed.

(** C6: for a request whose wallet and trade information are obtained,
    [trade] fails with the limit-price violation of its side exactly when
    the expected price, as a decimal, is above the limit price for a BUY
    and below it for a SELL; in that case it throws from the state its
    prelude left, with no event recorded: no swap built, no submission.
    Without a limit price the check does nothing and no limit-price
    violation comes out of [trade]. *)
Theorem trade_limit_price (w : World) (cfg : Config) (jcfg : JupiterConfig)
    (msgs : ErrorMessages) (conns : list Connection) (fuel : nat)
    (req : TradeRequest) (st : St) (kp : Keypair) (ti : TradeInfo)
    (q : QuoteResponse) :
  fst (tradePrelude w cfg jcfg msgs conns req st) = Ret (kp, ti, q) ->
  (limitPrice req = None ->
   (forall p st1, checkLimitPrice msgs req p st1 = (Ret tt, st1))
   /\ forall s, thrownCode (fst (trade w cfg jcfg msgs conns fuel req st))
                <> Some (limitCode s))
  /\ (forall lp l p,
         limitPrice req = Some lp ->
         Dec.ofString lp = Some l ->
         Dec.ofNumber (expectedPrice ti) = Some p ->
         (thrownCode (fst (trade w cfg jcfg msgs conns fuel req st))
          = Some (limitCode (side req))
          <-> violatesLimit (side req) p l = true)
         /\ (violatesLimit (side req) p l = true ->
             fst (trade w cfg jcfg msgs conns fuel req st)
             = Throw (HttpException 500 (limitMessage msgs (side req) (expectedPrice ti) lp)
                        (limitCode (side req)))
             /\ trace (snd (trade w cfg jcfg msgs conns fuel req st)) = trace st)).
Proof.
  intros Hpre. split.
  - intros Hnone. split.
    + intros p st1. apply checkLimitPrice_absent. exact Hnone.
    + intros s. eapply trade_past_limit; [exact Hpre|].
      intros st1. apply checkLimitPrice_absent. exact Hnone.
  - intros lp l p Hlp Hl Hp.
    exact (trade_limit_decided w cfg jcfg msgs conns fuel req st kp ti q lp l p
             Hpre Hlp Hl Hp).
Qed.

(** C6 (witness): a BUY at the expected price 10 with the limit price 9
    fails with the BUY violation and records no event. *)
Lemma trade_limit_price_witness :
  (exists kp ti q,
      fst (tradePrelude tradeWorld exampleConfig exampleJupiter exampleMessages
             exampleConnections buyAboveLimit (initialState exampleTokens))
      = Ret (kp, ti, q)
      /\ Dec.ofNumber (expectedPrice ti) = Some (Dec.mk 10 0))
  /\ fst (trade tradeWorld exampleConfig exampleJupiter exampleMessages
            exampleConnections 5 buyAboveLimit (initialState exampleTokens))
     = Throw (HttpException 500 "Swap price 10 exceeds limitPrice 9"
                SWAP_PRICE_EXCEEDS_LIMIT_PRICE_ERROR_CODE)
  /\ trace (snd (trade tradeWorld exampleConfig exampleJupiter exampleMessages
                   exampleConnections 5 buyAboveLimit (initialState exampleTokens)))
     = [].
Proof.
  destruct (fst (tradePrelude tradeWorld exampleConfig exampleJupiter exampleMessages
                   exampleConnections buyAboveLimit (initialState exampleTokens)))
    as [[[kp ti] q]|e|] eqn:Hpre;
    [|vm_compute in Hpre; discriminate|vm_compute in Hpre; discriminate].
  assert (Hp : Dec.ofNumber (expectedPrice ti) = Some (Dec.mk 10 0)).
  { vm_compute in Hpre. injection Hpre as <- <- <-. vm_compute. reflexivity. }
  destruct (trade_limit_price tradeWorld exampleConfig exampleJupiter exampleMessages
              exampleConnections 5 buyAboveLimit (initialState exampleTokens) kp ti q Hpre)
    as [_ H].
  destruct (H "9" (Dec.mk 9 0) (Dec.mk 10 0) eq_refl eq_refl Hp) as [_ Hfail].
  destruct (Hfail eq_refl) as [Hthrow Htrace].
  split; [exists kp, ti, q; auto|]. split; [|exact Htrace].
  rewrite Hthrow. vm_compute in Hpre. injection Hpre as <- <- <-.
  vm_compute. reflexivity.
Defined.

(* ================================================================== *)
(** ** The balance guard *)
(* ================================================================== *)

(** The limit check neither reads nor changes the state. *)
Lemma checkLimitPrice_pure (msgs : ErrorMessages) (req : TradeRequest)
    (p : Num.number) (st st' : St) :
  checkLimitPrice msgs req p st' = (fst (checkLimitPrice msgs req p st), st').
Proof.
  unfold checkLimitPrice, newDecimal.
  destruct (side req), (truthyString (limitPrice req)); try reflexivity;
    destruct (Dec.make (Dec.VNumber p)) as [dp|]; try reflexivity;
    destruct (Dec.make (Dec.VString (default "" (limitPrice req)))) as [l|];
    try reflexivity; run.
  - destruct (Dec.gt dp l); reflexivity.
  - destruct (Dec.lt dp l); reflexivity.
Qed.

(** The balance check, once [getBalance] has answered. *)
Lemma checkBalance_run (w : World) (cfg : Config) (msgs : ErrorMessages)
    (conns : list Connection)
    (req : TradeRequest) (kp : Keypair) (ti : TradeInfo) (st st2 : St)
    (balance : gmap string Num.number) :
  getBalance w cfg conns kp (Some [symbol (guardedToken (side req) ti)]) st
  = (Ret balance, st2) ->
  checkBalance w cfg msgs conns req kp ti st
  = match Dec.make (balanceValue balance (symbol (guardedToken (side req) ti))) with
    | None => (Throw DecimalError, st2)
    | Some db =>
        match Dec.make (requiredAmount req ti) with
        | None => (Throw DecimalError, st2)
        | Some a =>
            if Dec.lt db a
            then (Throw (HttpException 500 (balanceMessage msgs (side req))
                           (balanceCode (side req))), st2)
            else (Ret tt, st2)
        end
    end.
Proof.
  intros Hbal. unfold checkBalance, requiredAmount, newDecimal.
  destruct (side req); cbn [guardedToken balanceMessage balanceCode] in *;
    rewrite (bind_run _ _ _ _ _ Hbal);
    match goal with
    | |- context [Dec.make (balanceValue ?b ?s)] =>
        destruct (Dec.make (balanceValue b s)) as [db|]; [|reflexivity]
    end; run;
    match goal with
    | |- context [Dec.make ?v] => destruct (Dec.make v) as [a|]; [|reflexivity]
    end; run; destruct (Dec.lt db a); reflexivity.
Qed.

Section BalanceGuard.

Variable w : World.
Variable cfg : Config.
Variable jcfg : JupiterConfig.
Variable msgs : ErrorMessages.
Variable conns : list Connection.
Variable fuel : nat.
Variable req : TradeRequest.
Variable st : St.
Variable kp : Keypair.
Variable ti : TradeInfo.
Variable q : QuoteResponse.

Hypothesis prelude :
  fst (tradePrelude w cfg jcfg msgs conns req st) = Ret (kp, ti, q).
Hypothesis limitPassed :
  fst (checkLimitPrice msgs req (expectedPrice ti) st) = Ret tt.

(** [trade] from its balance check on. *)
Lemma trade_from_balance :
  trade w cfg jcfg msgs conns fuel req st
  = bind (checkBalance w cfg msgs conns req kp ti)
      (fun _ => tradeExecute w cfg msgs conns fuel req kp ti q)
      (snd (tradePrelude w cfg jcfg msgs conns req st)).
Proof.
  rewrite trade_sequence.
  destruct (tradePrelude w cfg jcfg msgs conns req st) as [r st1] eqn:Hrun.
  cbn [fst snd] in *. subst r. rewrite (bind_run _ _ _ _ _ Hrun). cbn [fst snd].
  assert (Hl : checkLimitPrice msgs req (expectedPrice ti) st1 = (Ret tt, st1)).
  { rewrite (checkLimitPrice_pure msgs req (expectedPrice ti) st st1), limitPassed.
    reflexivity. }
  rewrite (bind_run _ _ _ _ _ Hl). reflexivity.
Qed.

Lemma trade_balance_thrown (e : exn) (st2 : St) :
  checkBalance w cfg msgs conns req kp ti (snd (tradePrelude w cfg jcfg msgs conns req st))
  = (Throw e, st2) ->
  fst (trade w cfg jcfg msgs conns fuel req st) = Throw e
  /\ trace (snd (trade w cfg jcfg msgs conns fuel req st)) = trace st.
Proof.
  intros Hc. rewrite trade_from_balance, (bind_run_throw _ _ _ _ _ Hc). cbn [fst snd].
  split; [reflexivity|].
  pose proof (quiet_checkBalance w cfg msgs conns req kp ti
                (snd (tradePrelude w cfg jcfg msgs conns req st))) as Hq.
  rewrite Hc in Hq. cbn [snd] in Hq. rewrite Hq. apply quiet_tradePrelude.
Qed.

Lemma trade_balance_passed (st2 : St) (c : ErrorCode) :
  checkBalance w cfg msgs conns req kp ti (snd (tradePrelude w cfg jcfg msgs conns req st))
  = (Ret tt, st2) ->
  isGuardCode c = true ->
  thrownCode (fst (trade w cfg jcfg msgs conns fuel req st)) <> Some c.
Proof.
  intros Hc Hg. rewrite trade_from_balance, (bind_run _ _ _ _ _ Hc).
  apply notGuardError_code; [|exact Hg].
  intros e He. eapply throws_tradeExecute. exact He.
Qed.

End BalanceGuard.

(** With a balance and a required amount that are decimals, the balance
    check decides by their comparison. *)
Lemma trade_balance_decided (w : World) (cfg : Config) (jcfg : JupiterConfig)
    (msgs : ErrorMessages) (conns : list Connection) (fuel : nat)
    (req : TradeRequest) (st : St) (kp : Keypair) (ti : TradeInfo)
    (q : QuoteResponse) (balance : gmap string Num.number) (b : Num.number)
    (db a : Dec.Decimal) :
  fst (tradePrelude w cfg jcfg msgs conns req st) = Ret (kp, ti, q) ->
  fst (checkLimitPrice msgs req (expectedPrice ti) st) = Ret tt ->
  fst (getBalance w cfg conns kp (Some [symbol (guardedToken (side req) ti)])
         (snd (tradePrelude w cfg jcfg msgs conns req st)))
  = Ret balance ->
  balance !! symbol (guardedToken (side req) ti) = Some b ->
  Dec.ofNumber b = Some db ->
  Dec.make (requiredAmount req ti) = Some a ->
  (thrownCode (fst (trade w cfg jcfg msgs conns fuel req st)) = Some (balanceCode (side req))
   <-> Dec.lt db a = true)
  /\ (Dec.lt db a = true ->
      fst (trade w cfg jcfg msgs conns fuel req st)
      = Throw (HttpException 500 (balanceMessage msgs (side req)) (balanceCode (side req)))
      /\ trace (snd (trade w cfg jcfg msgs conns fuel req st)) = trace st).
Proof.
  intros Hpre Hlimit Hbal Hb Hdb Ha.
  destruct (getBalance w cfg conns kp (Some [symbol (guardedToken (side req) ti)])
              (snd (tradePrelude w cfg jcfg msgs conns req st)))
    as [r st2] eqn:Hrun.
  cbn [fst] in Hbal. subst r.
  pose proof (checkBalance_run w cfg msgs conns req kp ti _ st2 balance Hrun) as Hcheck.
  unfold balanceValue in Hcheck. rewrite Hb in Hcheck.
  change (Dec.make (Dec.VNumber b)) with (Dec.ofNumber b) in Hcheck.
  rewrite Hdb, Ha in Hcheck.
  split.
  - destruct (Dec.lt db a) eqn:Hlt.
    + destruct (trade_balance_thrown w cfg jcfg msgs conns fuel req st kp ti q
                  Hpre Hlimit _ _ Hcheck) as [Hthrow _].
      rewrite Hthrow. cbn [thrownCode]. tauto.
    + split; [|discriminate]. intros Hc. exfalso. revert Hc.
      eapply trade_balance_passed; eauto. destruct (side req); reflexivity.
  - intros Hlt. rewrite Hlt in Hcheck.
    exact (trade_balance_thrown w cfg jcfg msgs conns fuel req st kp ti q
             Hpre Hlimit _ _ Hcheck).
Qed.

(** C7: for a request that passes the limit-price guard and whose wallet
    balance of the guarded token is read, [trade] fails with the
    insufficient-balance error of its side (base token for a SELL, quote
    token for a BUY) exactly when that balance, as a decimal, is below the
    requested amount for a SELL and below the expected amount for a BUY.
    It then throws before any swap is built or submitted: no event is
    recorded.  The two insufficient-balance codes differ from the two
    limit-price codes. *)
Theorem trade_balance_guard (w : World) (cfg : Config) (jcfg : JupiterConfig)
    (msgs : ErrorMessages) (conns : list Connection) (fuel : nat)
    (req : TradeRequest) (st : St) (kp : Keypair) (ti : TradeInfo)
    (q : QuoteResponse) (balance : gmap string Num.number) (b : Num.number)
    (db a : Dec.Decimal) :
  fst (tradePrelude w cfg jcfg msgs conns req st) = Ret (kp, ti, q) ->
  fst (checkLimitPrice msgs req (expectedPrice ti) st) = Ret tt ->
  fst (getBalance w cfg conns kp (Some [symbol (guardedToken (side req) ti)])
         (snd (tradePrelude w cfg jcfg msgs conns req st)))
  = Ret balance ->
  balance !! symbol (guardedToken (side req) ti) = Some b ->
  Dec.ofNumber b = Some db ->
  Dec.make (requiredAmount req ti) = Some a ->
  (thrownCode (fst (trade w cfg jcfg msgs conns fuel req st)) = Some (balanceCode (side req))
   <-> Dec.lt db a = true)
  /\ (Dec.lt db a = true ->
      fst (trade w cfg jcfg msgs conns fuel req st)
      = Throw (HttpException 500 (balanceMessage msgs (side req)) (balanceCode (side req)))
      /\ trace (snd (trade w cfg jcfg msgs conns fuel req st)) = trace st)
  /\ (forall s s', balanceCode s <> limitCode s').
Proof.
  intros Hpre Hlimit Hbal Hb Hdb Ha.
  destruct (trade_balance_decided w cfg jcfg msgs conns fuel req st kp ti q balance b
              db a Hpre Hlimit Hbal Hb Hdb Ha) as [Hiff Hfail].
  split; [exact Hiff|]. split; [exact Hfail|].
  intros [] []; discriminate.
Qed.

(** C7 (witness): a SELL of 10000 JUP from a wallet that holds 5000 JUP
    fails with the insufficient-base-token-balance error and records no
    event. *)
Lemma trade_balance_guard_witness :
  (exists kp balance,
      fst (getBalance tradeWorld exampleConfig exampleConnections kp (Some ["JUP"])
             (snd (tradePrelude tradeWorld exampleConfig exampleJupiter exampleMessages
                     exampleConnections sellTooMuch (initialState exampleTokens))))
      = Ret balance
      /\ balance !! "JUP" = Some (Num.ofZ 5000))
  /\ fst (trade tradeWorld exampleConfig exampleJupiter exampleMessages
            exampleConnections 5 sellTooMuch (initialState exampleTokens))
     = Throw (HttpException 500 "Insufficient base token balance"
                INSUFFICIENT_BASE_TOKEN_BALANCE_ERROR_CODE)
  /\ trace (snd (trade tradeWorld exampleConfig exampleJupiter exampleMessages
                   exampleConnections 5 sellTooMuch (initialState exampleTokens)))
     = [].
Proof.
  destruct (fst (tradePrelude tradeWorld exampleConfig exampleJupiter exampleMessages
                   exampleConnections sellTooMuch (initialState exampleTokens)))
    as [[[kp ti] q]|e|] eqn:Hpre;
    [|vm_compute in Hpre; discriminate|vm_compute in Hpre; discriminate].
  pose proof Hpre as Hv. vm_compute in Hv. injection Hv as <- <- <-.
  destruct (fst (getBalance tradeWorld exampleConfig exampleConnections {| publicKey := "payer" |}
                   (Some [symbol (guardedToken (side sellTooMuch)
                                    {| baseToken := jupToken;
                                       quoteToken := usdcToken;
                                       requestAmount := Num.ofZ 10000000000;
                                       expectedPrice := Num.ofString "0.1";
                                       expectedAmount := Num.ofZ 1;
                                       gasEstimate :=
                                         {| gasNetwork := "mainnet-beta";
                                            gasPrice := Num.ofZ 1;
                                            gasPriceToken := "SOL";
                                            gasLimit := Num.ofZ 200000;
                                            gasCost := "0.000005" |} |})])
                   (snd (tradePrelude tradeWorld exampleConfig exampleJupiter
                           exampleMessages exampleConnections sellTooMuch
                           (initialState exampleTokens)))))
    as [balance|e|] eqn:Hbal;
    [|vm_compute in Hbal; discriminate|vm_compute in Hbal; discriminate].
  assert (Hb : balance !! "JUP" = Some (Num.ofZ 5000)).
  { vm_compute in Hbal. injection Hbal as <-. vm_compute. reflexivity. }
  destruct (trade_balance_guard tradeWorld exampleConfig exampleJupiter exampleMessages
              exampleConnections 5 sellTooMuch (initialState exampleTokens) _ _ _
              balance (Num.ofZ 5000) (Dec.mk 5000 0) (Dec.mk 10000 0)
              Hpre eq_refl Hbal Hb eq_refl eq_refl) as (_ & Hfail & _).
  destruct (Hfail eq_refl) as [Hthrow Htrace].
  split; [exists {| publicKey := "payer" |}, balance; split; [exact Hbal|exact Hb]|].
  split; [exact Hthrow|exact Htrace].
Defined.

(* ================================================================== *)
(** ** A token the wallet has no account of *)
(* ================================================================== *)



Lemma toUpperCase_SOL : toUpperCase "SOL" = "SOL".
Proof. reflexivity. Qed.

(** What the filter of the cluster keeps is in the list. *)
Lemma filterByClusterSlug_In (slug : string) (l kept : list TokenInfo) (t : TokenInfo) :
  Resolver.filterByClusterSlug slug l = Some kept -> In t kept -> In t l.
Proof.
  unfold Resolver.filterByClusterSlug, Resolver.filterByChainId.
  destruct (Resolver.CLUSTER_SLUGS slug) as [chain|].
  - intros [= <-] Hin. apply filter_In in Hin. tauto.
  - destruct (Resolver.inheritedName slug); [|discriminate]. intros [= <-] [].
Qed.

(** What [getBalance] returns, in terms of the node's answers. *)
Lemma getBalance_returns (w : World) (cfg : Config) (conns : list Connection)
    (kp : Keypair) (symbols : option (list string)) (st : St)
    (balance : gmap string Num.number) :
  fst (getBalance w cfg conns kp symbols st) = Ret balance ->
  exists accounts resolved tokenList (native : gmap string Num.number),
    tokenAccountsAt w (calls st CTokenAccounts) = Some accounts
    /\ tokenListAt w (calls st CTokenList) = Some resolved
    /\ Resolver.filterByClusterSlug (network cfg) resolved = Some tokenList
    /\ (if requested symbols "SOL"
        then exists solBalance,
            nativeBalanceAt w (calls st CNativeBalance) = Some solBalance
            /\ native = <["SOL" := Num.div solBalance (Num.pow10 9)]> ∅
        else native = ∅)
    /\ balance
       = processAccounts (tokenDefsOf (option_map (map toUpperCase) symbols) tokenList)
           accounts native.
Proof.
  unfold requested. rewrite toUpperCase_SOL. unfold getBalance, getTokenList.
  destruct (includesUpper (option_map (map toUpperCase) symbols) "SOL").
  - run.
    destruct (nativeBalanceAt w (calls (rotate conns st) CNativeBalance)) as [v|] eqn:Hn;
      [|intros H; discriminate H].
    run. change (calls _ CTokenAccounts) with (calls st CTokenAccounts).
    destruct (tokenAccountsAt w (calls st CTokenAccounts)) as [accounts|];
      [|intros H; discriminate H].
    run. change (calls _ CTokenList) with (calls st CTokenList).
    destruct (tokenListAt w (calls st CTokenList)) as [resolved|];
      [|intros H; discriminate H].
    run.
    destruct (Resolver.filterByClusterSlug (network cfg) resolved) as [tokenList|] eqn:Hk;
      [|intros H; discriminate H].
    run. cbn [fst ret]. intros [= <-].
    exists accounts, resolved, tokenList, (<["SOL" := Num.div v (Num.pow10 9)]> ∅).
    split; [reflexivity|]. split; [reflexivity|]. split; [exact Hk|].
    split; [|reflexivity]. exists v. split; [exact Hn|reflexivity].
  - run. change (calls _ CTokenAccounts) with (calls st CTokenAccounts).
    destruct (tokenAccountsAt w (calls st CTokenAccounts)) as [accounts|];
      [|intros H; discriminate H].
    run. change (calls _ CTokenList) with (calls st CTokenList).
    destruct (tokenListAt w (calls st CTokenList)) as [resolved|];
      [|intros H; discriminate H].
    run.
    destruct (Resolver.filterByClusterSlug (network cfg) resolved) as [tokenList|] eqn:Hk;
      [|intros H; discriminate H].
    run. cbn [fst ret]. intros [= <-].
    exists accounts, resolved, tokenList, ∅.
    split; [reflexivity|]. split; [reflexivity|]. split; [exact Hk|].
    split; reflexivity.
Qed.





(* ================================================================== *)
(** ** The amounts of a price response *)
(* ================================================================== *)

Lemma priceFailed_throws {A} (msgs : ErrorMessages) (e : exn) (s : St) (a : A) :
  fst (priceFailed msgs e s) <> Ret a.
Proof. discriminate. Qed.

Lemma awaitOr_inv {A} (o : option A) (e : exn) (st st' : St) (a : A) :
  awaitOr o e st = (Ret a, st') -> o = Some a /\ st' = st.
Proof. destruct o; intros [= <- <-]; auto. Qed.

Lemma getTokenForSymbol_inv (sym : string) (st st' : St) (r : option Resolver.Member) :
  getTokenForSymbol sym st = (Ret r, st') ->
  r = Resolver.member (tokenMap st) sym /\ st' = st.
Proof.
  unfold getTokenForSymbol, Resolver.getTokenForSymbol. rewrite bind_getState.
  destruct (ready st); intros [= <- <-]; auto.
Qed.

Lemma truthyValue_inv (value : option Resolver.Member) (m : Resolver.Member) :
  Resolver.truthyValue value = Some m -> value = Some m.
Proof.
  destruct value as [m'|]; [|discriminate]. cbn.
  destruct (Resolver.truthyMember m'); [|discriminate]. intros [= ->]. reflexivity.
Qed.

(** With a value that is no token entry in the place of a token,
    [getTradeInfo] returns nothing. *)
Lemma getTradeInfo_no_entry {A} (w : World) (cfg : Config) (msgs : ErrorMessages)
    (conns : list Connection) (m : M QuoteResponse) (st st' : St) (a : A) :
  tryCatch (let! quote := m in let! gasEstimate := estimateGas w cfg conns in stuck)
    (priceFailed msgs) st
  <> (Ret a, st').
Proof.
  intros H. apply tryCatch_inv_ret in H; [|intros e s0; apply priceFailed_throws].
  apply bind_inv_ret in H as (quote & s1 & _ & H).
  apply bind_inv_ret in H as (gas & s2 & _ & H). discriminate H.
Qed.

(** What [getTradeInfo] returns is about the tokens stored under the two
    symbols, and its raw amount is the floored product of numbers. *)
Lemma getTradeInfo_returns (w : World) (cfg : Config) (jcfg : JupiterConfig)
    (msgs : ErrorMessages) (conns : list Connection) (b q : string) (a : Num.number)
    (s : Side) (sl : option string) (st st' : St) (ti : TradeInfo)
    (quote : QuoteResponse) :
  getTradeInfo w cfg jcfg msgs conns b q a s sl st = (Ret (ti, quote), st') ->
  tokenMap st !! b = Some (baseToken ti)
  /\ tokenMap st !! q = Some (quoteToken ti)
  /\ requestAmount ti = Num.floor (Num.mul a (Num.pow10 (decimals (baseToken ti)))).
Proof.
  unfold getTradeInfo. intros H.
  apply bind_inv_ret in H as (bt & s1 & H1 & H).
  apply bind_inv_ret in H as (qt & s2 & H2 & H).
  apply bind_inv_ret in H as (tb & s3 & H3 & H).
  apply bind_inv_ret in H as (tq & s4 & H4 & H).
  apply getTokenForSymbol_inv in H1 as [-> ->].
  apply getTokenForSymbol_inv in H2 as [-> ->].
  apply awaitOr_inv in H3 as [Hb ->]. apply awaitOr_inv in H4 as [Hq ->].
  apply truthyValue_inv, member_entry_inv in Hb.
  apply truthyValue_inv, member_entry_inv in Hq.
  cbv zeta in H.
  destruct tb as [tb|nb|nb|sb];
    try (exfalso; exact (getTradeInfo_no_entry w cfg msgs conns _ _ _ _ H)).
  destruct tq as [tq|nq|nq|sq];
    try (exfalso; exact (getTradeInfo_no_entry w cfg msgs conns _ _ _ _ H)).
  apply tryCatch_inv_ret in H; [|intros e s0; apply priceFailed_throws].
  apply bind_inv_ret in H as (quote' & s5 & _ & H).
  apply bind_inv_ret in H as (gas & s6 & _ & H).
  injection H as <- _ _. cbn in Hb, Hq. auto.
Qed.

Lemma getTokenForSymbol_ready (sym : string) (st : St) :
  ready st = true ->
  getTokenForSymbol sym st = (Ret (Resolver.member (tokenMap st) sym), st).
Proof.
  intros Hr. unfold getTokenForSymbol, Resolver.getTokenForSymbol.
  rewrite bind_getState, Hr. reflexivity.
Qed.

(** A symbol under which the table has nothing truthy ends [getTradeInfo]
    at once; the base token is looked at first. *)
Lemma getTradeInfo_unknown (w : World) (cfg : Config) (jcfg : JupiterConfig)
    (msgs : ErrorMessages) (conns : list Connection) (b q : string) (a : Num.number)
    (s : Side) (sl : option string) (st : St) :
  ready st = true ->
  (Resolver.truthyValue (Resolver.member (tokenMap st) b) = None ->
   getTradeInfo w cfg jcfg msgs conns b q a s sl st
   = (Throw (JsError ("Base token " +:+ b +:+ " not found in token list")), st))
  /\ (is_Some (Resolver.truthyValue (Resolver.member (tokenMap st) b)) ->
      Resolver.truthyValue (Resolver.member (tokenMap st) q) = None ->
      getTradeInfo w cfg jcfg msgs conns b q a s sl st
      = (Throw (JsError ("Quote token " +:+ q +:+ " not found in token list")), st)).
Proof.
  intros Hr. unfold getTradeInfo.
  rewrite (bind_run _ _ _ _ _ (getTokenForSymbol_ready b st Hr)).
  rewrite (bind_run _ _ _ _ _ (getTokenForSymbol_ready q st Hr)).
  split.
  - intros ->. reflexivity.
  - intros [t ->] ->. reflexivity.
Qed.

(** What a price response says, when there is one. *)
Lemma price_returns (w : World) (cfg : Config) (jcfg : JupiterConfig)
    (msgs : ErrorMessages) (conns : list Connection) (req : PriceRequest) (st : St)
    (resp : PriceResponse) :
  fst (price w cfg jcfg msgs conns req st) = Ret resp ->
  exists ti a,
    tokenMap st !! pBase req = Some (baseToken ti)
    /\ tokenMap st !! pQuote req = Some (quoteToken ti)
    /\ requestAmount ti
       = Num.floor (Num.mul (Num.ofString (pAmount req))
                      (Num.pow10 (decimals (baseToken ti))))
    /\ Dec.ofString (pAmount req) = Some a
    /\ prBase resp = address (baseToken ti)
    /\ prQuote resp = address (quoteToken ti)
    /\ prAmount resp = Dec.toFixed a (decimals (baseToken ti))
    /\ prRawAmount resp = Num.toString (requestAmount ti).
Proof.
  intros Hret.
  destruct (price w cfg jcfg msgs conns req st) as [r st'] eqn:Hrun.
  cbn [fst] in Hret. subst r. unfold price in Hrun.
  apply bind_inv_ret in Hrun as (t & st1 & Hnow & Hrun).
  apply bind_inv_ret in Hrun as ([ti quote] & st2 & Hinfo & Hrun).
  apply tryCatch_inv_ret in Hinfo; [|intros e s0; apply priceFailed_throws].
  apply getTradeInfo_returns in Hinfo as (Hb & Hq & Hraw).
  apply bind_inv_ret in Hrun as (a & st3 & Hdec & Hrun).
  injection Hrun as <- _.
  unfold newDecimal in Hdec. cbn [Dec.make] in Hdec.
  destruct (Dec.ofString (pAmount req)) as [a'|] eqn:Ha; [|discriminate].
  injection Hdec as <- _.
  unfold now in Hnow. revert Hnow. run. intros [= _ <-].
  exists ti, a'. cbn [prBase prQuote prAmount prRawAmount]. auto 10.
Qed.

(** The tokens of a trade response, when there is one. *)
Lemma trade_returns (w : World) (cfg : Config) (jcfg : JupiterConfig)
    (msgs : ErrorMessages) (conns : list Connection) (fuel : nat)
    (req : TradeRequest) (st : St) (resp : TradeResponse) :
  fst (trade w cfg jcfg msgs conns fuel req st) = Ret resp ->
  exists ti,
    tokenMap st !! base req = Some (baseToken ti)
    /\ tokenMap st !! quote req = Some (quoteToken ti)
    /\ trBase resp = address (baseToken ti)
    /\ trQuote resp = address (quoteToken ti).
Proof.
  intros Hret.
  destruct (trade w cfg jcfg msgs conns fuel req st) as [r st'] eqn:Hrun.
  cbn [fst] in Hret. subst r. unfold trade in Hrun.
  apply bind_inv_ret in Hrun as (t & st1 & Hnow & Hrun).
  apply bind_inv_ret in Hrun as (kp & st2 & Hwallet & Hrun).
  apply bind_inv_ret in Hrun as ([ti quote] & st3 & Hinfo & Hrun).
  apply tryCatch_inv_ret in Hinfo; [|intros e s0; apply priceFailed_throws].
  apply getTradeInfo_returns in Hinfo as (Hb & Hq & _).
  apply bind_inv_ret in Hrun as (u1 & st4 & _ & Hrun).
  apply bind_inv_ret in Hrun as (u2 & st5 & _ & Hrun).
  apply bind_inv_ret in Hrun as (receipt & st6 & _ & Hrun).
  apply bind_inv_ret in Hrun as (a & st7 & _ & Hrun).
  injection Hrun as <- _.
  unfold now in Hnow. revert Hnow. run. intros [= _ <-].
  unfold getWallet in Hwallet. revert Hwallet. run.
  match goal with
  | |- context [walletAt w ?k] => destruct (walletAt w k) as [kp'|]
  end; [|discriminate].
  run. intros [= _ <-].
  exists ti. cbn [trBase trQuote]. auto.
Qed.

(** C5 (as amended): in the response to a price request for listed
    tokens the echoed amount is the request's amount string read as an
    exact decimal and formatted to the base token's decimals, while the
    raw amount is computed with numbers:
    [Math.floor(Number(amount) * 10 ** decimals)], printed by the number's
    [toString].  For the amount 10000 and eighteen decimals the amount is
    [10000.000000000000000000] and the raw amount is [1e+22].  The guards
    of [trade], for listed tokens, read the limit price and the amount as
    exact decimals: with the limit price the decimal [l], the limit-price
    violation is thrown exactly when the expected price, as a decimal,
    compares with [l] against the side; with the amount the decimal [a],
    a SELL fails for want of balance exactly when its balance, as a
    decimal, is below [a]. *)
Theorem price_amounts (w : World) (cfg : Config) (jcfg : JupiterConfig)
    (msgs : ErrorMessages) (conns : list Connection) :
  (forall (req : PriceRequest) (st : St) (resp : PriceResponse),
      is_Some (tokenMap st !! pBase req) ->
      is_Some (tokenMap st !! pQuote req) ->
      fst (price w cfg jcfg msgs conns req st) = Ret resp ->
      exists tb a,
        tokenMap st !! pBase req = Some tb
        /\ Dec.ofString (pAmount req) = Some a
        /\ prAmount resp = Dec.toFixed a (decimals tb)
        /\ prRawAmount resp
           = Num.toString
               (Num.floor (Num.mul (Num.ofString (pAmount req))
                             (Num.pow10 (decimals tb))))
        /\ (pAmount req = "10000" -> decimals tb = 18 ->
            prAmount resp = "10000.000000000000000000" /\ prRawAmount resp = "1e+22"))
  /\ (forall (fuel : nat) (req : TradeRequest) (st : St) (kp : Keypair)
             (ti : TradeInfo) (q : QuoteResponse),
         is_Some (tokenMap st !! base req) ->
         is_Some (tokenMap st !! quote req) ->
         fst (tradePrelude w cfg jcfg msgs conns req st) = Ret (kp, ti, q) ->
         (forall lp l p,
             limitPrice req = Some lp ->
             Dec.ofString lp = Some l ->
             Dec.ofNumber (expectedPrice ti) = Some p ->
             (thrownCode (fst (trade w cfg jcfg msgs conns fuel req st))
              = Some (limitCode (side req))
              <-> violatesLimit (side req) p l = true))
         /\ (forall balance b db a,
                side req = SELL ->
                fst (checkLimitPrice msgs req (expectedPrice ti) st) = Ret tt ->
                fst (getBalance w cfg conns kp (Some [symbol (baseToken ti)])
                       (snd (tradePrelude w cfg jcfg msgs conns req st)))
                = Ret balance ->
                balance !! symbol (baseToken ti) = Some b ->
                Dec.ofNumber b = Some db ->
                Dec.ofString (reqAmount req) = Some a ->
                (thrownCode (fst (trade w cfg jcfg msgs conns fuel req st))
                 = Some INSUFFICIENT_BASE_TOKEN_BALANCE_ERROR_CODE
                 <-> Dec.lt db a = true))).
Proof.
  split.
  - intros req st resp _ _ Hret.
    destruct (price_returns w cfg jcfg msgs conns req st resp Hret)
      as (ti & a & Hb & _ & Hraw & Ha & _ & _ & Hamount & Hrawtext).
    exists (baseToken ti), a.
    split; [exact Hb|]. split; [exact Ha|]. split; [exact Hamount|].
    split; [rewrite Hrawtext, Hraw; reflexivity|].
    intros Hreq Hdecimals. rewrite Hamount, Hrawtext, Hraw, Hdecimals.
    rewrite Hreq in Ha. vm_compute in Ha. injection Ha as <-.
    rewrite Hreq. split; vm_compute; reflexivity.
  - intros fuel req st kp ti q _ _ Hpre. split.
    + intros lp l p Hlp Hl Hp.
      exact (proj1 (trade_limit_decided w cfg jcfg msgs conns fuel req st kp ti q lp l p
                      Hpre Hlp Hl Hp)).
    + intros balance b db a Hside Hlimit Hbal Hb Hdb Ha.
      pose proof (trade_balance_decided w cfg jcfg msgs conns fuel req st kp ti q balance
                    b db a Hpre Hlimit) as H.
      unfold requiredAmount in H. rewrite Hside in H. cbn [guardedToken balanceCode] in H.
      exact (proj1 (H Hbal Hb Hdb Ha)).
Qed.

(** C5 (witness): the price of 10000 WETC, a token with eighteen
    decimals. *)
Lemma price_amounts_witness :
  is_Some (tokenMap (initialState [wideToken; usdcToken]) !! pBase priceOfWide)
  /\ is_Some (tokenMap (initialState [wideToken; usdcToken]) !! pQuote priceOfWide)
  /\ exists resp,
    fst (price tradeWorld exampleConfig exampleJupiter exampleMessages
           exampleConnections priceOfWide (initialState [wideToken; usdcToken]))
    = Ret resp
    /\ prAmount resp = "10000.000000000000000000"
    /\ prRawAmount resp = "1e+22".
Proof.
  assert (Hbase : is_Some (tokenMap (initialState [wideToken; usdcToken])
                           !! pBase priceOfWide))
    by (eexists; vm_compute; reflexivity).
  assert (Hquote : is_Some (tokenMap (initialState [wideToken; usdcToken])
                            !! pQuote priceOfWide))
    by (eexists; vm_compute; reflexivity).
  split; [exact Hbase|]. split; [exact Hquote|].
  destruct (fst (price tradeWorld exampleConfig exampleJupiter exampleMessages
                   exampleConnections priceOfWide (initialState [wideToken; usdcToken])))
    as [resp|e|] eqn:Hret;
    [|vm_compute in Hret; discriminate|vm_compute in Hret; discriminate].
  exists resp. split; [reflexivity|].
  destruct (proj1 (price_amounts tradeWorld exampleConfig exampleJupiter exampleMessages
                     exampleConnections)
              priceOfWide (initialState [wideToken; usdcToken]) resp Hbase Hquote Hret)
    as (tb & a & Htb & _ & _ & _ & H).
  apply H; [reflexivity|].
  vm_compute in Htb. injection Htb as <-. reflexivity.
Defined.

(** C5 (counterexample): for the amount 10000 on a token with eighteen
    decimals the raw amount of the price response is [1e+22], not the
    digits of 10^22; for the amount 2.01 on a token with six decimals it
    is 2009999, one below the exact 2010000. *)
Lemma price_raw_amount_is_a_number :
  (exists resp,
      fst (price tradeWorld exampleConfig exampleJupiter exampleMessages
             exampleConnections priceOfWide (initialState [wideToken; usdcToken]))
      = Ret resp
      /\ prAmount resp = "10000.000000000000000000"
      /\ prRawAmount resp = "1e+22"
      /\ prRawAmount resp <> "10000000000000000000000")
  /\ (exists resp,
         fst (price tradeWorld exampleConfig exampleJupiter exampleMessages
                exampleConnections priceOfFraction (initialState exampleTokens))
         = Ret resp
         /\ prAmount resp = "2.010000"
         /\ prRawAmount resp = "2009999").
Proof.
  split; eexists; vm_compute; repeat split; discriminate.
Qed.

(* ================================================================== *)
(** ** The symbol resolution of the price and trade paths *)
(* ================================================================== *)

Lemma loadTokens_no_prototype (l : list TokenInfo) :
  Forall (fun u => symbol u <> "__proto__") l ->
  Resolver.loadTokens l ∅ !! "__proto__" = None.
Proof. intros H. apply (loadTokens_entry l "__proto__"). exact H. Qed.

(** A symbol that no entry of the list has, and that is no inherited
    name, resolves to [null]. *)
Lemma member_unlisted (l : list TokenInfo) (s : string) :
  Forall (fun u => symbol u <> "__proto__") l ->
  Forall (fun u => ~ sameSymbol s u) l ->
  Resolver.inheritedName s = false ->
  Resolver.member (Resolver.loadTokens l ∅) s = None.
Proof.
  intros Hproto Hnone Hs. apply member_undefined.
  - apply loadTokens_no_prototype. exact Hproto.
  - split; [apply (loadTokens_entry l s); exact Hnone|exact Hs].
Qed.

(** C9 (as amended): [getTokenForSymbol] returns a token entry exactly
    when the token list has the queried symbol, case included, and then
    the last such entry; when no entry has it, the result is [null]
    unless the symbol is the name of a member that every object
    inherits (the list holding no entry with the symbol [__proto__]).
    The price and trade paths resolve through it: the tokens of their
    responses are the last entries with exactly the requested symbols
    (the list holding no entry with the symbol [undefined], under which
    the quote is fetched for a value that is no entry), and a symbol that
    is listed in another case only, and is no inherited name, fails with
    the message that the token is not found.  The lookup that ignores
    case and takes the last match is [getTokenBySymbol], which the token
    listing uses. *)
Theorem symbol_resolution (l : list TokenInfo) (s : string) :
  (forall t, Resolver.getTokenForSymbol true (Resolver.loadTokens l ∅) s
             = Some (Some (Resolver.Entry t))
             <-> Resolver.lastMatch (sameSymbol s) l t)
  /\ (Forall (fun u => symbol u <> "__proto__") l ->
      (Resolver.getTokenForSymbol true (Resolver.loadTokens l ∅) s = Some None
       <-> Forall (fun u => ~ sameSymbol s u) l /\ Resolver.inheritedName s = false))
  /\ (forall t, Resolver.getTokenBySymbol l s = Some t
                <-> Resolver.lastMatch (sameSymbolUpToCase s) l t)
  /\ (Resolver.getTokenBySymbol l s = None
      <-> Forall (fun u => ~ sameSymbolUpToCase s u) l)
  /\ (forall w cfg jcfg msgs conns (req : PriceRequest) (st : St) resp,
         tokenMap st = Resolver.loadTokens l ∅ ->
         Forall (fun u => symbol u <> "undefined") l ->
         fst (price w cfg jcfg msgs conns req st) = Ret resp ->
         exists tb tq,
           Resolver.lastMatch (sameSymbol (pBase req)) l tb
           /\ Resolver.lastMatch (sameSymbol (pQuote req)) l tq
           /\ prBase resp = address tb /\ prQuote resp = address tq)
  /\ (forall w cfg jcfg msgs conns fuel (req : TradeRequest) (st : St) resp,
         tokenMap st = Resolver.loadTokens l ∅ ->
         Forall (fun u => symbol u <> "undefined") l ->
         fst (trade w cfg jcfg msgs conns fuel req st) = Ret resp ->
         exists tb tq,
           Resolver.lastMatch (sameSymbol (base req)) l tb
           /\ Resolver.lastMatch (sameSymbol (quote req)) l tq
           /\ trBase resp = address tb /\ trQuote resp = address tq)
  /\ (forall w cfg jcfg msgs conns fuel (preq : PriceRequest) (treq : TradeRequest)
             (st : St),
         tokenMap st = Resolver.loadTokens l ∅ ->
         ready st = true ->
         Forall (fun u => symbol u <> "__proto__") l ->
         Forall (fun u => ~ sameSymbol s u) l ->
         Resolver.inheritedName s = false ->
         (pBase preq = s ->
          fst (price w cfg jcfg msgs conns preq st)
          = Throw (HttpException 500
                     (PRICE_FAILED_ERROR_MESSAGE msgs
                      +:+ ("Base token " +:+ s +:+ " not found in token list"))
                     PRICE_FAILED_ERROR_CODE))
         /\ (base treq = s ->
             is_Some (walletAt w (calls st CWallet)) ->
             fst (trade w cfg jcfg msgs conns fuel treq st)
             = Throw (HttpException 500
                        (PRICE_FAILED_ERROR_MESSAGE msgs
                         +:+ ("Base token " +:+ s +:+ " not found in token list"))
                        PRICE_FAILED_ERROR_CODE)))
  /\ (forall w stored symbols (st : St),
         exists tokens,
           fst (getTokens w stored l (Some symbols) st) = Ret tokens
           /\ forall t, In t tokens
                        <-> exists s', In s' symbols
                                       /\ Resolver.lastMatch (sameSymbolUpToCase s') l t).
Proof.
  destruct (getTokenBySymbol_lookup l s) as [Hs' Hn'].
  destruct (lastMatch_iff (sameSymbolUpToCase s) l _ Hs' Hn') as [H3 H4].
  split; [|split; [|split; [exact H3|split; [exact H4|]]]].
  - intros t. unfold Resolver.getTokenForSymbol.
    rewrite <- (proj1 (loadTokens_entry l s) t), <- member_entry.
    split; [intros [= H]; exact H|intros ->; reflexivity].
  - intros Hproto. unfold Resolver.getTokenForSymbol.
    rewrite <- (proj2 (loadTokens_entry l s)).
    rewrite <- (member_undefined _ s (loadTokens_no_prototype l Hproto)).
    split; [intros [= H]; exact H|intros ->; reflexivity].
  - split; [|split; [|split]].
    + intros w cfg jcfg msgs conns req st resp Hmap _ Hret.
      destruct (price_returns w cfg jcfg msgs conns req st resp Hret)
        as (ti & a & Hb & Hq & _ & _ & Hbase & Hquote & _).
      rewrite Hmap in Hb, Hq. exists (baseToken ti), (quoteToken ti).
      split; [apply loadTokens_entry; exact Hb|].
      split; [apply loadTokens_entry; exact Hq|]. auto.
    + intros w cfg jcfg msgs conns fuel req st resp Hmap _ Hret.
      destruct (trade_returns w cfg jcfg msgs conns fuel req st resp Hret)
        as (ti & Hb & Hq & Hbase & Hquote).
      rewrite Hmap in Hb, Hq. exists (baseToken ti), (quoteToken ti).
      split; [apply loadTokens_entry; exact Hb|].
      split; [apply loadTokens_entry; exact Hq|]. auto.
    + intros w cfg jcfg msgs conns fuel preq treq st Hmap Hready Hproto Hnone Hname.
      pose proof (member_unlisted l s Hproto Hnone Hname) as Hmember.
      rewrite <- Hmap in Hmember.
      split.
      * intros Hbase. unfold price, now. rewrite bind_assoc, bind_next, bind_ret.
        destruct (getTradeInfo_unknown w cfg jcfg msgs conns (pBase preq) (pQuote preq)
                    (Num.ofString (pAmount preq)) (pSide preq) (pAllowedSlippage preq)
                    (bump CNow st) Hready) as [Hunknown _].
        rewrite Hbase in *. cbn [bump tokenMap] in Hunknown.
        rewrite Hmember in Hunknown. specialize (Hunknown eq_refl).
        rewrite (bind_run_throw _ _ _ _ _
                   (tryCatch_run_throw _ (priceFailed msgs) _ _ _ Hunknown)).
        reflexivity.
      * intros Hbase [kp Hkp]. unfold trade, now, getWallet.
        rewrite bind_assoc, bind_next, bind_ret, bind_assoc, bind_next.
        change (calls (bump CNow st) CWallet) with (calls st CWallet).
        rewrite Hkp, bind_awaitOr_Some.
        destruct (getTradeInfo_unknown w cfg jcfg msgs conns (base treq) (quote treq)
                    (Num.ofString (reqAmount treq)) (side treq) (allowedSlippage treq)
                    (bump CWallet (bump CNow st)) Hready) as [Hunknown _].
        rewrite Hbase in *. cbn [bump tokenMap] in Hunknown.
        rewrite Hmember in Hunknown. specialize (Hunknown eq_refl).
        rewrite (bind_run_throw _ _ _ _ _
                   (tryCatch_run_throw _ (priceFailed msgs) _ _ _ Hunknown)).
        reflexivity.
    + intros w stored symbols st.
      exists (omap (Resolver.getTokenBySymbol l) symbols). split; [reflexivity|].
      intros t. rewrite <- list_elem_of_In, list_elem_of_omap. split.
      * intros (s' & Hin & Hget). exists s'. split; [apply list_elem_of_In; exact Hin|].
        apply getTokenBySymbol_lookup. exact Hget.
      * intros (s' & Hin & Hlast). exists s'. split; [apply list_elem_of_In; exact Hin|].
        destruct (getTokenBySymbol_lookup l s') as [Hsome Hnone].
        apply (lastMatch_iff (sameSymbolUpToCase s') l _ Hsome Hnone). exact Hlast.
Qed.

(** C9 (counterexample): the token list holds SOL; the query [sol] agrees
    with it up to case, so a case-insensitive resolution would return the
    entry, yet [getTokenForSymbol] returns [null], and the price of [sol]
    fails for a token that is not found. *)
Lemma symbol_resolution_case_sensitive :
  Resolver.lastMatch (sameSymbolUpToCase "sol") [solToken] solToken
  /\ Resolver.getTokenForSymbol true (Resolver.loadTokens [solToken] ∅) "sol"
     = Some None
  /\ fst (price tradeWorld exampleConfig exampleJupiter exampleMessages exampleConnections
            {| pBase := "sol"; pQuote := "USDC"; pAmount := "1"; pSide := SELL;
               pAllowedSlippage := None |}
            (initialState exampleTokens))
     = Throw (HttpException 500
                "Failed to get price: Base token sol not found in token list"
                PRICE_FAILED_ERROR_CODE).
Proof.
  split; [|split].
  - exists [], []. repeat split; auto.
  - reflexivity.
  - vm_compute. reflexivity.
Qed.

(* ================================================================== *)
(** ** The rotation of the endpoint pool *)
(* ================================================================== *)

Lemma draw_run (conns : list Connection) :
  conns <> [] ->
  forall (n : nat) (st : St),
    (currentIndex st < length conns)%nat ->
    fst (draw conns n st)
    = Ret (map (fun k => conns !! ((currentIndex st + k) mod length conns)%nat) (seq 0 n))
    /\ currentIndex (snd (draw conns n st))
       = ((currentIndex st + n) mod length conns)%nat.
Proof.
  intros Hne. assert (Hlen : length conns <> O) by (destruct conns; [congruence|discriminate]).
  induction n as [|n IH]; intros st Hi.
  - split; [reflexivity|]. cbn [draw ret snd].
    rewrite Nat.add_0_r, Nat.mod_small by exact Hi. reflexivity.
  - cbn [draw]. rewrite bind_getNextConnection.
    assert (Hi' : (currentIndex (rotate conns st) < length conns)%nat)
      by (apply Nat.mod_upper_bound; exact Hlen).
    destruct (IH (rotate conns st) Hi') as [Hr Hs].
    destruct (draw conns n (rotate conns st)) as [[rest| |] st'] eqn:Hd;
      cbn [fst snd] in Hr, Hs; try discriminate.
    injection Hr as ->. rewrite (bind_run _ _ _ _ _ Hd). cbn [ret fst snd]. split.
    + f_equal. cbn [seq map]. f_equal.
      * rewrite Nat.add_0_r, Nat.mod_small by exact Hi. reflexivity.
      * rewrite <- seq_shift, map_map. apply map_ext. intros k.
        cbn [rotate currentIndex]. rewrite Nat.Div0.add_mod_idemp_l.
        f_equal. f_equal. lia.
    + rewrite Hs. cbn [rotate currentIndex]. rewrite Nat.Div0.add_mod_idemp_l.
      f_equal. lia.
Qed.

(** X1: the pool hands out its endpoints in strict rotation.  Starting
    from an index within a non-empty pool, the [k]-th following call of
    [getNextConnection] returns the endpoint at [(index + k) mod size];
    no call returns [undefined], and after as many calls as the pool has
    endpoints the index is back where it was. *)
Theorem getNextConnection_round_robin (conns : list Connection) (n : nat) (st : St) :
  conns <> [] ->
  (currentIndex st < length conns)%nat ->
  fst (draw conns n st)
  = Ret (map (fun k => conns !! ((currentIndex st + k) mod length conns)%nat) (seq 0 n))
  /\ Forall is_Some
       (map (fun k => conns !! ((currentIndex st + k) mod length conns)%nat) (seq 0 n))
  /\ currentIndex (snd (draw conns (length conns) st)) = currentIndex st.
Proof.
  intros Hne Hi.
  assert (Hlen : length conns <> O) by (destruct conns; [congruence|discriminate]).
  split; [apply draw_run; assumption|split].
  - apply Forall_forall. intros c Hc. apply list_elem_of_In, in_map_iff in Hc.
    destruct Hc as (k & <- & _). apply lookup_lt_is_Some.
    apply Nat.mod_upper_bound. exact Hlen.
  - destruct (draw_run conns Hne (length conns) st Hi) as [_ ->].
    rewrite <- (Nat.mul_1_l (length conns)) at 1.
    rewrite Nat.Div0.mod_add. apply Nat.mod_small. exact Hi.
Qed.

(** X1 (witness): five calls on a pool of three endpoints. *)
Lemma getNextConnection_round_robin_witness :
  threeConnections <> []
  /\ (currentIndex (initialState []) < length threeConnections)%nat
  /\ fst (draw threeConnections 5 (initialState []))
     = Ret [Some "a"; Some "b"; Some "c"; Some "a"; Some "b"].
Proof.
  split; [discriminate|]. split; [cbn; lia|].
  apply (getNextConnection_round_robin threeConnections 5 (initialState []));
    [discriminate|cbn; lia].
Defined.

(* ================================================================== *)
(** ** Initialisation and the symbol table *)
(* ================================================================== *)

(** What [getTokenList] gives on one of the three clusters. *)
Lemma getTokenList_run (w : World) (cfg : Config) (st : St) (l : list TokenInfo)
    (chain : Z) :
  tokenListAt w (calls st CTokenList) = Some l ->
  Resolver.CLUSTER_SLUGS (network cfg) = Some chain ->
  getTokenList w cfg st = (Ret (Resolver.filterByChainId chain l), bump CTokenList st).
Proof.
  intros Hlist Hchain. unfold getTokenList, Resolver.filterByClusterSlug.
  run. rewrite Hlist. run. rewrite Hchain. reflexivity.
Qed.

(** X2: initialising an instance and then resolving a symbol.  On one of
    the three clusters the symbol table is filled from the entries of the
    resolved token list that are of the cluster's chain; the instance is
    ready afterwards, so the lookup does not throw.  It returns a token
    entry exactly if such an entry has the symbol, case included, and
    then the last one.  When none has it, and no entry has the symbol
    [__proto__], the lookup returns [null], unless the symbol is the name
    of a member that every object inherits: then it returns that
    member. *)
Theorem init_then_getTokenForSymbol (w : World) (cfg : Config) (st : St)
    (l : list TokenInfo) (chain : Z) (sym : string) :
  ready st = false ->
  tokenMap st = ∅ ->
  tokenListAt w (calls st CTokenList) = Some l ->
  Resolver.CLUSTER_SLUGS (network cfg) = Some chain ->
  exists r st',
    bind (init w cfg) (fun _ => getTokenForSymbol sym) st = (Ret r, st')
    /\ ready st' = true
    /\ (forall t, r = Some (Resolver.Entry t)
                  <-> Resolver.lastMatch (sameSymbol sym)
                        (Resolver.filterByChainId chain l) t)
    /\ (Forall (fun u => symbol u <> "__proto__") (Resolver.filterByChainId chain l) ->
        Forall (fun u => ~ sameSymbol sym u) (Resolver.filterByChainId chain l) ->
        r = if Resolver.inheritedName sym then Some (Resolver.Builtin sym) else None)
    /\ (r = None -> Forall (fun u => ~ sameSymbol sym u) (Resolver.filterByChainId chain l)).
Proof.
  intros Hready Hmap Hlist Hchain.
  set (kept := Resolver.filterByChainId chain l).
  exists (Resolver.member (Resolver.loadTokens kept ∅) sym),
         (withTokens (Resolver.loadTokens kept ∅) true (bump CTokenList st)).
  split; [|split; [reflexivity|split; [|split]]].
  - unfold init, getTokenForSymbol, setTokens. run.
    rewrite Hready. run.
    rewrite (bind_run _ _ _ _ _ (getTokenList_run w cfg st l chain Hlist Hchain)).
    rewrite Hmap. run. reflexivity.
  - intros t. rewrite member_entry. apply loadTokens_entry.
  - intros Hproto Hnone. apply member_absent.
    + apply loadTokens_no_prototype. exact Hproto.
    + apply (loadTokens_entry kept sym). exact Hnone.
  - intros Hnull. apply (loadTokens_entry kept sym).
    unfold Resolver.member in Hnull.
    destruct (Resolver.loadTokens kept ∅ !! sym); [discriminate|reflexivity].
Qed.

(** X2 (witness): the example tokens on the main network; the symbol
    [JUP] resolves to its entry, the name [constructor] to the member
    that the table inherits. *)
Lemma init_then_getTokenForSymbol_witness :
  ready freshState = false
  /\ tokenMap freshState = ∅
  /\ Resolver.CLUSTER_SLUGS (network exampleConfig) = Some 101
  /\ fst (bind (init listingWorld exampleConfig) (fun _ => getTokenForSymbol "JUP")
            freshState)
     = Ret (Some (Resolver.Entry jupToken))
  /\ fst (bind (init listingWorld exampleConfig) (fun _ => getTokenForSymbol "constructor")
            freshState)
     = Ret (Some (Resolver.Builtin "constructor")).
Proof.
  split; [reflexivity|]. split; [reflexivity|]. split; [reflexivity|].
  split.
  - destruct (init_then_getTokenForSymbol listingWorld exampleConfig freshState
                exampleTokens 101 "JUP" eq_refl eq_refl eq_refl eq_refl)
      as (r & st' & Hrun & _ & Hsome & _).
    rewrite Hrun. cbn [fst]. f_equal. apply Hsome.
    exists [solToken; usdcToken], []. repeat split; auto.
  - vm_compute. reflexivity.
Defined.

(** X3: [init] loads the tokens at most once.  Running it twice is the
    same as running it once; on a ready instance it asks for nothing and
    changes nothing; and an [init] that fails leaves the instance as not
    ready as it was, with its symbol table untouched. *)
Theorem init_idempotent (w : World) (cfg : Config) (st : St) :
  bind (init w cfg) (fun _ => init w cfg) st = init w cfg st
  /\ (ready st = true -> init w cfg st = (Ret tt, st))
  /\ (forall e, fst (init w cfg st) = Throw e ->
                ready (snd (init w cfg st)) = false
                /\ tokenMap (snd (init w cfg st)) = tokenMap st).
Proof.
  unfold init, getTokenList, setTokens. run.
  destruct (ready st) eqn:Hready.
  - run. rewrite Hready. run. split; [reflexivity|]. split; [reflexivity|].
    intros e H. discriminate H.
  - run. destruct (tokenListAt w (calls st CTokenList)) as [l|]; run.
    + destruct (Resolver.filterByClusterSlug (network cfg) l) as [kept|]; run.
      * split; [reflexivity|]. split; [discriminate|]. intros e H. discriminate H.
      * cbn [fst snd]. split; [reflexivity|]. split; [discriminate|].
        intros e _. split; [exact Hready|reflexivity].
    + cbn [fst snd]. split; [reflexivity|]. split; [discriminate|].
      intros e _. split; [exact Hready|reflexivity].
Qed.

(* ================================================================== *)
(** ** The token listing *)
(* ================================================================== *)

(** X4: the token listing resolves each requested symbol without regard
    to case against the token list, last entry first, and leaves out
    what it does not find: a token is listed exactly if it is the last
    entry of the list that agrees, up to case, with one of the requested
    symbols.  The listing has at most one token for each requested
    symbol, and symbols that are all unknown give an empty listing, not
    an error.  Without requested symbols the stored list is returned. *)
Theorem getTokens_found (w : World) (stored l : list TokenInfo)
    (symbols : list string) (st : St) :
  fst (getTokens w stored l None st) = Ret stored
  /\ exists tokens,
      fst (getTokens w stored l (Some symbols) st) = Ret tokens
      /\ (forall t, In t tokens
                    <-> exists s, In s symbols
                                  /\ Resolver.lastMatch (sameSymbolUpToCase s) l t)
      /\ (length tokens <= length symbols)%nat
      /\ (Forall (fun s => Forall (fun u => ~ sameSymbolUpToCase s u) l) symbols ->
          tokens = []).
Proof.
  split; [reflexivity|].
  exists (omap (Resolver.getTokenBySymbol l) symbols).
  split; [reflexivity|].
  assert (Hin : forall t, In t (omap (Resolver.getTokenBySymbol l) symbols)
                    <-> exists s, In s symbols
                                  /\ Resolver.lastMatch (sameSymbolUpToCase s) l t).
  { intros t. rewrite <- list_elem_of_In, list_elem_of_omap. split.
    - intros (s & Hs & Hget). exists s. split; [apply list_elem_of_In; exact Hs|].
      apply getTokenBySymbol_lookup. exact Hget.
    - intros (s & Hs & Hlast). exists s. split; [apply list_elem_of_In; exact Hs|].
      destruct (getTokenBySymbol_lookup l s) as [Hsome Hnone].
      apply (lastMatch_iff (sameSymbolUpToCase s) l _ Hsome Hnone). exact Hlast. }
  split; [exact Hin|split].
  - clear Hin. induction symbols as [|s symbols IH]; [reflexivity|].
    cbn [omap list_omap]. destruct (Resolver.getTokenBySymbol l s); cbn [length]; lia.
  - intros Hall. destruct (omap (Resolver.getTokenBySymbol l) symbols) as [|t ts] eqn:Ho;
      [reflexivity|].
    exfalso. destruct (proj1 (Hin t) (or_introl eq_refl)) as (s & Hs & Hlast).
    rewrite Forall_forall in Hall. apply list_elem_of_In in Hs.
    eapply lastMatch_not_all; [exact Hlast|apply Hall; exact Hs].
Qed.

(* ================================================================== *)
(** ** The cache of the fee estimator *)
(* ================================================================== *)

(** A fresh cached estimate answers at once. *)
Lemma estimatePriorityFees_hit (w : World) (cfg : Config) (url : string) (st : St)
    (c : FeeEstimate) :
  lastPriorityFeeEstimate st = Some c ->
  nowAt w (calls st CNow) - timestamp c < PRIORITY_FEE_CACHE_MS ->
  estimatePriorityFees w cfg url st = (Ret (cachedFee c), bump CNow st).
Proof.
  intros Hc Hfresh. unfold estimatePriorityFees. rewrite bind_getState, Hc.
  unfold now. run. apply Z.ltb_lt in Hfresh. rewrite Hfresh. reflexivity.
Qed.

(** Without a fresh cached estimate the fees are requested, from a state
    that differs from the first at most by one reading of the clock. *)
Lemma estimatePriorityFees_fetches (w : World) (cfg : Config) (url : string) (st : St) :
  cacheFresh w st = false ->
  exists st1,
    (st1 = st \/ st1 = bump CNow st)
    /\ estimatePriorityFees w cfg url st
       = tryCatch
           (let! k := next CFees in estimateFromReply w cfg (feesAt w k))
           (fun e => throw (JsError ("Failed to fetch priority fees: " +:+ messageOf e)))
           st1.
Proof.
  unfold cacheFresh, estimatePriorityFees. rewrite bind_getState.
  destruct (lastPriorityFeeEstimate st) as [c|] eqn:Hc.
  - intros Hf. unfold now. run. rewrite Hf.
    eexists. split; [right; reflexivity|reflexivity].
  - intros _. rewrite bind_ret. exists st. split; [left; reflexivity|reflexivity].
Qed.

(** The percentile fee of positive samples, as [estimatePriorityFees]
    computes it. *)
Lemma estimateFromReply_positive (w : World) (cfg : Config)
    (samples : list Num.number) (st : St) :
  List.filter positiveFee samples <> [] ->
  exists v,
    v = match index (sortFees (List.filter positiveFee samples))
                (Num.sub (percentileIndex cfg (length (List.filter positiveFee samples)))
                         (Num.ofZ 1)) with
        | Some f => Num.max f (minimumFee cfg)
        | None => Num.NaN
        end
    /\ tryCatch
         (let! k := next CFees in estimateFromReply w cfg (FeeResult samples))
         (fun e => throw (JsError ("Failed to fetch priority fees: " +:+ messageOf e)))
         st
       = (Ret v,
          withCache {| timestamp := nowAt w (calls st CNow); cachedFee := v |}
            (bump CNow (bump CFees st))).
Proof.
  intros Hne. eexists. split; [reflexivity|].
  unfold tryCatch. rewrite bind_next. unfold estimateFromReply.
  change (fun fee => Num.gtb fee Num.zero) with positiveFee.
  replace (Nat.eqb (length (List.filter positiveFee samples)) 0) with false
    by (destruct (List.filter positiveFee samples); [congruence|reflexivity]).
  unfold now. run. reflexivity.
Qed.

(** X5: an estimate computed from positive samples is cached with the
    time of its computation, and every call that finds this cache entry
    less than ten seconds old returns the same estimate, whatever
    endpoint it is given, without asking for the fees again. *)
Theorem estimatePriorityFees_cache_round_trip (w : World) (cfg : Config)
    (url url' : string) (st : St) (samples : list Num.number) :
  cacheFresh w st = false ->
  feesAt w (calls st CFees) = FeeResult samples ->
  List.filter positiveFee samples <> [] ->
  exists v t st1,
    estimatePriorityFees w cfg url st = (Ret v, st1)
    /\ lastPriorityFeeEstimate st1 = Some {| timestamp := t; cachedFee := v |}
    /\ forall st2,
         lastPriorityFeeEstimate st2 = lastPriorityFeeEstimate st1 ->
         nowAt w (calls st2 CNow) - t < PRIORITY_FEE_CACHE_MS ->
         estimatePriorityFees w cfg url' st2 = (Ret v, bump CNow st2)
         /\ calls (bump CNow st2) CFees = calls st2 CFees.
Proof.
  intros Hstale Hreply Hne.
  destruct (estimatePriorityFees_fetches w cfg url st Hstale) as (s1 & Hs1 & Hrun).
  assert (Hk : calls s1 CFees = calls st CFees) by (destruct Hs1 as [->| ->]; reflexivity).
  destruct (estimateFromReply_positive w cfg samples s1 Hne) as (v & _ & Hfetch).
  exists v, (nowAt w (calls s1 CNow)),
    (withCache {| timestamp := nowAt w (calls s1 CNow); cachedFee := v |}
       (bump CNow (bump CFees s1))).
  split; [|split; [reflexivity|]].
  - rewrite Hrun. rewrite <- Hfetch. unfold tryCatch. rewrite !bind_next, Hk, Hreply.
    reflexivity.
  - intros st2 Hcache Hfresh. split; [|reflexivity].
    apply (estimatePriorityFees_hit w cfg url' st2
             {| timestamp := nowAt w (calls s1 CNow); cachedFee := v |});
      [exact Hcache|exact Hfresh].
Qed.

(** X5 (witness): the samples 0, 5, 3, 7; the clock advances by one
    millisecond at each reading. *)
Lemma estimatePriorityFees_cache_round_trip_witness :
  cacheFresh (feeWorld mixedSamples) (initialState []) = false
  /\ List.filter positiveFee mixedSamples <> []
  /\ exists v st1,
      estimatePriorityFees (feeWorld mixedSamples) exampleConfig "https://rpc.example"
        (initialState []) = (Ret v, st1)
      /\ estimatePriorityFees (feeWorld mixedSamples) exampleConfig "https://other.example"
           st1 = (Ret v, bump CNow st1).
Proof.
  split; [reflexivity|]. split; [discriminate|].
  destruct (estimatePriorityFees_cache_round_trip (feeWorld mixedSamples) exampleConfig
              "https://rpc.example" "https://other.example" (initialState [])
              mixedSamples eq_refl eq_refl ltac:(discriminate))
    as (v & t & st1 & Hrun & Hcache & Hagain).
  exists v, st1. split; [exact Hrun|].
  apply Hagain; [reflexivity|].
  assert (Hst1 : st1 = snd (estimatePriorityFees (feeWorld mixedSamples) exampleConfig
                              "https://rpc.example" (initialState [])))
    by (rewrite Hrun; reflexivity).
  assert (Ht : Some {| timestamp := t; cachedFee := v |}
               = lastPriorityFeeEstimate
                   (snd (estimatePriorityFees (feeWorld mixedSamples) exampleConfig
                           "https://rpc.example" (initialState []))))
    by (rewrite <- Hst1, Hcache; reflexivity).
  rewrite Hst1. vm_compute in Ht. injection Ht as -> _. vm_compute. reflexivity.
Defined.

(** X6: [estimatePriorityFees] writes the cache only when it has fetched
    samples of which at least one is positive and returns the estimate
    it caches; a cached answer, an estimate that falls back to the
    minimum fee for want of a positive sample, and a failed request all
    leave the cache as it was. *)
Theorem estimatePriorityFees_cache_write (w : World) (cfg : Config) (url : string)
    (st : St) :
  lastPriorityFeeEstimate (snd (estimatePriorityFees w cfg url st))
  = lastPriorityFeeEstimate st
  \/ exists samples v t,
      feesAt w (calls st CFees) = FeeResult samples
      /\ List.filter positiveFee samples <> []
      /\ fst (estimatePriorityFees w cfg url st) = Ret v
      /\ lastPriorityFeeEstimate (snd (estimatePriorityFees w cfg url st))
         = Some {| timestamp := t; cachedFee := v |}.
Proof.
  destruct (cacheFresh w st) eqn:Hfresh.
  - left. unfold cacheFresh in Hfresh.
    destruct (lastPriorityFeeEstimate st) as [c|] eqn:Hc; [|discriminate].
    apply Z.ltb_lt in Hfresh.
    rewrite (estimatePriorityFees_hit w cfg url st c Hc Hfresh). exact Hc.
  - destruct (estimatePriorityFees_fetches w cfg url st Hfresh) as (s1 & Hs1 & Hrun).
    assert (Hk : calls s1 CFees = calls st CFees)
      by (destruct Hs1 as [->| ->]; reflexivity).
    assert (Hc : lastPriorityFeeEstimate s1 = lastPriorityFeeEstimate st)
      by (destruct Hs1 as [->| ->]; reflexivity).
    rewrite Hrun.
    destruct (feesAt w (calls st CFees)) as [m|s|samples] eqn:Hreply.
    + left. unfold tryCatch. rewrite bind_next, Hk, Hreply. exact Hc.
    + left. unfold tryCatch. rewrite bind_next, Hk, Hreply. exact Hc.
    + destruct (List.filter positiveFee samples) as [|f fees] eqn:Hfees.
      * left. unfold tryCatch. rewrite bind_next, Hk, Hreply.
        unfold estimateFromReply.
        change (fun fee => Num.gtb fee Num.zero) with positiveFee.
        rewrite Hfees. exact Hc.
      * right.
        assert (Hne : List.filter positiveFee samples <> []) by (rewrite Hfees; discriminate).
        destruct (estimateFromReply_positive w cfg samples s1 Hne) as (v & _ & Hfetch).
        exists samples, v, (nowAt w (calls s1 CNow)).
        split; [reflexivity|]. split; [exact Hne|].
        assert (Hsame :
                  tryCatch
                    (let! k := next CFees in estimateFromReply w cfg (feesAt w k))
                    (fun e => throw (JsError ("Failed to fetch priority fees: "
                                              +:+ messageOf e))) s1
                  = (Ret v,
                     withCache {| timestamp := nowAt w (calls s1 CNow); cachedFee := v |}
                       (bump CNow (bump CFees s1)))).
        { rewrite <- Hfetch. unfold tryCatch. rewrite !bind_next, Hk, Hreply.
          reflexivity. }
        rewrite Hsame. split; reflexivity.
Qed.

(** X7: whatever goes wrong while the fees are fetched, the caller of
    [estimatePriorityFees] sees one kind of failure: an [Error] whose
    message begins with [Failed to fetch priority fees: ]. *)
Theorem estimatePriorityFees_failure (w : World) (cfg : Config) (url : string)
    (st : St) (e : exn) :
  fst (estimatePriorityFees w cfg url st) = Throw e ->
  exists m, e = JsError ("Failed to fetch priority fees: " +:+ m).
Proof.
  destruct (cacheFresh w st) eqn:Hfresh.
  - unfold cacheFresh in Hfresh.
    destruct (lastPriorityFeeEstimate st) as [c|] eqn:Hc; [|discriminate].
    apply Z.ltb_lt in Hfresh.
    rewrite (estimatePriorityFees_hit w cfg url st c Hc Hfresh). intros H. discriminate H.
  - destruct (estimatePriorityFees_fetches w cfg url st Hfresh) as (s1 & _ & ->).
    unfold tryCatch. rewrite bind_next.
    destruct (feesAt w (calls s1 CFees)) as [m|s|samples]; cbn [estimateFromReply].
    + cbn. intros [= <-]. eauto.
    + cbn. intros [= <-]. eauto.
    + destruct (Nat.eqb _ 0); [intros H; discriminate H|].
      unfold now. run. intros H. discriminate H.
Qed.

(** X7 (witness): the node refuses the request with the status 429. *)
Lemma estimatePriorityFees_failure_witness :
  fst (estimatePriorityFees refusedFeeWorld exampleConfig "https://rpc.example"
         (initialState []))
  = Throw (JsError "Failed to fetch priority fees: Failed to fetch fees: 429")
  /\ exists m,
      JsError "Failed to fetch priority fees: Failed to fetch fees: 429"
      = JsError ("Failed to fetch priority fees: " +:+ m).
Proof.
  split; [reflexivity|].
  apply (estimatePriorityFees_failure refusedFeeWorld exampleConfig
           "https://rpc.example" (initialState [])).
  reflexivity.
Defined.

Lemma max_cases (x y : Num.number) :
  Num.max x y = x \/ Num.max x y = y.
Proof.
  unfold Num.max. destruct (SFcompare x y) as [[| |]|] eqn:Hc; auto.
  - destruct x as [[|]| | |]; auto. destruct y; auto.
  - apply SFcompare_none in Hc. destruct Hc as [Hx|Hy].
    + left. destruct x; try discriminate. reflexivity.
    + right. destruct y; try discriminate. reflexivity.
Qed.

(** X8: the estimate is never a made-up value.  When the fees are
    fetched and the percentile's index lies within the positive samples,
    the estimate is one of the samples that the node reported, or the
    configured minimum fee. *)
Theorem estimatePriorityFees_is_a_sample (w : World) (cfg : Config) (url : string)
    (st : St) (samples : list Num.number) (v : Num.number) :
  cacheFresh w st = false ->
  feesAt w (calls st CFees) = FeeResult samples ->
  percentileInRange cfg (length (List.filter positiveFee samples)) = true ->
  fst (estimatePriorityFees w cfg url st) = Ret v ->
  v = minimumFee cfg \/ (In v samples /\ positiveFee v = true).
Proof.
  intros Hstale Hreply Hrange.
  destruct (estimatePriorityFees_fetches w cfg url st Hstale) as (s1 & Hs1 & ->).
  assert (Hk : calls s1 CFees = calls st CFees) by (destruct Hs1 as [->| ->]; reflexivity).
  destruct (List.filter positiveFee samples) as [|f0 fees0] eqn:Hfees.
  - unfold tryCatch. rewrite bind_next, Hk, Hreply. unfold estimateFromReply.
    change (fun fee => Num.gtb fee Num.zero) with positiveFee. rewrite Hfees.
    cbn. intros [= <-]. left. reflexivity.
  - assert (Hne : List.filter positiveFee samples <> []) by (rewrite Hfees; discriminate).
    destruct (estimateFromReply_positive w cfg samples s1 Hne) as (v' & Hv & Hfetch).
    assert (Hsame :
              tryCatch
                (let! k := next CFees in estimateFromReply w cfg (feesAt w k))
                (fun e => throw (JsError ("Failed to fetch priority fees: "
                                          +:+ messageOf e))) s1
              = (Ret v',
                 withCache {| timestamp := nowAt w (calls s1 CNow); cachedFee := v' |}
                   (bump CNow (bump CFees s1)))).
    { rewrite <- Hfetch. unfold tryCatch. rewrite !bind_next, Hk, Hreply. reflexivity. }
    rewrite Hsame. cbn [fst]. intros [= <-].
    rewrite <- Hfees in Hrange.
    destruct (index_in_range cfg _ Hrange) as (f & Hidx).
    rewrite Hidx in Hv. destruct (max_cases f (minimumFee cfg)) as [Hm|Hm].
    + right. rewrite Hv, Hm. apply index_In, sortFees_In in Hidx.
      apply filter_In in Hidx. exact Hidx.
    + left. rewrite Hv, Hm. reflexivity.
Qed.

(** X8 (witness): from the samples 0, 5, 3, 7 and the percentile 0.9 the
    estimate is the sample 7. *)
Lemma estimatePriorityFees_is_a_sample_witness :
  cacheFresh (feeWorld mixedSamples) (initialState []) = false
  /\ percentileInRange exampleConfig (length (List.filter positiveFee mixedSamples)) = true
  /\ fst (estimatePriorityFees (feeWorld mixedSamples) exampleConfig
            "https://rpc.example" (initialState [])) = Ret (Num.ofZ 7)
  /\ (Num.ofZ 7 = minimumFee exampleConfig
      \/ (In (Num.ofZ 7) mixedSamples /\ positiveFee (Num.ofZ 7) = true)).
Proof.
  split; [reflexivity|]. split; [vm_compute; reflexivity|].
  split; [vm_compute; reflexivity|].
  apply (estimatePriorityFees_is_a_sample (feeWorld mixedSamples) exampleConfig
           "https://rpc.example" (initialState []) mixedSamples (Num.ofZ 7));
    [reflexivity|reflexivity|vm_compute; reflexivity|vm_compute; reflexivity].
Defined.

(* ================================================================== *)
(** ** What [sendRawTransaction] returns *)
(* ================================================================== *)

Lemma sendLoop_no_throw (w : World) (cfg : Config) (conns : list Connection)
    (rawTx : RawTx) (h lastValid : Z) :
  h <= lastValid + 50 ->
  forall fuel st e, fst (sendLoop w cfg conns fuel rawTx h lastValid st) <> Throw e.
Proof.
  intros Hle. apply Z.leb_le in Hle.
  induction fuel as [|fuel IH]; intros st e; [discriminate|].
  cbn [sendLoop]. rewrite Hle.
  rewrite (bind_run _ _ _ _ _ (fanOut_run w conns rawTx st)).
  destruct (Nat.ltb 0 _).
  - destruct (negb _).
    + rewrite bind_sleep. apply IH.
    + discriminate.
  - rewrite bind_sleep. apply IH.
Qed.

(** X9: the validity window is checked against the height read when
    [sendRawTransaction] starts.  If that height is beyond
    [lastValidBlockHeight + 50] the call fails with
    [Maximum blockheight exceeded] before anything is submitted;
    otherwise the call never fails: it returns or keeps retrying. *)
Theorem sendRawTransaction_window (w : World) (cfg : Config)
    (conns : list Connection) (fuel : nat) (rawTx : RawTx) (lastValid : Z)
    (st : St) (h : Z) :
  heightAt w (calls st CHeight) = Some h ->
  (lastValid + 50 < h ->
   sendRawTransaction w cfg conns (S fuel) rawTx lastValid st
   = (Throw (JsError "Maximum blockheight exceeded"), bump CHeight (rotate conns st)))
  /\ (h <= lastValid + 50 ->
      forall e, fst (sendRawTransaction w cfg conns fuel rawTx lastValid st) <> Throw e).
Proof.
  intros Hh. unfold sendRawTransaction. rewrite !bind_getNextConnection, !bind_next.
  change (calls (rotate conns st) CHeight) with (calls st CHeight).
  rewrite Hh, !bind_awaitOr_Some. split.
  - intros Hlt. cbn [sendLoop].
    replace (Z.leb h (lastValid + 50)) with false by (symmetry; apply Z.leb_gt; lia).
    reflexivity.
  - intros Hle e. apply sendLoop_no_throw. exact Hle.
Qed.

(** X9 (witness): the transaction is valid up to height 100 and the
    network is at height 1000. *)
Lemma sendRawTransaction_window_witness :
  heightAt lateWorld (calls (initialState []) CHeight) = Some 1000
  /\ 100 + 50 < 1000
  /\ fst (sendRawTransaction lateWorld exampleConfig exampleConnections 1
            (RawLegacy exampleTx) 100 (initialState []))
     = Throw (JsError "Maximum blockheight exceeded")
  /\ trace (snd (sendRawTransaction lateWorld exampleConfig exampleConnections 1
                   (RawLegacy exampleTx) 100 (initialState []))) = [].
Proof.
  split; [reflexivity|]. split; [lia|].
  destruct (sendRawTransaction_window lateWorld exampleConfig exampleConnections 0
              (RawLegacy exampleTx) 100 (initialState []) 1000 eq_refl) as [H _].
  rewrite H by lia. split; reflexivity.
Defined.

(** The signatures that one fan-out settles on. *)
Lemma agreed_round (w : World) (conns : list Connection) (k : nat) :
  forallb
    (fun sig =>
       bool_decide
         (Some sig
          = head (filter (fun sig => negb (String.eqb sig ""))
                    (omap id (filter is_Some (map (sendAt w k) conns))))))
    (filter (fun sig => negb (String.eqb sig ""))
       (omap id (filter is_Some (map (sendAt w k) conns)))) = true ->
  (0 < length (filter is_Some (map (sendAt w k) conns)))%nat ->
  let r := head (filter (fun sig => negb (String.eqb sig ""))
                   (omap id (filter is_Some (map (sendAt w k) conns)))) in
  (forall c s', In c conns -> sendAt w k c = Some s' -> s' = "" \/ r = Some s')
  /\ match r with
     | Some s => s <> "" /\ exists c, In c conns /\ sendAt w k c = Some s
     | None => exists c, In c conns /\ sendAt w k c = Some ""
     end.
Proof.
  intros Hall Hlen. cbv zeta.
  assert (Hsig : forall s,
             s ∈ filter (fun sig => negb (String.eqb sig ""))
                   (omap id (filter is_Some (map (sendAt w k) conns)))
             <-> s <> "" /\ exists c, In c conns /\ sendAt w k c = Some s).
  { intros s. rewrite list_elem_of_filter, list_elem_of_omap. split.
    - intros [Hne (o & Ho & Hid)]. split.
      + intros ->. exact Hne.
      + apply list_elem_of_filter in Ho as [_ Ho]. apply list_elem_of_In, in_map_iff in Ho.
        destruct Ho as (c & Hc & Hin). exists c. split; [exact Hin|].
        rewrite Hc. exact Hid.
    - intros [Hne (c & Hin & Hc)]. split.
      + destruct (String.eqb_spec s ""); [contradiction|exact I].
      + exists (Some s). split; [|reflexivity].
        apply list_elem_of_filter. split; [eexists; reflexivity|].
        apply list_elem_of_In, in_map_iff. exists c. auto. }
  remember (filter (fun sig => negb (String.eqb sig ""))
              (omap id (filter is_Some (map (sendAt w k) conns)))) as sigs eqn:Hsigs.
  rewrite forallb_forall in Hall. split.
  - intros c s' Hin Hc. destruct (String.eqb_spec s' "") as [He|Hne]; [left; exact He|].
    right. assert (Hs' : s' ∈ sigs) by (apply Hsig; eauto).
    apply list_elem_of_In, Hall, bool_decide_eq_true in Hs'. symmetry. exact Hs'.
  - destruct sigs as [|s sigs'].
    + cbn [head]. destruct (filter is_Some (map (sendAt w k) conns)) as [|o os] eqn:Hf;
        [cbn in Hlen; lia|].
      assert (Ho : o ∈ filter is_Some (map (sendAt w k) conns))
        by (rewrite Hf; left).
      apply list_elem_of_filter in Ho as [[s Hs] Ho]. subst o.
      apply list_elem_of_In, in_map_iff in Ho. destruct Ho as (c & Hc & Hin).
      exists c. split; [exact Hin|]. rewrite Hc. f_equal.
      destruct (String.eqb_spec s "") as [He|Hne]; [exact He|].
      exfalso. assert (Hs : s ∈ @nil string) by (apply Hsig; eauto).
      inversion Hs.
    + cbn [head]. apply Hsig. left.
Qed.

Lemma submissions_fanOut (rawTx : RawTx) (conns : list Connection) (st : St) :
  submissions (trace (fold_left (fun s conn => record (EvSubmit rawTx conn) s) conns st))
  = (length conns + submissions (trace st))%nat
  /\ sleeps (trace (fold_left (fun s conn => record (EvSubmit rawTx conn) s) conns st))
     = sleeps (trace st)
  /\ calls (fold_left (fun s conn => record (EvSubmit rawTx conn) s) conns st)
     = calls st.
Proof.
  revert st. induction conns as [|c conns IH]; intros st; [auto|].
  cbn [fold_left length]. destruct (IH (record (EvSubmit rawTx c) st)) as (H1 & H2 & H3).
  rewrite H1, H2, H3. repeat split. unfold submissions. cbn. lia.
Qed.

Lemma sendLoop_agreed (w : World) (cfg : Config) (conns : list Connection)
    (rawTx : RawTx) (h lastValid : Z) :
  forall fuel st r,
    fst (sendLoop w cfg conns fuel rawTx h lastValid st) = Ret r ->
    exists k,
      (calls st CSend <= k)%nat
      /\ (forall c s', In c conns -> sendAt w k c = Some s' -> s' = "" \/ r = Some s')
      /\ match r with
         | Some s => s <> "" /\ exists c, In c conns /\ sendAt w k c = Some s
         | None => exists c, In c conns /\ sendAt w k c = Some ""
         end.
Proof.
  induction fuel as [|fuel IH]; intros st r; [discriminate|].
  cbn [sendLoop]. destruct (Z.leb h (lastValid + 50)); [|discriminate].
  rewrite (bind_run _ _ _ _ _ (fanOut_run w conns rawTx st)).
  assert (Hnext : forall st0,
             calls (fold_left (fun s conn => record (EvSubmit rawTx conn) s) conns st0) CSend
             = calls st0 CSend).
  { intros st0. destruct (submissions_fanOut rawTx conns st0) as (_ & _ & ->).
    reflexivity. }
  assert (Hrec : forall st0 : St,
             fst (sendLoop w cfg conns fuel rawTx h lastValid
                    (record (EvSleep (retryIntervalMs cfg))
                       (fold_left (fun s conn => record (EvSubmit rawTx conn) s) conns
                          (bump CSend st)))) = Ret r ->
             exists k,
               (calls st CSend <= k)%nat
               /\ (forall c s', In c conns -> sendAt w k c = Some s' ->
                                s' = "" \/ r = Some s')
               /\ match r with
                  | Some s => s <> "" /\ exists c, In c conns /\ sendAt w k c = Some s
                  | None => exists c, In c conns /\ sendAt w k c = Some ""
                  end).
  { intros _ Hret. destruct (IH _ _ Hret) as (k & Hk & Hrest).
    exists k. split; [|exact Hrest].
    cbn [record calls] in Hk. rewrite Hnext in Hk. cbn [bump calls] in Hk.
    destruct (decide (CSend = CSend)); [lia|congruence]. }
  destruct (Nat.ltb 0 _) eqn:Hlen.
  - destruct (negb _) eqn:Hagree.
    + rewrite bind_sleep. apply (Hrec st).
    + cbn [ret fst]. intros [= <-]. exists (calls st CSend). split; [lia|].
      apply agreed_round.
      * apply negb_false_iff in Hagree. exact Hagree.
      * apply Nat.ltb_lt in Hlen. exact Hlen.
  - rewrite bind_sleep. apply (Hrec st).
Qed.

(** X10: [sendRawTransaction] returns only a signature on which the
    endpoints agree.  If it returns, there is a broadcast of this call at
    which every endpoint that accepted the transaction answered with the
    returned signature or with an empty one, and some endpoint answered
    with the returned signature; it returns [undefined] only when some
    endpoint accepted and every acceptance carried an empty signature. *)
Theorem sendRawTransaction_agreed (w : World) (cfg : Config)
    (conns : list Connection) (fuel : nat) (rawTx : RawTx) (lastValid : Z)
    (st : St) (r : option string) :
  fst (sendRawTransaction w cfg conns fuel rawTx lastValid st) = Ret r ->
  exists k,
    (calls st CSend <= k)%nat
    /\ (forall c s', In c conns -> sendAt w k c = Some s' -> s' = "" \/ r = Some s')
    /\ match r with
       | Some s => s <> "" /\ exists c, In c conns /\ sendAt w k c = Some s
       | None => exists c, In c conns /\ sendAt w k c = Some ""
       end.
Proof.
  unfold sendRawTransaction. rewrite bind_getNextConnection, bind_next.
  destruct (heightAt w (calls (rotate conns st) CHeight)) as [h|];
    [|intros H; discriminate H].
  rewrite bind_awaitOr_Some. intros Hret.
  destruct (sendLoop_agreed w cfg conns rawTx h lastValid _ _ _ Hret) as (k & Hk & Hrest).
  exists k. split; [exact Hk|exact Hrest].
Qed.

(** X10 (witness): the third broadcast is accepted under [SIG]. *)
Lemma sendRawTransaction_agreed_witness :
  fst (sendRawTransaction thirdTimeWorld exampleConfig exampleConnections 5
         (RawLegacy exampleTx) 100 (initialState [])) = Ret (Some "SIG")
  /\ exists k c, In c exampleConnections /\ sendAt thirdTimeWorld k c = Some "SIG".
Proof.
  split; [reflexivity|].
  destruct (sendRawTransaction_agreed thirdTimeWorld exampleConfig exampleConnections 5
              (RawLegacy exampleTx) 100 (initialState []) (Some "SIG") eq_refl)
    as (k & _ & _ & _ & c & Hin & Hc).
  exists k, c. split; [exact Hin|exact Hc].
Defined.

Lemma sendLoop_first_acceptance (w : World) (cfg : Config) (conns : list Connection)
    (rawTx : RawTx) (h lastValid : Z) (s : string) :
  conns <> [] ->
  h <= lastValid + 50 ->
  s <> "" ->
  forall (j fuel : nat) (st : St),
    (forall i c, (i < j)%nat -> sendAt w (calls st CSend + i) c = None) ->
    (forall c, sendAt w (calls st CSend + j) c = Some s) ->
    (j < fuel)%nat ->
    exists st',
      sendLoop w cfg conns fuel rawTx h lastValid st = (Ret (Some s), st')
      /\ sleeps (trace st') = (j + sleeps (trace st))%nat
      /\ submissions (trace st') = (S j * length conns + submissions (trace st))%nat.
Proof.
  intros Hne Hle Hs. apply Z.leb_le in Hle.
  induction j as [|j IH]; intros fuel st Hrej Hacc Hfuel;
    (destruct fuel as [|fuel]; [lia|]); cbn [sendLoop]; rewrite Hle;
    rewrite (bind_run _ _ _ _ _ (fanOut_run w conns rawTx st));
    destruct (submissions_fanOut rawTx conns (bump CSend st)) as (Hsub & Hsl & Hcalls).
  - rewrite Nat.add_0_r in Hacc.
    rewrite (map_ext _ (fun _ => Some s) Hacc).
    rewrite accepted_successful, accepted_values, accepted_nonempty by exact Hs.
    replace (Nat.ltb 0 (length (map (fun _ : Connection => Some s) conns))) with true
      by (destruct conns; [congruence|reflexivity]).
    rewrite accepted_agree by (destruct conns; [congruence|reflexivity]).
    cbn [negb]. eexists. split.
    + unfold ret. f_equal. f_equal. destruct conns; [congruence|reflexivity].
    + rewrite Hsub, Hsl. split; [reflexivity|]. cbn [bump trace].
      rewrite Nat.mul_1_l. reflexivity.
  - rewrite no_success
      by (intros c; rewrite <- (Nat.add_0_r (calls st CSend)); apply Hrej; lia).
    cbn [length Nat.ltb Nat.leb]. rewrite bind_sleep.
    set (st1 := record (EvSleep (retryIntervalMs cfg))
                  (fold_left (fun s0 conn => record (EvSubmit rawTx conn) s0) conns
                     (bump CSend st))).
    assert (Hk : calls st1 CSend = S (calls st CSend)).
    { unfold st1. cbn [record calls]. rewrite Hcalls. cbn [bump calls].
      destruct (decide (CSend = CSend)); [reflexivity|congruence]. }
    destruct (IH fuel st1) as (st' & Hrun & Hsl' & Hsub').
    + intros i c Hi. rewrite Hk. replace (S (calls st CSend) + i)%nat
        with (calls st CSend + S i)%nat by lia.
      apply Hrej. lia.
    + intros c. rewrite Hk. replace (S (calls st CSend) + j)%nat
        with (calls st CSend + S j)%nat by lia.
      apply Hacc.
    + lia.
    + exists st'. split; [exact Hrun|].
      rewrite Hsl', Hsub'. unfold st1, sleeps, submissions. cbn [record trace].
      cbn [List.filter isSleep isSubmission length].
      fold (sleeps (trace (fold_left (fun s0 conn => record (EvSubmit rawTx conn) s0)
                             conns (bump CSend st)))).
      fold (submissions (trace (fold_left (fun s0 conn => record (EvSubmit rawTx conn) s0)
                                  conns (bump CSend st)))).
      rewrite Hsl, Hsub. cbn [bump trace].
      fold (sleeps (trace st)). fold (submissions (trace st)).
      split; [lia|]. rewrite (Nat.mul_succ_l (S j)).
      generalize (S j * length conns)%nat (submissions (trace st)).
      intros a b. rewrite <- !Nat.add_assoc. reflexivity.
Qed.

(** X11: a transaction that the endpoints reject at first is submitted
    again until they accept it.  When the height read at the start is
    within the validity window, every endpoint rejects the first [j]
    broadcasts and every endpoint accepts the next one under the
    signature [s], [sendRawTransaction] returns [s] after pausing [j]
    times and submitting [j + 1] times to every endpoint. *)
Theorem sendRawTransaction_first_acceptance (w : World) (cfg : Config)
    (conns : list Connection) (fuel : nat) (rawTx : RawTx) (lastValid : Z)
    (st : St) (h : Z) (j : nat) (s : string) :
  conns <> [] ->
  heightAt w (calls st CHeight) = Some h ->
  h <= lastValid + 50 ->
  (forall i c, (i < j)%nat -> sendAt w (calls st CSend + i) c = None) ->
  s <> "" ->
  (forall c, sendAt w (calls st CSend + j) c = Some s) ->
  (j < fuel)%nat ->
  exists st',
    sendRawTransaction w cfg conns fuel rawTx lastValid st = (Ret (Some s), st')
    /\ sleeps (trace st') = (j + sleeps (trace st))%nat
    /\ submissions (trace st') = (S j * length conns + submissions (trace st))%nat.
Proof.
  intros Hne Hh Hle Hrej Hs Hacc Hfuel.
  unfold sendRawTransaction. rewrite bind_getNextConnection, bind_next.
  change (calls (rotate conns st) CHeight) with (calls st CHeight).
  rewrite Hh, bind_awaitOr_Some.
  apply (sendLoop_first_acceptance w cfg conns rawTx h lastValid s Hne Hle Hs j fuel
           (bump CHeight (rotate conns st))); assumption.
Qed.

(** X11 (witness): two rejected broadcasts, then an accepted one. *)
Lemma sendRawTransaction_first_acceptance_witness :
  exampleConnections <> []
  /\ heightAt thirdTimeWorld (calls (initialState []) CHeight) = Some 10
  /\ 10 <= 100 + 50
  /\ (forall i c, (i < 2)%nat ->
                  sendAt thirdTimeWorld (calls (initialState []) CSend + i) c = None)
  /\ (forall c, sendAt thirdTimeWorld (calls (initialState []) CSend + 2) c = Some "SIG")
  /\ exists st',
      sendRawTransaction thirdTimeWorld exampleConfig exampleConnections 5
        (RawLegacy exampleTx) 100 (initialState []) = (Ret (Some "SIG"), st')
      /\ sleeps (trace st') = 2%nat
      /\ submissions (trace st') = 3%nat.
Proof.
  assert (Hrej : forall i c, (i < 2)%nat ->
                   sendAt thirdTimeWorld (calls (initialState []) CSend + i) c = None).
  { intros i c Hi. destruct i as [|[|i]]; [reflexivity|reflexivity|lia]. }
  split; [discriminate|]. split; [reflexivity|]. split; [lia|].
  split; [exact Hrej|]. split; [reflexivity|].
  apply (sendRawTransaction_first_acceptance thirdTimeWorld exampleConfig
           exampleConnections 5 (RawLegacy exampleTx) 100 (initialState []) 10 2 "SIG");
    [discriminate|reflexivity|lia|exact Hrej|discriminate|reflexivity|lia].
Defined.

(* ================================================================== *)
(** ** What a run records *)
(* ================================================================== *)

Section Appends.

Variable P : Event -> Prop.

Lemma appends_quiet {A} (m : M A) : quiet m -> appends P m.
Proof. intros Hq st. exists []. split; [apply Hq|constructor]. Qed.

Lemma appends_ret {A} (a : A) : appends P (ret a).
Proof. apply appends_quiet, quiet_ret. Qed.

Lemma appends_throw {A} (e : exn) : appends P (@throw A e).
Proof. apply appends_quiet, quiet_throw. Qed.

Lemma appends_stuck {A} : appends P (@stuck A).
Proof. intros st. exists []. split; [reflexivity|constructor]. Qed.

Lemma appends_emit (e : Event) : P e -> appends P (emit e).
Proof. intros He st. exists [e]. split; [reflexivity|]. constructor; [exact He|constructor]. Qed.

Lemma appends_bind {A B} (m : M A) (f : A -> M B) :
  appends P m -> (forall a, appends P (f a)) -> appends P (bind m f).
Proof.
  intros Hm Hf st. unfold bind. destruct (Hm st) as (evs & Ht & Hall).
  destruct (m st) as [[a|e|] st1]; cbn [snd] in *.
  - destruct (Hf a st1) as (evs' & Ht' & Hall').
    exists (evs' ++ evs). split.
    + rewrite Ht', Ht. apply app_assoc.
    + apply Forall_app. auto.
  - exists evs. auto.
  - exists evs. auto.
Qed.

Lemma appends_tryCatch {A} (m : M A) (h : exn -> M A) :
  appends P m -> (forall e, appends P (h e)) -> appends P (tryCatch m h).
Proof.
  intros Hm Hh st. unfold tryCatch. destruct (Hm st) as (evs & Ht & Hall).
  destruct (m st) as [[a|e|] st1]; cbn [snd] in *.
  - exists evs. auto.
  - destruct (Hh e st1) as (evs' & Ht' & Hall').
    exists (evs' ++ evs). split.
    + rewrite Ht', Ht. apply app_assoc.
    + apply Forall_app. auto.
  - exists evs. auto.
Qed.

(** What follows a call that never returns is never run. *)
Lemma appends_fails {A B} (m : M A) (f : A -> M B) :
  appends P m -> fails m -> appends P (bind m f).
Proof.
  intros Hm Hfail st. unfold bind. destruct (Hm st) as (evs & Ht & Hall).
  specialize (Hfail st).
  destruct (m st) as [[a|e|] st1]; cbn [fst snd] in *.
  - exfalso. apply (Hfail a). reflexivity.
  - exists evs. auto.
  - exists evs. auto.
Qed.

End Appends.

Lemma appends_weaken {A} (P Q : Event -> Prop) (m : M A) :
  (forall e, P e -> Q e) -> appends P m -> appends Q m.
Proof.
  intros HPQ Hm st. destruct (Hm st) as (evs & Ht & Hall).
  exists evs. split; [exact Ht|]. eapply Forall_impl; [exact Hall|exact HPQ].
Qed.

Create HintDb appends.
#[local] Hint Resolve @appends_ret @appends_throw @appends_stuck : appends.
#[local] Hint Resolve @quiet_next @quiet_getState @quiet_setCache
  @quiet_getNextConnection @quiet_awaitOr @quiet_now : quiet.

(** Decomposes a sequence into its calls; what remains are the calls
    that record events. *)
Ltac appends :=
  repeat first
    [ solve [auto with appends]
    | solve [apply appends_quiet; auto with quiet]
    | apply appends_bind; [|intros ?]
    | apply appends_tryCatch; [|intros ?]
    | progress cbv zeta
    | match goal with
      | |- appends _ (match ?x with _ => _ end) => destruct x
      | |- appends _ (if ?x then _ else _) => destruct x
      | |- appends _ (let '(_, _) := ?x in _) => destruct x
      end ].

Section Submissions.

Variable P : Event -> Prop.
Hypothesis others : forall e, isSubmission e = false -> P e.

Lemma appends_sleep (ms : Num.number) : appends P (sleep ms).
Proof. apply appends_emit, others. reflexivity. Qed.

Lemma appends_confirmTransaction (w : World) (sig : option string) (c : Connection) :
  appends P (confirmTransaction w sig c).
Proof.
  unfold confirmTransaction. apply appends_bind; [|intros ?].
  - apply appends_emit, others. reflexivity.
  - appends.
Qed.

Lemma appends_confirmEach (w : World) (conns : list Connection) (sig : option string) :
  appends P (confirmEach w conns sig).
Proof.
  induction conns as [|c conns IH]; cbn [confirmEach]; [appends|].
  apply appends_bind; [|intros [s|]; [appends|exact IH]].
  apply appends_tryCatch; [|intros ?; appends].
  apply appends_bind; [apply appends_confirmTransaction|intros ?; appends].
Qed.

Lemma appends_swapConfirmEach (w : World) (conns : list Connection)
    (sig : option string) :
  appends P (swapConfirmEach w conns sig).
Proof.
  induction conns as [|c conns IH]; cbn [swapConfirmEach]; [appends|].
  apply appends_bind; [|intros [s|]; [appends|exact IH]].
  apply appends_tryCatch; [|intros ?; appends].
  apply appends_bind; [apply appends_confirmTransaction|intros ?; appends].
Qed.

Lemma appends_swapAttempts (w : World) (n : nat) (f : Num.number) :
  appends P (swapAttempts w n f).
Proof.
  induction n as [|n IH]; cbn [swapAttempts]; [appends|].
  apply appends_bind; [apply appends_emit, others; reflexivity|intros _].
  apply appends_bind; [appends|intros k].
  destruct (swapAt w k); [appends|].
  apply appends_bind; [|intros _; exact IH].
  destruct (Nat.ltb 0 n); [apply appends_sleep|appends].
Qed.

Lemma appends_getSwapObj (w : World) (cfg : Config) (msgs : ErrorMessages)
    (wallet : Wallet) (quote : QuoteResponse) (f : Num.number) :
  appends P (getSwapObj w cfg msgs wallet quote f).
Proof.
  unfold getSwapObj. cbv zeta.
  apply appends_bind; [apply appends_swapAttempts|intros ?; appends].
Qed.

Lemma appends_simulateTransaction (w : World) (msgs : ErrorMessages)
    (conns : list Connection) (transaction : string) :
  appends P (simulateTransaction w msgs conns transaction).
Proof.
  unfold simulateTransaction. apply appends_bind; [appends|intros _].
  apply appends_bind; [apply appends_emit, others; reflexivity|intros _].
  appends.
Qed.

End Submissions.

Lemma appends_fanOut (w : World) (conns : list Connection) (rawTx : RawTx) :
  appends (submits rawTx) (fanOut w conns rawTx).
Proof.
  unfold fanOut. apply appends_bind; [appends|intros k].
  apply appends_bind; [|intros ?; appends].
  induction conns as [|c conns IH]; cbn [fold_right]; [appends|].
  apply appends_bind; [apply appends_emit; reflexivity|intros _; exact IH].
Qed.

Lemma submits_others (rawTx : RawTx) (e : Event) :
  isSubmission e = false -> submits rawTx e.
Proof. destruct e; try discriminate; intros _; exact I. Qed.

Lemma appends_sendLoop (w : World) (cfg : Config) (conns : list Connection)
    (rawTx : RawTx) (h lastValid : Z) (fuel : nat) :
  appends (submits rawTx) (sendLoop w cfg conns fuel rawTx h lastValid).
Proof.
  induction fuel as [|fuel IH]; cbn [sendLoop]; [appends|].
  destruct (Z.leb h (lastValid + 50)); [|appends].
  apply appends_bind; [apply appends_fanOut|intros results].
  destruct (Nat.ltb 0 _).
  - destruct (negb _); [|appends].
    apply appends_bind; [apply appends_sleep, submits_others|intros _; exact IH].
  - apply appends_bind; [apply appends_sleep, submits_others|intros _; exact IH].
Qed.

Lemma appends_sendRawTransaction (w : World) (cfg : Config)
    (conns : list Connection) (fuel : nat) (rawTx : RawTx) (lastValid : Z) :
  appends (submits rawTx) (sendRawTransaction w cfg conns fuel rawTx lastValid).
Proof.
  unfold sendRawTransaction. apply appends_bind; [appends|intros _].
  apply appends_bind; [appends|intros k].
  apply appends_bind; [appends|intros h]. apply appends_sendLoop.
Qed.

Lemma appends_retryRound (w : World) (cfg : Config) (conns : list Connection)
    (fuel n : nat) (rawTx : RawTx) (lastValid : Z) :
  appends (submits rawTx) (retryRound w cfg conns fuel n rawTx lastValid).
Proof.
  induction n as [|n IH]; cbn [retryRound]; [appends|].
  apply appends_bind; [|intros [s|]; [appends|exact IH]].
  apply appends_tryCatch.
  - apply appends_bind; [apply appends_sendRawTransaction|intros sig].
    apply appends_bind; [apply appends_confirmEach, submits_others|intros [s|]];
      [appends|].
    apply appends_bind; [apply appends_sleep, submits_others|intros _; appends].
  - intros e. apply appends_bind; [apply appends_sleep, submits_others|intros _; appends].
Qed.

Lemma filter_budget_idempotent (l : list Instruction) (i : Instruction) :
  isComputeBudget i = true ->
  filter (fun inst => negb (isComputeBudget inst))
    (filter (fun inst => negb (isComputeBudget inst)) l ++ [i])
  = filter (fun inst => negb (isComputeBudget inst)) l.
Proof.
  intros Hi. rewrite filter_app.
  rewrite filter_cons_False by (rewrite Hi; simpl; tauto).
  rewrite filter_nil, app_nil_r.
  induction l as [|x l IH]; [reflexivity|].
  destruct (isComputeBudget x) eqn:Hx.
  - rewrite filter_cons_False by (rewrite Hx; simpl; tauto). exact IH.
  - rewrite filter_cons_True by (rewrite Hx; exact I).
    rewrite filter_cons_True by (rewrite Hx; exact I). rewrite IH. reflexivity.
Qed.

Lemma appends_feeLoop (w : World) (cfg : Config) (conns : list Connection)
    (tx0 : Transaction) (signers : list string) (fuel steps : nat) :
  forall (f : Num.number) (tx : Transaction),
    filter (fun inst => negb (isComputeBudget inst)) (instructions tx)
    = filter (fun inst => negb (isComputeBudget inst)) (instructions tx0) ->
    appends (carriesOneFee cfg tx0 signers)
      (feeLoop w cfg conns fuel steps f tx signers).
Proof.
  assert (Hothers : forall e, isSubmission e = false -> carriesOneFee cfg tx0 signers e)
    by (intros e; destruct e; try discriminate; intros _; exact I).
  induction steps as [|steps IH]; intros f tx Hbase; cbn [feeLoop]; [appends|].
  destruct (Num.leb f (maxPriorityFee cfg)) eqn:Hle; [|appends].
  apply appends_bind; [appends|intros _].
  apply appends_bind; [appends|intros k].
  apply appends_bind; [appends|intros bh].
  apply appends_bind; [destruct signers; appends|intros _].
  apply appends_bind.
  - eapply appends_weaken; [|apply appends_retryRound].
    intros e. destruct e as [r c| | | | |]; try (intros _; exact I).
    cbn [submits carriesOneFee]. intros ->. exists f.
    cbn [instructions signedBy recentBlockhash]. rewrite Hbase.
    repeat split; [exact Hle|eexists; reflexivity].
  - intros [sig|]; [appends|].
    apply appends_bind; [apply appends_emit, Hothers; reflexivity|intros _].
    apply IH. cbn [instructions].
    rewrite filter_budget_idempotent by reflexivity. exact Hbase.
Qed.

(** X12: whatever transaction [sendAndConfirmTransaction] submits to an
    endpoint is the caller's transaction with its compute-budget
    instructions removed, all of them, and one instruction appended that
    sets the price of a compute unit to the floor of a fee that does not
    exceed [maxPriorityFee]; it is signed by the given signers under a
    blockhash fetched for it.  The other instructions keep their order. *)
Theorem sendAndConfirmTransaction_submits (w : World) (cfg : Config)
    (conns : list Connection) (fuel : nat) (tx : Transaction)
    (signers : list string) (st : St) :
  exists evs,
    trace (snd (sendAndConfirmTransaction w cfg conns fuel tx signers st))
    = evs ++ trace st
    /\ Forall (carriesOneFee cfg tx signers) evs.
Proof.
  revert st. change (appends (carriesOneFee cfg tx signers)
                       (sendAndConfirmTransaction w cfg conns fuel tx signers)).
  unfold sendAndConfirmTransaction.
  apply appends_bind; [appends|intros c].
  apply appends_bind; [unfold rpcEndpoint; appends|intros url].
  apply appends_bind; [apply appends_quiet, quiet_estimatePriorityFees|intros f].
  apply appends_feeLoop. reflexivity.
Qed.

(* ================================================================== *)
(** ** Simulation comes before the broadcast of a swap *)
(* ================================================================== *)

Lemma submissions_appended (evs tr : list Event) :
  Forall notSubmission evs -> submissions (evs ++ tr) = submissions tr.
Proof.
  unfold submissions. induction evs as [|e evs IH]; intros Hall; [reflexivity|].
  inversion Hall as [|e' evs' He Hevs]; subst. cbn [app List.filter].
  unfold notSubmission in He. rewrite He. apply IH. exact Hevs.
Qed.

Lemma appends_submissions {A} (m : M A) (st : St) :
  appends notSubmission m ->
  submissions (trace (snd (m st))) = submissions (trace st).
Proof.
  intros Hm. destruct (Hm st) as (evs & -> & Hall). apply submissions_appended. exact Hall.
Qed.

Lemma simulateTransaction_fails (w : World) (msgs : ErrorMessages)
    (conns : list Connection) (transaction : string) :
  (forall k, simulateAt w k <> SimulateOk) ->
  fails (simulateTransaction w msgs conns transaction).
Proof.
  intros Hsim st a. unfold simulateTransaction. run.
  match goal with
  | |- context [simulateAt w ?k] => specialize (Hsim k); destruct (simulateAt w k)
  end; try discriminate. congruence.
Qed.

Lemma appends_swapFeeLoop (w : World) (cfg : Config) (msgs : ErrorMessages)
    (conns : list Connection) (fuel steps : nat) :
  (forall k, simulateAt w k <> SimulateOk) ->
  forall (f : Num.number) (wallet : Wallet) (quote : QuoteResponse),
    appends notSubmission (swapFeeLoop w cfg msgs conns fuel steps f wallet quote).
Proof.
  intros Hsim. destruct steps as [|steps]; intros f wallet quote; cbn [swapFeeLoop];
    [appends|].
  destruct (Num.leb f (maxPriorityFee cfg)); [|appends].
  apply appends_bind; [apply appends_getSwapObj; intros e He; exact He|intros obj].
  apply appends_fails.
  - apply appends_simulateTransaction. intros e He. exact He.
  - apply simulateTransaction_fails. exact Hsim.
Qed.

Lemma appends_executeSwap (w : World) (cfg : Config) (msgs : ErrorMessages)
    (conns : list Connection) (fuel : nat) (wallet : Wallet) (quote : QuoteResponse) :
  (forall k, simulateAt w k <> SimulateOk) ->
  appends notSubmission (executeSwap w cfg msgs conns fuel wallet quote).
Proof.
  intros Hsim. unfold executeSwap.
  apply appends_bind; [apply appends_quiet, quiet_getGasPrice|intros g].
  apply appends_swapFeeLoop. exact Hsim.
Qed.

(** X13: a swap is simulated before it is broadcast.  In a world where
    no simulation succeeds, neither [executeSwap] nor [trade] submits
    anything to any endpoint, whatever else happens. *)
Theorem swap_simulated_before_broadcast (w : World) (cfg : Config)
    (jcfg : JupiterConfig) (msgs : ErrorMessages) (conns : list Connection)
    (fuel : nat) (st : St) :
  (forall k, simulateAt w k <> SimulateOk) ->
  (forall wallet quote,
      submissions (trace (snd (executeSwap w cfg msgs conns fuel wallet quote st)))
      = submissions (trace st))
  /\ (forall req,
         submissions (trace (snd (trade w cfg jcfg msgs conns fuel req st)))
         = submissions (trace st)).
Proof.
  intros Hsim. split.
  - intros wallet quote. apply appends_submissions, appends_executeSwap. exact Hsim.
  - intros req. rewrite trade_sequence.
    apply (appends_submissions
             (bind (tradePrelude w cfg jcfg msgs conns req)
                (fun x =>
                   bind (checkLimitPrice msgs req (expectedPrice (snd (fst x))))
                     (fun _ =>
                        bind (checkBalance w cfg msgs conns req (fst (fst x)) (snd (fst x)))
                          (fun _ =>
                             tradeExecute w cfg msgs conns fuel req (fst (fst x))
                               (snd (fst x)) (snd x)))))).
    apply appends_bind; [apply appends_quiet, quiet_tradePrelude|intros x].
    apply appends_bind; [apply appends_quiet, quiet_checkLimitPrice|intros _].
    apply appends_bind; [apply appends_quiet, quiet_checkBalance|intros _].
    unfold tradeExecute.
    apply appends_bind; [apply appends_executeSwap; exact Hsim|intros receipt].
    apply appends_bind; [apply appends_quiet, quiet_newDecimal|intros d]. appends.
Qed.

(** X13 (witness): the sale of 1 JUP passes both guards; its simulation
    reports an error, and the trade fails without a submission. *)
Lemma swap_simulated_before_broadcast_witness :
  (forall k, simulateAt failingSimulationWorld k <> SimulateOk)
  /\ thrownCode
       (fst (trade failingSimulationWorld exampleConfig exampleJupiter exampleMessages
               exampleConnections 3 sellOne (initialState exampleTokens)))
     = Some SIMULATION_ERROR_CODE
  /\ submissions
       (trace (snd (trade failingSimulationWorld exampleConfig exampleJupiter
                      exampleMessages exampleConnections 3 sellOne
                      (initialState exampleTokens))))
     = submissions (trace (initialState exampleTokens)).
Proof.
  assert (Hsim : forall k, simulateAt failingSimulationWorld k <> SimulateOk)
    by (intros k; discriminate).
  split; [exact Hsim|]. split; [vm_compute; reflexivity|].
  apply (swap_simulated_before_broadcast failingSimulationWorld exampleConfig
           exampleJupiter exampleMessages exampleConnections 3
           (initialState exampleTokens) Hsim).
Defined.

(* ================================================================== *)
(** ** The attempts of [getSwapObj] *)
(* ================================================================== *)

Lemma swapAttempts_exhausted (w : World) (p : Num.number) (n : nat) :
  forall st,
    (forall i, (i < n)%nat -> swapAt w (calls st CSwap + i) = None) ->
    exists st',
      swapAttempts w n p st = (Ret None, st')
      /\ calls st' CSwap = (calls st CSwap + n)%nat
      /\ sleeps (trace st') = (n - 1 + sleeps (trace st))%nat
      /\ submissions (trace st') = submissions (trace st).
Proof.
  induction n as [|n IH]; intros st Hnone; cbn [swapAttempts].
  - exists st. rewrite Nat.add_0_r. auto.
  - rewrite bind_emit, bind_next.
    change (calls (record (EvSwapBuild p) st) CSwap) with (calls st CSwap).
    pose proof (Hnone O ltac:(lia)) as H0. rewrite Nat.add_0_r in H0. rewrite H0.
    set (st1 := bump CSwap (record (EvSwapBuild p) st)).
    assert (Hk : calls st1 CSwap = S (calls st CSwap)).
    { unfold st1. cbn [bump calls]. destruct (decide (CSwap = CSwap)); [reflexivity|congruence]. }
    destruct n as [|n].
    + cbn [Nat.ltb Nat.leb]. rewrite bind_ret. cbn [swapAttempts].
      exists st1. split; [reflexivity|]. rewrite Hk. split; [lia|]. split; reflexivity.
    + cbn [Nat.ltb Nat.leb]. rewrite bind_sleep.
      set (st2 := record (EvSleep JUPITER_API_RETRY_INTERVAL_MS) st1).
      destruct (IH st2) as (st' & Hrun & Hcalls & Hsl & Hsub).
      * intros i Hi. change (calls st2 CSwap) with (calls st1 CSwap). rewrite Hk.
        replace (S (calls st CSwap) + i)%nat with (calls st CSwap + S i)%nat by lia.
        apply Hnone. lia.
      * exists st'. split; [exact Hrun|].
        change (calls st2 CSwap) with (calls st1 CSwap) in Hcalls.
        rewrite Hcalls, Hk, Hsl, Hsub. split; [lia|]. split; [|reflexivity].
        unfold st2, st1, sleeps. cbn. lia.
Qed.

(** X14: [getSwapObj] asks the aggregator for the swap transaction at
    most five times.  When the five requests all fail it pauses four
    times, once between two requests, and then fails with the status 503
    and the code of a failed route fetch. *)
Theorem getSwapObj_exhausted (w : World) (cfg : Config) (msgs : ErrorMessages)
    (wallet : Wallet) (quote : QuoteResponse) (f : Num.number) (st : St) :
  (forall i, (i < 5)%nat -> swapAt w (calls st CSwap + i) = None) ->
  exists m st',
    getSwapObj w cfg msgs wallet quote f st
    = (Throw (HttpException 503 m SWAP_ROUTE_FETCH_ERROR_CODE), st')
    /\ calls st' CSwap = (calls st CSwap + 5)%nat
    /\ sleeps (trace st') = (4 + sleeps (trace st))%nat.
Proof.
  intros Hnone. unfold getSwapObj. cbv zeta.
  destruct (swapAttempts_exhausted w (if Num.truthy f then f else minPriorityFee cfg)
              JUPITER_API_RETRY_COUNT st Hnone) as (st' & Hrun & Hcalls & Hsl & _).
  rewrite (bind_run _ _ _ _ _ Hrun). eexists _, st'.
  split; [reflexivity|]. split; [exact Hcalls|exact Hsl].
Qed.

(** X14 (witness): an aggregator that never answers. *)
Lemma getSwapObj_exhausted_witness :
  (forall i, (i < 5)%nat -> swapAt silentWorld (calls (initialState []) CSwap + i) = None)
  /\ thrownCode (fst (getSwapObj silentWorld exampleConfig exampleMessages exampleWallet
                        exampleQuote (Num.ofZ 1) (initialState [])))
     = Some SWAP_ROUTE_FETCH_ERROR_CODE
  /\ sleeps (trace (snd (getSwapObj silentWorld exampleConfig exampleMessages
                           exampleWallet exampleQuote (Num.ofZ 1) (initialState []))))
     = 4%nat.
Proof.
  assert (Hnone : forall i, (i < 5)%nat ->
                    swapAt silentWorld (calls (initialState []) CSwap + i) = None)
    by (intros i _; reflexivity).
  split; [exact Hnone|].
  destruct (getSwapObj_exhausted silentWorld exampleConfig exampleMessages exampleWallet
              exampleQuote (Num.ofZ 1) (initialState []) Hnone)
    as (m & st' & Hrun & _ & Hsl).
  rewrite Hrun. split; [reflexivity|exact Hsl].
Defined.

(* ================================================================== *)
(** ** The receipt of a swap *)
(* ================================================================== *)

Section SwapReceipt.

Variable w : World.
Variable cfg : Config.
Variable msgs : ErrorMessages.
Variable connections : list Connection.

Lemma swapConfirmEach_receipt (conns : list Connection) (sig : option string) :
  forall (st st' : St) (receipt : SwapReceipt),
    swapConfirmEach w conns sig st = (Ret (Some receipt), st') ->
    exists d m, confirmedSomewhere w d /\ meta d = Some m /\ receipt = receiptOf sig m.
Proof.
  induction conns as [|c conns IH]; intros st st' receipt; cbn [swapConfirmEach].
  - intros [=].
  - intros H. apply bind_inv_ret in H as (r & s1 & Htry & H).
    destruct r as [receipt'|]; [|eapply IH; exact H].
    injection H as -> ->.
    apply tryCatch_inv_ret in Htry; [|intros e s0; discriminate].
    apply bind_inv_ret in Htry as (res & s2 & Hconf & Hres).
    destruct (confirmed res) eqn:Hc; [|discriminate].
    destruct (txData res) as [d|] eqn:Hd; [|discriminate].
    apply bind_inv_ret in Hres as (m & s3 & Hm & Hres).
    apply awaitOr_inv in Hm as [Hm _]. injection Hres as <- _.
    destruct (confirmTransaction_confirmed w sig c st s2 res Hconf Hc)
      as (status & Hs & He & Hi).
    rewrite Hd in Hs. exists d, m. split; [|split; [exact Hm|reflexivity]].
    exists (calls st CStatus), status. auto.
Qed.

Lemma swapRetryRound_receipt (fuel n : nat) (rawTx : RawTx) (lastValid : Z) :
  forall (st st' : St) (receipt : SwapReceipt),
    swapRetryRound w cfg connections fuel n rawTx lastValid st
    = (Ret (Some receipt), st') ->
    exists d m, confirmedSomewhere w d /\ meta d = Some m
                /\ receipt = receiptOf (signature receipt) m.
Proof.
  induction n as [|n IH]; intros st st' receipt; cbn [swapRetryRound].
  - intros [=].
  - intros H. apply bind_inv_ret in H as (r & s1 & Htry & H).
    destruct r as [receipt'|]; [|eapply IH; exact H].
    injection H as -> ->.
    apply tryCatch_inv_ret in Htry; [|intros e s0; discriminate].
    apply bind_inv_ret in Htry as (sig & s2 & _ & Hc).
    apply bind_inv_ret in Hc as (c & s3 & Hc & Hr).
    destruct c as [receipt''|]; [|discriminate].
    injection Hr as -> _.
    destruct (swapConfirmEach_receipt connections sig s2 s3 receipt Hc)
      as (d & m & Hd & Hm & ->).
    exists d, m. auto.
Qed.

Lemma swapFeeLoop_receipt (fuel steps : nat) :
  forall (f : Num.number) (wallet : Wallet) (quote : QuoteResponse) (st st' : St)
         (receipt : SwapReceipt),
    swapFeeLoop w cfg msgs connections fuel steps f wallet quote st = (Ret receipt, st') ->
    exists d m, confirmedSomewhere w d /\ meta d = Some m
                /\ receipt = receiptOf (signature receipt) m.
Proof.
  induction steps as [|steps IH]; intros f wallet quote st st' receipt;
    cbn [swapFeeLoop]; [intros [=]|].
  destruct (Num.leb f (maxPriorityFee cfg)); [|intros [=]].
  intros H. apply bind_inv_ret in H as (obj & s1 & _ & H).
  apply bind_inv_ret in H as (u & s2 & _ & H).
  apply bind_inv_ret in H as (r & s3 & Hround & H).
  destruct r as [receipt'|].
  - injection H as -> _. eapply swapRetryRound_receipt. exact Hround.
  - apply bind_inv_ret in H as (u' & s4 & _ & H). eapply IH. exact H.
Qed.

End SwapReceipt.

(** X15: [executeSwap] reports a swap only when it is confirmed.  A
    receipt is returned only if some confirmation request found the
    transaction confirmed or finalized, without error, together with its
    data; the receipt's fee and compute units are those of that data, and
    its price per compute unit is the fee less the base fee of 5000
    lamports, divided by the units consumed, in microlamports. *)
Theorem executeSwap_receipt (w : World) (cfg : Config) (msgs : ErrorMessages)
    (conns : list Connection) (fuel : nat) (wallet : Wallet) (quote : QuoteResponse)
    (st : St) (receipt : SwapReceipt) :
  fst (executeSwap w cfg msgs conns fuel wallet quote st) = Ret receipt ->
  exists d m,
    confirmedSomewhere w d
    /\ meta d = Some m
    /\ receipt = receiptOf (signature receipt) m.
Proof.
  intros Hret.
  destruct (executeSwap w cfg msgs conns fuel wallet quote st) as [r st'] eqn:H.
  cbn [fst] in Hret. subst r. unfold executeSwap in H.
  apply bind_inv_ret in H as (g & s1 & _ & H).
  eapply swapFeeLoop_receipt. exact H.
Qed.

(** X15 (witness): a swap confirmed at the first request, for a fee of
    5500 lamports and 50000 compute units: 10000 microlamports per
    unit. *)
Lemma executeSwap_receipt_witness :
  fst (executeSwap confirmingWorld exampleConfig exampleMessages exampleConnections 3
         exampleWallet exampleQuote (initialState []))
  = Ret (receiptOf (Some "SIG") exampleMeta)
  /\ priorityFeePrice (receiptOf (Some "SIG") exampleMeta) = Num.ofZ 10000
  /\ exists d m,
      confirmedSomewhere confirmingWorld d
      /\ meta d = Some m
      /\ receiptOf (Some "SIG") exampleMeta = receiptOf (Some "SIG") m.
Proof.
  split; [vm_compute; reflexivity|]. split; [vm_compute; reflexivity|].
  apply (executeSwap_receipt confirmingWorld exampleConfig exampleMessages
           exampleConnections 3 exampleWallet exampleQuote (initialState [])
           (receiptOf (Some "SIG") exampleMeta)).
  vm_compute. reflexivity.
Defined.

(* ================================================================== *)
(** ** The ceiling of the fee *)
(* ================================================================== *)

(** X16: the fee ceiling is checked before anything is sent.  When the
    first estimate is not at most [maxPriorityFee] (it is larger, or it
    is not a number), [sendAndConfirmTransaction] fails with the message
    of the reached maximum and has submitted nothing, fetched no
    blockhash and paused for nothing. *)
Theorem sendAndConfirmTransaction_above_ceiling (w : World) (cfg : Config)
    (conns : list Connection) (fuel : nat) (tx : Transaction)
    (signers : list string) (st st1 : St) (c : Connection) (v : Num.number) :
  conns !! currentIndex st = Some c ->
  estimatePriorityFees w cfg c (rotate conns st) = (Ret v, st1) ->
  Num.leb v (maxPriorityFee cfg) = false ->
  sendAndConfirmTransaction w cfg conns (S fuel) tx signers st
  = (Throw (JsError (maxFeeMessage cfg)), st1)
  /\ trace st1 = trace st
  /\ calls st1 CBlockhash = calls st CBlockhash.
Proof.
  intros Hc Hest Hle. unfold sendAndConfirmTransaction, rpcEndpoint.
  rewrite bind_getNextConnection, Hc, bind_awaitOr_Some.
  rewrite (bind_run _ _ _ _ _ Hest). cbn [feeLoop]. rewrite Hle.
  split; [reflexivity|].
  pose proof (quiet_estimatePriorityFees w cfg c (rotate conns st)) as Hq.
  rewrite Hest in Hq. cbn [snd] in Hq. split; [exact Hq|].
  destruct (cacheFresh w (rotate conns st)) eqn:Hfresh.
  - unfold cacheFresh in Hfresh.
    destruct (lastPriorityFeeEstimate (rotate conns st)) as [ce|] eqn:Hce; [|discriminate].
    apply Z.ltb_lt in Hfresh.
    rewrite (estimatePriorityFees_hit w cfg c _ ce Hce Hfresh) in Hest.
    injection Hest as _ <-. reflexivity.
  - destruct (estimatePriorityFees_fetches w cfg c _ Hfresh) as (s1 & Hs1 & Hrun).
    rewrite Hrun in Hest. unfold tryCatch in Hest. rewrite bind_next in Hest.
    assert (Hb : calls s1 CBlockhash = calls st CBlockhash)
      by (destruct Hs1 as [->| ->]; reflexivity).
    destruct (feesAt w (calls s1 CFees)) as [m|s|samples]; cbn [estimateFromReply] in Hest;
      try discriminate.
    destruct (Nat.eqb _ 0).
    + injection Hest as _ <-. exact Hb.
    + revert Hest. unfold now. run. intros [= _ <-]. exact Hb.
Qed.

(** X16 (witness): the estimate is 1 microlamport and the ceiling is 0. *)
Lemma sendAndConfirmTransaction_above_ceiling_witness :
  fst (sendAndConfirmTransaction acceptingWorld cappedConfig exampleConnections 3
         exampleTx exampleSigners (initialState []))
  = Throw (JsError (maxFeeMessage cappedConfig))
  /\ trace (snd (sendAndConfirmTransaction acceptingWorld cappedConfig exampleConnections
                   3 exampleTx exampleSigners (initialState []))) = [].
Proof.
  destruct (sendAndConfirmTransaction_above_ceiling acceptingWorld cappedConfig
              exampleConnections 2 exampleTx exampleSigners (initialState [])
              (snd (estimatePriorityFees acceptingWorld cappedConfig "https://rpc.example"
                      (rotate exampleConnections (initialState []))))
              "https://rpc.example" (Num.ofZ 1) eq_refl)
    as (Hrun & Htrace & _).
  - vm_compute. reflexivity.
  - vm_compute. reflexivity.
  - rewrite Hrun. split; [reflexivity|exact Htrace].
Defined.

(* ================================================================== *)
(** ** The balances of a wallet *)
(* ================================================================== *)

Lemma tokenDefsOf_requested (up : option (list string)) (tokenList : list TokenInfo)
    (addr sym : string) (dec : Z) :
  tokenDefsOf up tokenList !! addr = Some (sym, dec) ->
  exists t, In t tokenList /\ address t = addr /\ symbol t = sym /\ decimals t = dec
            /\ includesUpper up (toUpperCase (symbol t)) = true.
Proof.
  unfold tokenDefsOf.
  assert (H : forall acc : gmap string (string * Z),
             fold_left
               (fun acc token =>
                  if includesUpper up (toUpperCase (symbol token))
                  then <[address token := (symbol token, decimals token)]> acc
                  else acc) tokenList acc !! addr = Some (sym, dec) ->
             (exists t, In t tokenList /\ address t = addr /\ symbol t = sym
                        /\ decimals t = dec
                        /\ includesUpper up (toUpperCase (symbol t)) = true)
             \/ acc !! addr = Some (sym, dec)).
  { induction tokenList as [|t l IH]; intros acc Hl; simpl in Hl; [auto|].
    destruct (IH _ Hl) as [(t' & Hin & Ha & Hs & Hd & Hr)|Hacc].
    - left. exists t'. simpl. auto.
    - destruct (includesUpper up (toUpperCase (symbol t))) eqn:Hreq; [|auto].
      destruct (decide (address t = addr)) as [Heq|Hne].
      + rewrite Heq, lookup_insert_eq in Hacc. injection Hacc as Hs Hd.
        left. exists t. simpl. auto.
      + rewrite lookup_insert_ne in Hacc by exact Hne. auto. }
  intros Hl. destruct (H ∅ Hl) as [Hex|Hempty]; [exact Hex|].
  rewrite lookup_empty in Hempty. discriminate.
Qed.

Lemma processAccounts_keys (tokenDefs : gmap string (string * Z))
    (accounts : list TokenAccount) (s : string) :
  forall balances : gmap string Num.number,
    is_Some (processAccounts tokenDefs accounts balances !! s) ->
    is_Some (balances !! s)
    \/ exists acc d, In acc accounts /\ tokenDefs !! mint acc = Some (s, d).
Proof.
  unfold processAccounts. induction accounts as [|acc l IH]; intros bal Hs;
    [left; exact Hs|].
  simpl in Hs. destruct (IH _ Hs) as [Hb|(acc' & d & Hin & Hd)].
  - destruct (tokenDefs !! mint acc) as [[s' d]|] eqn:Hd; [|left; exact Hb].
    destruct (decide (s' = s)) as [->|Hne].
    + right. exists acc, d. split; [left; reflexivity|exact Hd].
    + rewrite lookup_insert_ne in Hb by exact Hne. left. exact Hb.
  - right. exists acc', d. split; [right; exact Hin|exact Hd].
Qed.

Lemma processAccounts_keeps (tokenDefs : gmap string (string * Z))
    (accounts : list TokenAccount) (s : string) :
  forall balances : gmap string Num.number,
    is_Some (balances !! s) ->
    is_Some (processAccounts tokenDefs accounts balances !! s).
Proof.
  unfold processAccounts. induction accounts as [|acc l IH]; intros bal Hs;
    [exact Hs|].
  simpl. apply IH. destruct (tokenDefs !! mint acc) as [[s' d]|]; [|exact Hs].
  destruct (decide (s' = s)) as [->|Hne].
  - rewrite lookup_insert_eq. eexists. reflexivity.
  - rewrite lookup_insert_ne by exact Hne. exact Hs.
Qed.

(** X17: [getBalance] answers for what was asked, and for nothing else.
    Every symbol that has a balance in the result was requested, in
    whatever case; it is [SOL], or it is the symbol, as the token list
    spells it, of a listed token of which the wallet holds a token
    account.  If [SOL] was requested, in whatever case, or no list of
    symbols was given, the result has a balance for [SOL]. *)
Theorem getBalance_keys (w : World) (cfg : Config) (conns : list Connection) (kp : Keypair)
    (symbols : option (list string)) (st : St) (balance : gmap string Num.number) :
  fst (getBalance w cfg conns kp symbols st) = Ret balance ->
  (forall s, is_Some (balance !! s) ->
             requested symbols s = true
             /\ (s = "SOL"
                 \/ exists t acc accounts tokenList,
                     tokenListAt w (calls st CTokenList) = Some tokenList
                     /\ tokenAccountsAt w (calls st CTokenAccounts) = Some accounts
                     /\ In t tokenList /\ In acc accounts
                     /\ symbol t = s /\ address t = mint acc))
  /\ (requested symbols "SOL" = true -> is_Some (balance !! "SOL")).
Proof.
  intros Hret.
  destruct (getBalance_returns w cfg conns kp symbols st balance Hret)
    as (accounts & resolved & tokenList & native & Hacc & Hlist & Hkept & Hnative & ->).
  split.
  - intros s Hs. apply processAccounts_keys in Hs as [Hs|(acc & d & Hin & Hd)].
    + destruct (requested symbols "SOL") eqn:Hreq.
      * destruct Hnative as (v & _ & ->).
        destruct (decide (s = "SOL")) as [->|Hne]; [auto|].
        rewrite lookup_insert_ne in Hs by congruence.
        rewrite lookup_empty in Hs. destruct Hs as [x Hx]. discriminate.
      * subst native. rewrite lookup_empty in Hs. destruct Hs as [x Hx]. discriminate.
    + apply tokenDefsOf_requested in Hd as (t & Ht & Ha & Hsym & _ & Hreq).
      split; [unfold requested; rewrite <- Hsym; exact Hreq|].
      right. exists t, acc, accounts, resolved. repeat split; try assumption.
      eapply filterByClusterSlug_In; [exact Hkept|exact Ht].
  - intros Hreq. rewrite Hreq in Hnative. destruct Hnative as (v & _ & ->).
    apply processAccounts_keeps. rewrite lookup_insert_eq. eexists. reflexivity.
Qed.

(** X17 (witness): asked for [jup], the result has the balance of JUP
    under the list's spelling, and none for SOL or USDC. *)
Lemma getBalance_keys_witness :
  exists balance,
    fst (getBalance tradeWorld exampleConfig exampleConnections {| publicKey := "payer" |}
           (Some ["jup"]) (initialState exampleTokens)) = Ret balance
    /\ balance !! "JUP" = Some (Num.ofZ 5000)
    /\ balance !! "SOL" = None
    /\ forall s, is_Some (balance !! s) -> requested (Some ["jup"]) s = true.
Proof.
  eexists. split; [vm_compute; reflexivity|].
  split; [vm_compute; reflexivity|]. split; [vm_compute; reflexivity|].
  intros s Hs.
  destruct (getBalance_keys tradeWorld exampleConfig exampleConnections {| publicKey := "payer" |}
              (Some ["jup"]) (initialState exampleTokens) _ eq_refl) as [Hkeys _].
  destruct (Hkeys s Hs) as [Hreq _]. exact Hreq.
Defined.





(** X19: the native balance is asked of the node only when [SOL] is
    among the requested symbols: a request for other symbols leaves the
    number of native-balance requests as it was, whatever the outcome. *)
Theorem getBalance_native_on_request (w : World) (cfg : Config)
    (conns : list Connection) (kp : Keypair) (symbols : list string) (st : St) :
  requested (Some symbols) "SOL" = false ->
  calls (snd (getBalance w cfg conns kp (Some symbols) st)) CNativeBalance
  = calls st CNativeBalance.
Proof.
  unfold requested. rewrite toUpperCase_SOL. intros Hreq.
  unfold getBalance, getTokenList. rewrite Hreq. run.
  destruct (tokenAccountsAt w _) as [accounts|]; run; [|reflexivity].
  destruct (tokenListAt w _) as [tokenList|]; run; [|reflexivity].
  destruct (Resolver.filterByClusterSlug _ _) as [kept|]; run; reflexivity.
Qed.

(** X19 (witness): a request for USDC and JUP. *)
Lemma getBalance_native_on_request_witness :
  requested (Some ["usdc"; "JUP"]) "SOL" = false
  /\ calls (snd (getBalance tradeWorld exampleConfig exampleConnections {| publicKey := "payer" |}
                   (Some ["usdc"; "JUP"]) (initialState exampleTokens))) CNativeBalance
     = O.
Proof.
  split; [reflexivity|].
  apply (getBalance_native_on_request tradeWorld exampleConfig exampleConnections
           {| publicKey := "payer" |} ["usdc"; "JUP"] (initialState exampleTokens)).
  reflexivity.
Defined.

(* ================================================================== *)
(** ** The failures of a price request *)
(* ================================================================== *)

(** X20: a price request for a symbol under which the symbol table has
    nothing.  If the symbol is not the name of a member that every
    object inherits, the request fails before anything is asked of the
    network, with the status 500, the code of a failed price and a
    message that names the missing token; the base token is looked at
    first.  If the base symbol is such a name, the inherited member
    passes for the token; the quote is then asked for the symbol
    [undefined], and with no token of that symbol the request fails with
    [Invalid token symbols], reported as a failed price twice over.  All
    this for a table that holds no entry under [__proto__]. *)
Theorem price_unknown_symbol (w : World) (cfg : Config) (jcfg : JupiterConfig)
    (msgs : ErrorMessages) (conns : list Connection) (req : PriceRequest) (st : St) :
  ready st = true ->
  tokenMap st !! "__proto__" = None ->
  (tokenMap st !! pBase req = None ->
   Resolver.inheritedName (pBase req) = false ->
   price w cfg jcfg msgs conns req st
   = (Throw (HttpException 500
               (PRICE_FAILED_ERROR_MESSAGE msgs
                +:+ ("Base token " +:+ pBase req +:+ " not found in token list"))
               PRICE_FAILED_ERROR_CODE),
      bump CNow st))
  /\ (is_Some (tokenMap st !! pBase req) ->
      tokenMap st !! pQuote req = None ->
      Resolver.inheritedName (pQuote req) = false ->
      price w cfg jcfg msgs conns req st
      = (Throw (HttpException 500
                  (PRICE_FAILED_ERROR_MESSAGE msgs
                   +:+ ("Quote token " +:+ pQuote req +:+ " not found in token list"))
                  PRICE_FAILED_ERROR_CODE),
         bump CNow st))
  /\ (tokenMap st !! pBase req = None ->
      Resolver.inheritedName (pBase req) = true ->
      is_Some (tokenMap st !! pQuote req) ->
      tokenMap st !! "undefined" = None ->
      price w cfg jcfg msgs conns req st
      = (Throw (HttpException 500
                  (PRICE_FAILED_ERROR_MESSAGE msgs
                   +:+ (PRICE_FAILED_ERROR_MESSAGE msgs +:+ "Invalid token symbols"))
                  PRICE_FAILED_ERROR_CODE),
         bump CNow st)).
Proof.
  intros Hready Hproto. unfold price, now. rewrite bind_assoc, bind_next, bind_ret.
  destruct (getTradeInfo_unknown w cfg jcfg msgs conns (pBase req) (pQuote req)
              (Num.ofString (pAmount req)) (pSide req) (pAllowedSlippage req)
              (bump CNow st) Hready) as [Hbase Hquote].
  cbn [bump tokenMap] in Hbase, Hquote.
  split; [|split].
  - intros Hb Hname.
    rewrite (member_absent _ _ Hproto Hb), Hname in Hbase. specialize (Hbase eq_refl).
    rewrite (bind_run_throw _ _ _ _ _ (tryCatch_run_throw _ (priceFailed msgs) _ _ _ Hbase)).
    reflexivity.
  - intros [tb Hb] Hq Hname.
    rewrite (member_absent _ _ Hproto Hq), Hname in Hquote.
    rewrite (proj2 (member_entry _ _ _) Hb) in Hquote.
    specialize (Hquote ltac:(eexists; reflexivity) eq_refl).
    rewrite (bind_run_throw _ _ _ _ _ (tryCatch_run_throw _ (priceFailed msgs) _ _ _ Hquote)).
    reflexivity.
  - intros Hb Hname [tq Hq] Hundefined.
    assert (Hinfo :
              getTradeInfo w cfg jcfg msgs conns (pBase req) (pQuote req)
                (Num.ofString (pAmount req)) (pSide req) (pAllowedSlippage req)
                (bump CNow st)
              = (Throw (HttpException 500
                          (PRICE_FAILED_ERROR_MESSAGE msgs +:+ "Invalid token symbols")
                          PRICE_FAILED_ERROR_CODE), bump CNow st)).
    { unfold getTradeInfo.
      rewrite (bind_run _ _ _ _ _ (getTokenForSymbol_ready (pBase req) (bump CNow st) Hready)).
      rewrite (bind_run _ _ _ _ _ (getTokenForSymbol_ready (pQuote req) (bump CNow st) Hready)).
      cbn [bump tokenMap].
      rewrite (member_absent _ _ Hproto Hb), Hname.
      rewrite (proj2 (member_entry _ _ _) Hq).
      cbn [Resolver.truthyValue Resolver.truthyMember]. rewrite !bind_awaitOr_Some.
      cbv zeta. cbn [Resolver.symbolKey].
      assert (Hq' : forall i o a pct,
                 (i = "undefined" \/ o = "undefined") ->
                 getQuote w i o a pct false false ExactIn (bump CNow st)
                 = (Throw (JsError "Invalid token symbols"), bump CNow st)).
      { intros i o a pct Hio. unfold getQuote.
        rewrite (bind_run _ _ _ _ _ (getTokenForSymbol_ready i (bump CNow st) Hready)).
        rewrite (bind_run _ _ _ _ _ (getTokenForSymbol_ready o (bump CNow st) Hready)).
        cbn [bump tokenMap].
        assert (Hu : Resolver.member (tokenMap st) "undefined" = None)
          by (rewrite (member_absent _ _ Hproto Hundefined); reflexivity).
        destruct Hio as [-> | ->]; rewrite Hu.
        - reflexivity.
        - destruct (Resolver.truthyValue (Resolver.member (tokenMap st) i));
            reflexivity. }
      destruct (pSide req).
      - rewrite (tryCatch_run_throw _ _ _ _ _
                   (bind_run_throw _ _ _ _ _ (Hq' _ _ _ _ (or_intror eq_refl)))).
        reflexivity.
      - rewrite (tryCatch_run_throw _ _ _ _ _
                   (bind_run_throw _ _ _ _ _ (Hq' _ _ _ _ (or_introl eq_refl)))).
        reflexivity. }
    rewrite (bind_run_throw _ _ _ _ _ (tryCatch_run_throw _ (priceFailed msgs) _ _ _ Hinfo)).
    reflexivity.
Qed.

(** X20 (witness): BONK is not among the example tokens; [constructor]
    is the name of a member that the symbol table inherits. *)
Lemma price_unknown_symbol_witness :
  ready (initialState exampleTokens) = true
  /\ tokenMap (initialState exampleTokens) !! "__proto__" = None
  /\ tokenMap (initialState exampleTokens) !! pBase priceOfUnknown = None
  /\ Resolver.inheritedName (pBase priceOfUnknown) = false
  /\ price tradeWorld exampleConfig exampleJupiter exampleMessages exampleConnections
       priceOfUnknown (initialState exampleTokens)
     = (Throw (HttpException 500
                 "Failed to get price: Base token BONK not found in token list"
                 PRICE_FAILED_ERROR_CODE),
        bump CNow (initialState exampleTokens))
  /\ price tradeWorld exampleConfig exampleJupiter exampleMessages exampleConnections
       priceOfInherited (initialState exampleTokens)
     = (Throw (HttpException 500
                 "Failed to get price: Failed to get price: Invalid token symbols"
                 PRICE_FAILED_ERROR_CODE),
        bump CNow (initialState exampleTokens)).
Proof.
  split; [reflexivity|]. split; [vm_compute; reflexivity|].
  split; [vm_compute; reflexivity|]. split; [reflexivity|].
  destruct (price_unknown_symbol tradeWorld exampleConfig exampleJupiter exampleMessages
              exampleConnections priceOfUnknown (initialState exampleTokens) eq_refl)
    as [H _]; [vm_compute; reflexivity|].
  destruct (price_unknown_symbol tradeWorld exampleConfig exampleJupiter exampleMessages
              exampleConnections priceOfInherited (initialState exampleTokens) eq_refl)
    as (_ & _ & H'); [vm_compute; reflexivity|].
  split.
  - rewrite H by (vm_compute; reflexivity). reflexivity.
  - rewrite H'; [reflexivity|vm_compute; reflexivity|reflexivity
                |eexists; vm_compute; reflexivity|vm_compute; reflexivity].
Defined.

(** X21: a price request fails in one of two ways only: with the status
    500 and the code of a failed price, the message being that of the
    underlying failure after the price-failure prefix, or with the error
    that [Decimal] raises for an amount it does not accept. *)
Theorem price_failure (w : World) (cfg : Config) (jcfg : JupiterConfig)
    (msgs : ErrorMessages) (conns : list Connection) (req : PriceRequest) (st : St)
    (e : exn) :
  fst (price w cfg jcfg msgs conns req st) = Throw e ->
  priceFailure msgs e.
Proof.
  revert st e. change (throwsOnly (priceFailure msgs) (price w cfg jcfg msgs conns req)).
  unfold price. apply throwsOnly_bind; [unfold now; throws|intros t].
  apply throwsOnly_bind.
  - apply throwsOnly_tryCatch. intros e. unfold priceFailed.
    apply throwsOnly_throw. right. eexists. reflexivity.
  - intros [ti q]. apply throwsOnly_bind; [|intros d; apply throwsOnly_ret].
    unfold newDecimal. apply throwsOnly_awaitOr. left. reflexivity.
Qed.

(** X21 (witness): the same request for an unlisted token. *)
Lemma price_failure_witness :
  fst (price tradeWorld exampleConfig exampleJupiter exampleMessages exampleConnections
         priceOfUnknown (initialState exampleTokens))
  = Throw (HttpException 500
             "Failed to get price: Base token BONK not found in token list"
             PRICE_FAILED_ERROR_CODE)
  /\ priceFailure exampleMessages
       (HttpException 500
          "Failed to get price: Base token BONK not found in token list"
          PRICE_FAILED_ERROR_CODE).
Proof.
  split; [vm_compute; reflexivity|].
  apply (price_failure tradeWorld exampleConfig exampleJupiter exampleMessages
           exampleConnections priceOfUnknown (initialState exampleTokens)).
  vm_compute. reflexivity.
Defined.

(* ================================================================== *)
(** ** The quote that a trade asks for *)
(* ================================================================== *)

(** The request that [getQuote] sends, when it returns. *)
Lemma getQuote_request (w : World) (i o : string) (a pct : Num.number) (d l : bool)
    (mode : SwapMode) (st st' : St) (quote : QuoteResponse) :
  getQuote w i o a pct d l mode st = (Ret quote, st') ->
  exists ti to,
    tokenMap st !! i = Some ti /\ tokenMap st !! o = Some to
    /\ quoteAt w (calls st CQuote)
         {| inputMint := address ti;
            outputMint := address to;
            quoteAmount :=
              Num.floor (Num.mul a (Num.pow10 (match mode with
                                               | ExactOut => decimals to
                                               | ExactIn => decimals ti
                                               end)));
            slippageBps :=
              if Num.truthy pct then Num.round (Num.mul pct (Num.ofZ 100))
              else Num.zero;
            onlyDirectRoutes := d;
            asLegacyTransaction := l;
            swapMode := mode |}
       = Some quote.
Proof.
  unfold getQuote. intros H.
  apply bind_inv_ret in H as (ti & s1 & H1 & H).
  apply bind_inv_ret in H as (to & s2 & H2 & H).
  apply getTokenForSymbol_inv in H1 as [-> ->].
  apply getTokenForSymbol_inv in H2 as [-> ->].
  destruct (Resolver.truthyValue (Resolver.member (tokenMap st) i)) as [mi|] eqn:Hi;
    [|discriminate].
  destruct (Resolver.truthyValue (Resolver.member (tokenMap st) o)) as [mo|] eqn:Ho;
    [|destruct mi; discriminate].
  destruct mi as [ti|?|?|?]; try discriminate.
  destruct mo as [to|?|?|?]; try discriminate.
  apply truthyValue_inv, member_entry_inv in Hi.
  apply truthyValue_inv, member_entry_inv in Ho.
  cbv zeta in H. rewrite bind_next in H.
  apply awaitOr_inv in H as [H _]. exists ti, to. auto.
Qed.

Lemma positive_or_not (x : Num.number) :
  (Num.isNaN x || Num.leb x Num.zero)%bool = negb (Num.gtb x Num.zero).
Proof.
  unfold Num.leb, Num.gtb, Num.zero, SFleb, SFltb.
  destruct x as [[|]|[|]| |[|] m e]; reflexivity.
Qed.

Lemma positive_truthy (x : Num.number) :
  Num.gtb x Num.zero = true -> Num.truthy x = true.
Proof. destruct x as [[|]|[|]| |[|] m e]; try reflexivity; discriminate. Qed.

Lemma loadTokens_keyed (l : list TokenInfo) (m : gmap string TokenInfo) :
  keyedBySymbol m -> keyedBySymbol (Resolver.loadTokens l m).
Proof.
  revert m. induction l as [|u l IH]; intros m Hm; [exact Hm|].
  cbn [Resolver.loadTokens fold_left]. apply IH. intros s t.
  destruct (decide (symbol u = s)) as [<-|Hne].
  - rewrite lookup_insert_eq. intros [= <-]. reflexivity.
  - rewrite lookup_insert_ne by exact Hne. apply Hm.
Qed.

Lemma initialState_keyed (l : list TokenInfo) : keyedBySymbol (tokenMap (initialState l)).
Proof. apply loadTokens_keyed. intros s t H. rewrite lookup_empty in H. discriminate. Qed.

(** What [getTradeInfo] asks of the aggregator, when it returns. *)
Lemma getTradeInfo_request (w : World) (cfg : Config) (jcfg : JupiterConfig)
    (msgs : ErrorMessages) (conns : list Connection) (b q : string) (a : Num.number)
    (s : Side) (sl : option string) (st st' : St) (ti : TradeInfo)
    (quote : QuoteResponse) :
  keyedBySymbol (tokenMap st) ->
  getTradeInfo w cfg jcfg msgs conns b q a s sl st = (Ret (ti, quote), st') ->
  quoteAt w (calls st CQuote)
    {| inputMint := address (inputToken s ti);
       outputMint := address (outputToken s ti);
       quoteAmount := getRequestAmount a (decimals (inputToken s ti));
       slippageBps :=
         Num.round
           (Num.mul
              (if Num.gtb (if truthyString sl then Num.ofString (default "" sl)
                           else getSlippagePct jcfg) Num.zero
               then (if truthyString sl then Num.ofString (default "" sl)
                     else getSlippagePct jcfg)
               else Num.ofZ 1)
              (Num.ofZ 100));
       onlyDirectRoutes := false;
       asLegacyTransaction := false;
       swapMode := ExactIn |}
  = Some quote.
Proof.
  intros Hkeyed. unfold getTradeInfo. intros H.
  apply bind_inv_ret in H as (bt & s1 & H1 & H).
  apply bind_inv_ret in H as (qt & s2 & H2 & H).
  apply bind_inv_ret in H as (tb & s3 & H3 & H).
  apply bind_inv_ret in H as (tq & s4 & H4 & H).
  apply getTokenForSymbol_inv in H1 as [-> ->].
  apply getTokenForSymbol_inv in H2 as [-> ->].
  apply awaitOr_inv in H3 as [Hb ->]. apply awaitOr_inv in H4 as [Hq ->].
  apply truthyValue_inv, member_entry_inv in Hb.
  apply truthyValue_inv, member_entry_inv in Hq.
  cbv zeta in H.
  destruct tb as [tb|nb|nb|sb];
    try (exfalso; exact (getTradeInfo_no_entry w cfg msgs conns _ _ _ _ H)).
  destruct tq as [tq|nq|nq|sq];
    try (exfalso; exact (getTradeInfo_no_entry w cfg msgs conns _ _ _ _ H)).
  cbn in Hb, Hq.
  apply tryCatch_inv_ret in H; [|intros e s0; apply priceFailed_throws].
  apply bind_inv_ret in H as (quote' & s5 & Hquote & H).
  apply bind_inv_ret in H as (gas & s6 & _ & H).
  injection H as <- <- _.
  rewrite positive_or_not in Hquote.
  set (given := if truthyString sl then Num.ofString (default "" sl)
                else getSlippagePct jcfg) in *.
  assert (Hpos : Num.gtb (if Num.gtb given Num.zero then given else Num.ofZ 1) Num.zero
                 = true).
  { destruct (Num.gtb given Num.zero) eqn:Hg; [exact Hg|reflexivity]. }
  replace (if negb (Num.gtb given Num.zero) then Num.ofZ 1 else given)
    with (if Num.gtb given Num.zero then given else Num.ofZ 1) in Hquote
    by (destruct (Num.gtb given Num.zero); reflexivity).
  pose proof (Hkeyed _ _ Hb) as Hsb. pose proof (Hkeyed _ _ Hq) as Hsq.
  destruct s; apply getQuote_request in Hquote as (ti' & to' & Hi & Ho & Hq');
    rewrite (positive_truthy _ Hpos) in Hq';
    cbn [inputToken outputToken baseToken quoteToken];
    rewrite Hsb in *; rewrite Hsq in *;
    rewrite Hb in *; rewrite Hq in *;
    injection Hi as <-; injection Ho as <-; exact Hq'.
Qed.

(** X22: the quote of a trade is asked for an exact input, in both
    directions.  When [getTradeInfo] returns, on a symbol table keyed by
    symbol, the quote it returns is the aggregator's answer to a request
    in the mode [ExactIn] that gives the quote token for a BUY and the
    base token for a SELL, takes the other one, and whose amount is the
    requested amount scaled by the decimals of the token given: for a
    BUY, the amount of the base token is read as an amount of the quote
    token. *)
Theorem getTradeInfo_quote_request (w : World) (cfg : Config) (jcfg : JupiterConfig)
    (msgs : ErrorMessages) (conns : list Connection) (b q : string) (a : Num.number)
    (s : Side) (sl : option string) (st st' : St) (ti : TradeInfo)
    (quote : QuoteResponse) :
  keyedBySymbol (tokenMap st) ->
  getTradeInfo w cfg jcfg msgs conns b q a s sl st = (Ret (ti, quote), st') ->
  exists params,
    quoteAt w (calls st CQuote) params = Some quote
    /\ swapMode params = ExactIn
    /\ onlyDirectRoutes params = false
    /\ asLegacyTransaction params = false
    /\ inputMint params = address (inputToken s ti)
    /\ outputMint params = address (outputToken s ti)
    /\ quoteAmount params = getRequestAmount a (decimals (inputToken s ti))
    /\ requestAmount ti = getRequestAmount a (decimals (baseToken ti)).
Proof.
  intros Hkeyed Hret.
  pose proof (getTradeInfo_request w cfg jcfg msgs conns b q a s sl st st' ti quote
                Hkeyed Hret) as Hreq.
  apply getTradeInfo_returns in Hret as (_ & _ & Hraw).
  eexists. split; [exact Hreq|]. repeat split. exact Hraw.
Qed.

(** X23: the slippage that goes to the aggregator is always that of a
    positive percentage.  When [getTradeInfo] returns, the request
    carried the basis points of the requested slippage if that is a
    positive number, of the configured slippage if none was requested
    and that is positive, and of 1 percent, 100 basis points, if the
    slippage that applies is zero, negative or no number. *)
Theorem getTradeInfo_slippage (w : World) (cfg : Config) (jcfg : JupiterConfig)
    (msgs : ErrorMessages) (conns : list Connection) (b q : string) (a : Num.number)
    (s : Side) (sl : option string) (st st' : St) (ti : TradeInfo)
    (quote : QuoteResponse) :
  keyedBySymbol (tokenMap st) ->
  getTradeInfo w cfg jcfg msgs conns b q a s sl st = (Ret (ti, quote), st') ->
  exists params pct,
    quoteAt w (calls st CQuote) params = Some quote
    /\ slippageBps params = Num.round (Num.mul pct (Num.ofZ 100))
    /\ Num.gtb pct Num.zero = true
    /\ (forall given,
           given = (if truthyString sl then Num.ofString (default "" sl)
                    else getSlippagePct jcfg) ->
           (Num.gtb given Num.zero = true -> pct = given)
           /\ (Num.gtb given Num.zero = false ->
               pct = Num.ofZ 1 /\ slippageBps params = Num.ofZ 100)).
Proof.
  intros Hkeyed Hret.
  pose proof (getTradeInfo_request w cfg jcfg msgs conns b q a s sl st st' ti quote
                Hkeyed Hret) as Hreq.
  eexists _, _. split; [exact Hreq|]. split; [reflexivity|].
  split.
  - destruct (Num.gtb (if truthyString sl then Num.ofString (default "" sl)
                       else getSlippagePct jcfg) Num.zero) eqn:Hg;
      [exact Hg|reflexivity].
  - intros g ->. split; intros Hg.
    + rewrite Hg. reflexivity.
    + cbn [slippageBps]. rewrite Hg. split; [reflexivity|].
      vm_compute. reflexivity.
Qed.

(** X22 (witness): a BUY of 2 NINE, a token with nine decimals, with
    USDC, which has six: the quote is asked for 2 * 10^6 units, while
    the raw amount of the trade is 2 * 10^9. *)
Lemma getTradeInfo_quote_request_witness :
  keyedBySymbol (tokenMap (initialState nineTokens))
  /\ exists ti quote st' params,
      getTradeInfo strictQuoteWorld exampleConfig exampleJupiter exampleMessages
        exampleConnections "NINE" "USDC" (Num.ofZ 2) BUY (Some "abc")
        (initialState nineTokens) = (Ret (ti, quote), st')
      /\ quoteAt strictQuoteWorld 0 params = Some quote
      /\ quoteAmount params = Num.ofZ 2000000
      /\ requestAmount ti = Num.ofZ 2000000000.
Proof.
  split; [apply initialState_keyed|].
  destruct (getTradeInfo strictQuoteWorld exampleConfig exampleJupiter exampleMessages
              exampleConnections "NINE" "USDC" (Num.ofZ 2) BUY (Some "abc")
              (initialState nineTokens)) as [[[ti quote]|e|] st'] eqn:Hrun.
  - destruct (getTradeInfo_quote_request strictQuoteWorld exampleConfig exampleJupiter
                exampleMessages exampleConnections "NINE" "USDC" (Num.ofZ 2) BUY
                (Some "abc") (initialState nineTokens) st' ti quote
                (initialState_keyed nineTokens) Hrun)
      as (params & Hq & _ & _ & _ & _ & _ & Ha & Hraw).
    exists ti, quote, st', params. split; [reflexivity|]. split; [exact Hq|].
    vm_compute in Hrun. injection Hrun as <- _ _.
    rewrite Ha, Hraw. split; vm_compute; reflexivity.
  - exfalso. vm_compute in Hrun. discriminate Hrun.
  - exfalso. vm_compute in Hrun. discriminate Hrun.
Defined.

(** X23 (witness): the allowed slippage [abc] is no number, and the
    request carries 100 basis points. *)
Lemma getTradeInfo_slippage_witness :
  keyedBySymbol (tokenMap (initialState nineTokens))
  /\ exists ti quote st' params,
      getTradeInfo strictQuoteWorld exampleConfig exampleJupiter exampleMessages
        exampleConnections "NINE" "USDC" (Num.ofZ 2) BUY (Some "abc")
        (initialState nineTokens) = (Ret (ti, quote), st')
      /\ quoteAt strictQuoteWorld 0 params = Some quote
      /\ slippageBps params = Num.ofZ 100.
Proof.
  split; [apply initialState_keyed|].
  destruct (getTradeInfo strictQuoteWorld exampleConfig exampleJupiter exampleMessages
              exampleConnections "NINE" "USDC" (Num.ofZ 2) BUY (Some "abc")
              (initialState nineTokens)) as [[[ti quote]|e|] st'] eqn:Hrun.
  - destruct (getTradeInfo_slippage strictQuoteWorld exampleConfig exampleJupiter
                exampleMessages exampleConnections "NINE" "USDC" (Num.ofZ 2) BUY
                (Some "abc") (initialState nineTokens) st' ti quote
                (initialState_keyed nineTokens) Hrun)
      as (params & pct & Hq & _ & _ & Hgiven).
    exists ti, quote, st', params. split; [reflexivity|]. split; [exact Hq|].
    destruct (Hgiven _ eq_refl) as [_ Hdefault].
    apply Hdefault. vm_compute. reflexivity.
  - exfalso. vm_compute in Hrun. discriminate Hrun.
  - exfalso. vm_compute in Hrun. discriminate Hrun.
Defined.

(* ================================================================== *)
(** ** Reading a transaction back *)
(* ================================================================== *)

(** One pass of the fetching loop that does not bring the transaction:
    the endpoint has been taken from the pool, and the loop pauses or
    gives up. *)
Lemma pass_unavailable (conns : list Connection) (script : DetailsScript)
    (patience remaining attempt : nat) (st : St) :
  available (script attempt) = false ->
  fetchDetails conns script patience (S remaining) attempt st
  = if Nat.ltb attempt patience
    then fetchDetails conns script patience remaining (S attempt)
           (record (EvSleep (Num.ofZ 1000)) (rotate conns st))
    else (Ret None, rotate conns st).
Proof.
  intros Hun. cbn [fetchDetails].
  match goal with
  | |- bind (tryCatch ?m ?h) ?k st = _ =>
      assert (Hpass : tryCatch m h st
                      = if Nat.ltb attempt patience
                        then (Ret Retry, record (EvSleep (Num.ofZ 1000)) (rotate conns st))
                        else (Ret GiveUp, rotate conns st))
  end.
  { unfold tryCatch, connection. rewrite !bind_assoc, bind_getNextConnection.
    destruct (conns !! currentIndex st) as [c|]; run.
    - destruct (script attempt) as [[d|]|]; [discriminate| |]; run;
        destruct (Nat.ltb attempt patience); reflexivity.
    - destruct (Nat.ltb attempt patience); reflexivity. }
  destruct (Nat.ltb attempt patience);
    rewrite (bind_run _ _ _ _ _ Hpass); reflexivity.
Qed.

Lemma fetchDetails_gives_up (conns : list Connection) (script : DetailsScript)
    (patience : nat) :
  forall (n attempt remaining : nat) (st : St),
    (attempt + n = patience)%nat ->
    (n < remaining)%nat ->
    (forall k, (attempt <= k <= patience)%nat -> available (script k) = false) ->
    exists st',
      fetchDetails conns script patience remaining attempt st = (Ret None, st')
      /\ sleeps (trace st') = (n + sleeps (trace st))%nat
      /\ submissions (trace st') = submissions (trace st).
Proof.
  induction n as [|n IH]; intros attempt remaining st Hsum Hrem Hun;
    (destruct remaining as [|remaining]; [lia|]);
    rewrite pass_unavailable by (apply Hun; lia).
  - replace (Nat.ltb attempt patience) with false
      by (symmetry; apply Nat.ltb_ge; lia).
    eexists. split; [reflexivity|]. split; reflexivity.
  - replace (Nat.ltb attempt patience) with true
      by (symmetry; apply Nat.ltb_lt; lia).
    destruct (IH (S attempt) remaining
                (record (EvSleep (Num.ofZ 1000)) (rotate conns st)))
      as (st' & Hrun & Hsl & Hsub); [lia|lia|intros k Hk; apply Hun; lia|].
    exists st'. split; [exact Hrun|]. rewrite Hsl, Hsub.
    split; [|reflexivity]. unfold sleeps. cbn. lia.
Qed.

(** X24: the two extraction functions give up at different points.
    When the parsed transaction is not to be had, the token variant
    stops at the eleventh request, after ten pauses of one second, and
    the account variant at the twentieth, after nineteen; both then
    return a balance change and a fee of zero instead of failing.  For
    the token variant the answers to a twelfth and later request do not
    matter. *)
Theorem extraction_gives_up (conns : list Connection) (script : DetailsScript)
    (sig mintAddress ownerAddress : string) (accountIndex : Num.number) (st : St) :
  (forall k, (k <= 10)%nat -> available (script k) = false) ->
  (exists st',
      extractTokenBalanceChangeAndFee conns script sig mintAddress ownerAddress st
      = (Ret noChange, st')
      /\ sleeps (trace st') = (10 + sleeps (trace st))%nat)
  /\ ((forall k, (k <= 19)%nat -> available (script k) = false) ->
      exists st',
        extractAccountBalanceChangeAndFee conns script sig accountIndex st
        = (Ret noChange, st')
        /\ sleeps (trace st') = (19 + sleeps (trace st))%nat).
Proof.
  intros Hten. split.
  - destruct (fetchDetails_gives_up conns script 10 10 0 20 st)
      as (st' & Hrun & Hsl & _); [lia|lia|intros k Hk; apply Hten; lia|].
    exists st'. split; [|exact Hsl].
    unfold extractTokenBalanceChangeAndFee. rewrite (bind_run _ _ _ _ _ Hrun).
    reflexivity.
  - intros Htwenty.
    destruct (fetchDetails_gives_up conns script 19 19 0 20 st)
      as (st' & Hrun & Hsl & _); [lia|lia|intros k Hk; apply Htwenty; lia|].
    exists st'. split; [|exact Hsl].
    unfold extractAccountBalanceChangeAndFee. rewrite (bind_run _ _ _ _ _ Hrun).
    reflexivity.
Qed.

(** X24 (witness): the node has the transaction from the twelfth request
    on; the token variant has given up by then, the account variant
    finds it. *)
Lemma extraction_gives_up_witness :
  (forall k, (k <= 10)%nat -> available (lateScript k) = false)
  /\ fst (extractTokenBalanceChangeAndFee exampleConnections lateScript "SIG"
            (address usdcToken) "payer" (initialState []))
     = Ret noChange
  /\ fst (extractAccountBalanceChangeAndFee exampleConnections lateScript "SIG"
            Num.zero (initialState []))
     <> Ret noChange.
Proof.
  assert (Hlate : forall k, (k <= 10)%nat -> available (lateScript k) = false).
  { intros k Hk. unfold lateScript.
    replace (Nat.ltb k 11) with true by (symmetry; apply Nat.ltb_lt; lia).
    reflexivity. }
  split; [exact Hlate|].
  destruct (extraction_gives_up exampleConnections lateScript "SIG" (address usdcToken)
              "payer" Num.zero (initialState []) Hlate) as [(st' & Hrun & _) _].
  rewrite Hrun. split; [reflexivity|]. vm_compute. discriminate.
Defined.

Lemma fetchDetails_finds (conns : list Connection) (script : DetailsScript)
    (patience : nat) (d : Parsed.Transaction) :
  conns <> [] ->
  forall (j attempt remaining : nat) (st : St),
    (currentIndex st < length conns)%nat ->
    (attempt + j <= patience)%nat ->
    (j < remaining)%nat ->
    (forall k, (attempt <= k < attempt + j)%nat -> available (script k) = false) ->
    script (attempt + j)%nat = Some (Some d) ->
    exists st',
      fetchDetails conns script patience remaining attempt st = (Ret (Some (Some d)), st')
      /\ sleeps (trace st') = (j + sleeps (trace st))%nat.
Proof.
  intros Hne.
  assert (Hlen : length conns <> O) by (destruct conns; [congruence|discriminate]).
  induction j as [|j IH]; intros attempt remaining st Hidx Hpat Hrem Hun Hfound;
    (destruct remaining as [|remaining]; [lia|]).
  - rewrite Nat.add_0_r in Hfound. cbn [fetchDetails].
    destruct (lookup_lt_is_Some_2 conns (currentIndex st) Hidx) as [c Hc].
    match goal with
    | |- context [bind (tryCatch ?m ?h) ?k st] =>
        assert (Hpass : tryCatch m h st = (Ret (Found d), rotate conns st))
    end.
    { unfold tryCatch, connection. rewrite !bind_assoc, bind_getNextConnection.
      rewrite Hc. run. rewrite Hfound. run. reflexivity. }
    rewrite (bind_run _ _ _ _ _ Hpass). eexists. split; reflexivity.
  - rewrite pass_unavailable by (apply Hun; lia).
    replace (Nat.ltb attempt patience) with true
      by (symmetry; apply Nat.ltb_lt; lia).
    destruct (IH (S attempt) remaining
                (record (EvSleep (Num.ofZ 1000)) (rotate conns st)))
      as (st' & Hrun & Hsl).
    + cbn [record rotate currentIndex]. apply Nat.mod_upper_bound. exact Hlen.
    + lia.
    + lia.
    + intros k Hk. apply Hun. lia.
    + replace (S attempt + j)%nat with (attempt + S j)%nat by lia. exact Hfound.
    + exists st'. split; [exact Hrun|]. rewrite Hsl. unfold sleeps. cbn. lia.
Qed.

(** X25: the extraction functions wait for the parsed transaction and
    then read only that.  When the first [j] requests do not bring the
    transaction and the next one does, with [j] at most ten, both
    functions pause [j] times and return what they return when the node
    answers with that transaction at once. *)
Theorem extraction_waits (conns : list Connection) (script : DetailsScript)
    (d : Parsed.Transaction) (j : nat) (sig mintAddress ownerAddress : string)
    (accountIndex : Num.number) (st : St) :
  conns <> [] ->
  (currentIndex st < length conns)%nat ->
  (j <= 10)%nat ->
  (forall k, (k < j)%nat -> available (script k) = false) ->
  script j = Some (Some d) ->
  (fst (extractTokenBalanceChangeAndFee conns script sig mintAddress ownerAddress st)
   = fst (extractTokenBalanceChangeAndFee conns (fun _ => Some (Some d)) sig mintAddress
            ownerAddress st)
   /\ sleeps (trace (snd (extractTokenBalanceChangeAndFee conns script sig mintAddress
                            ownerAddress st)))
      = (j + sleeps (trace st))%nat)
  /\ (fst (extractAccountBalanceChangeAndFee conns script sig accountIndex st)
      = fst (extractAccountBalanceChangeAndFee conns (fun _ => Some (Some d)) sig
               accountIndex st)
      /\ sleeps (trace (snd (extractAccountBalanceChangeAndFee conns script sig
                               accountIndex st)))
         = (j + sleeps (trace st))%nat).
Proof.
  intros Hne Hidx Hj Hun Hfound.
  assert (Hrun : forall patience, (10 <= patience)%nat ->
            exists st1 st2,
              fetchDetails conns script patience 20 0 st = (Ret (Some (Some d)), st1)
              /\ sleeps (trace st1) = (j + sleeps (trace st))%nat
              /\ fetchDetails conns (fun _ => Some (Some d)) patience 20 0 st
                 = (Ret (Some (Some d)), st2)).
  { intros patience Hp.
    destruct (fetchDetails_finds conns script patience d Hne j 0 20 st)
      as (st1 & H1 & Hsl); [exact Hidx|lia|lia|intros k Hk; apply Hun; lia|exact Hfound|].
    destruct (fetchDetails_finds conns (fun _ => Some (Some d)) patience d Hne 0 0 20 st)
      as (st2 & H2 & _); [exact Hidx|lia|lia|intros k Hk; lia|reflexivity|].
    exists st1, st2. auto. }
  split.
  - destruct (Hrun 10%nat ltac:(lia)) as (st1 & st2 & H1 & Hsl & H2).
    unfold extractTokenBalanceChangeAndFee.
    rewrite (bind_run _ _ _ _ _ H1), (bind_run _ _ _ _ _ H2). run.
    split; [reflexivity|exact Hsl].
  - destruct (Hrun 19%nat ltac:(lia)) as (st1 & st2 & H1 & Hsl & H2).
    unfold extractAccountBalanceChangeAndFee.
    rewrite (bind_run _ _ _ _ _ H1), (bind_run _ _ _ _ _ H2). run.
    split; [reflexivity|exact Hsl].
Qed.

(** X25 (witness): a node that has the transaction at the first request:
    25 USDC arrived, for 5000 lamports. *)
Lemma extraction_waits_witness :
  exampleConnections <> []
  /\ (currentIndex (initialState []) < length exampleConnections)%nat
  /\ promptScript O = Some (Some exampleParsed)
  /\ fst (extractTokenBalanceChangeAndFee exampleConnections promptScript "SIG"
            (address usdcToken) "payer" (initialState []))
     = Ret {| Change.balanceChange := Num.ofZ 25;
              Change.fee := Num.ofString "0.000005" |}
  /\ sleeps (trace (snd (extractTokenBalanceChangeAndFee exampleConnections promptScript
                           "SIG" (address usdcToken) "payer" (initialState []))))
     = O.
Proof.
  split; [discriminate|]. split; [cbn; lia|]. split; [reflexivity|].
  destruct (extraction_waits exampleConnections promptScript exampleParsed 0 "SIG"
              (address usdcToken) "payer" Num.zero (initialState []))
    as [[Hsame Hsl] _]; [discriminate|cbn; lia|lia|intros k Hk; lia|reflexivity|].
  rewrite Hsl. split; [|reflexivity]. vm_compute. reflexivity.
Defined.

(* ================================================================== *)
(** ** Amounts that are never negative *)
(* ================================================================== *)

Lemma binary_round_aux_notNegative (mz ez : Z) (lz : location) :
  notNegative (binary_round_aux Num.prec Num.emax false mz ez lz).
Proof.
  unfold notNegative, binary_round_aux.
  destruct (shr_fexp Num.prec Num.emax mz ez lz) as [mrs1 e1].
  destruct (shr_fexp Num.prec Num.emax _ e1 loc_Exact) as [mrs2 e2].
  destruct (shr_m mrs2) as [|m|m]; try reflexivity.
  destruct (Z.leb e2 (Num.emax - Num.prec)); reflexivity.
Qed.

Lemma abs_notNegative (x : Num.number) : notNegative (Math.abs x).
Proof. destruct x as [[|]|[|]| |[|] m e]; reflexivity. Qed.

Lemma abs_scaled_notNegative (x : Num.number) :
  notNegative (Num.div (Math.abs x) (Num.ofZ 1000000000)).
Proof.
  assert (Hbillion : exists m e, Num.ofZ 1000000000 = S754_finite false m e)
    by (eexists _, _; vm_compute; reflexivity).
  destruct Hbillion as (m' & e' & ->).
  destruct x as [s|s| |s m e]; try reflexivity.
  unfold Math.abs, SFabs, Num.div, SFdiv.
  destruct (SFdiv_core_binary Num.prec Num.emax (Z.pos m) e (Z.pos m') e') as [[mz ez] lz].
  apply binary_round_aux_notNegative.
Qed.

(** X26: the amounts that are reported as moved are never negative.  The
    balance change of [extractAccountBalanceChangeAndFee] and the two
    totals of [extractSwapBalances] are positive, zero or no number,
    whatever the node answers; and [extractSwapBalances] fails with
    [Transaction not found], after one request and without a pause, when
    the node does not know the transaction. *)
Theorem swapped_amounts_not_negative (conns : list Connection)
    (reply : option (option TransactionResponse))
    (script inputScript outputScript : DetailsScript)
    (sig inputMint outputMint : string) (accountIndex : Num.number) (st : St) :
  (forall r, fst (extractAccountBalanceChangeAndFee conns script sig accountIndex st)
             = Ret r ->
             notNegative (Change.balanceChange r))
  /\ (forall r, fst (extractSwapBalances conns reply inputScript outputScript sig
                       inputMint outputMint st) = Ret r ->
                notNegative (Swapped.totalInputSwapped r)
                /\ notNegative (Swapped.totalOutputSwapped r))
  /\ (reply = Some None ->
      is_Some (conns !! currentIndex st) ->
      extractSwapBalances conns reply inputScript outputScript sig inputMint outputMint st
      = (Throw (JsError "Transaction not found"), rotate conns st)).
Proof.
  split; [|split].
  - intros r Hret.
    destruct (extractAccountBalanceChangeAndFee conns script sig accountIndex st)
      as [o st'] eqn:Hrun.
    cbn [fst] in Hret. subst o. unfold extractAccountBalanceChangeAndFee in Hrun.
    apply bind_inv_ret in Hrun as (fetched & s1 & _ & Hrun).
    destruct fetched as [txDetails|].
    + apply bind_inv_ret in Hrun as (d & s2 & _ & Hrun).
      injection Hrun as <- _. apply abs_scaled_notNegative.
    + injection Hrun as <- _. reflexivity.
  - intros r Hret.
    destruct (extractSwapBalances conns reply inputScript outputScript sig inputMint
                outputMint st) as [o st'] eqn:Hrun.
    cbn [fst] in Hret. subst o. unfold extractSwapBalances in Hrun.
    apply bind_inv_ret in Hrun as (c & s1 & _ & Hrun).
    apply bind_inv_ret in Hrun as (txInfo & s2 & _ & Hrun).
    apply bind_inv_ret in Hrun as (txInfo' & s3 & _ & Hrun).
    apply bind_inv_ret in Hrun as (fromAddress & s4 & _ & Hrun).
    apply bind_inv_ret in Hrun as (input & s5 & _ & Hrun).
    apply bind_inv_ret in Hrun as (output & s6 & _ & Hrun).
    injection Hrun as <- _. split; apply abs_notNegative.
  - intros -> [c Hc]. unfold extractSwapBalances, connection.
    rewrite !bind_assoc, bind_getNextConnection, Hc. run. reflexivity.
Qed.

(* ================================================================== *)
(** ** Polling a transaction *)
(* ================================================================== *)

(** X27: what [poll] answers.  A response echoes the hash and carries the
    slot that the node reported.  For a transaction that the node does
    not know it has the number 0 as its status and neither block, fee
    nor data, and nothing was waited for.  For a known transaction it
    has the data, their slot as the block, a fee, and as its status the
    number of [FAILED] if the meta data carry an error and the number of
    [CONFIRMED] if not, whatever the numbers of the status codes are. *)
Theorem poll_response (w : World) (conns : list Connection)
    (statusNumber : TransactionResponseStatusCode -> Z) (slotReply : option Z)
    (reply : option (option TransactionResponse)) (script : DetailsScript)
    (txHash : string) (st : St) (r : Poll.Response) :
  fst (poll w conns statusNumber slotReply reply script txHash st) = Ret r ->
  Poll.txHash r = txHash
  /\ slotReply = Some (Poll.currentBlock r)
  /\ ((reply = Some None
       /\ Poll.txStatus r = 0
       /\ Poll.txBlock r = None
       /\ Poll.fee r = None
       /\ Poll.txData r = None
       /\ trace (snd (poll w conns statusNumber slotReply reply script txHash st))
          = trace st)
      \/ exists d,
          reply = Some (Some d)
          /\ Poll.txData r = Some d
          /\ Poll.txBlock r = Some (slot d)
          /\ Poll.txStatus r
             = statusNumber (if failedOnChain d then FAILED else CONFIRMED)
          /\ is_Some (Poll.fee r)).
Proof.
  intros Hret.
  destruct (poll w conns statusNumber slotReply reply script txHash st)
    as [o st'] eqn:Hrun.
  cbn [fst] in Hret. subst o. cbn [snd]. unfold poll in Hrun.
  apply bind_inv_ret in Hrun as (t & s1 & Hnow & Hrun).
  apply bind_inv_ret in Hrun as (block & s2 & Hblock & Hrun).
  apply bind_inv_ret in Hrun as (txData & s3 & Htx & Hrun).
  unfold getCurrentBlockNumber in Hblock.
  apply bind_inv_ret in Hblock as (c & s1' & Hc & Hblock).
  apply awaitOr_inv in Hblock as [-> ->].
  unfold getTransaction in Htx.
  apply bind_inv_ret in Htx as (c' & s2' & Hc' & Htx).
  apply awaitOr_inv in Htx as [-> ->].
  destruct txData as [d|].
  - apply bind_inv_ret in Hrun as (change & s4 & _ & Hrun).
    injection Hrun as <- _. cbn.
    split; [reflexivity|]. split; [reflexivity|].
    right. exists d. repeat split.
    + unfold failedOnChain. destruct (responseMeta d) as [m|]; [|reflexivity].
      destruct (metaErr m); reflexivity.
    + eexists. reflexivity.
  - injection Hrun as <- <-. cbn.
    split; [reflexivity|]. split; [reflexivity|].
    left. repeat split.
    pose proof (quiet_now w st) as Hq1. rewrite Hnow in Hq1. cbn [snd] in Hq1.
    assert (Hq : forall s s' x, connection conns s = (Ret x, s') -> trace s' = trace s).
    { intros s s' x. unfold connection. rewrite bind_getNextConnection.
      destruct (conns !! currentIndex s); [|discriminate]. intros [= _ <-]. reflexivity. }
    rewrite (Hq _ _ _ Hc'), (Hq _ _ _ Hc). exact Hq1.
Qed.

(** X27 (witness): a transaction that failed on chain, and one that the
    node does not know, with a numbering of the status codes that has
    [UNCONFIRMED] at 0: the unknown transaction is reported with that
    number. *)
Lemma poll_response_witness :
  (exists r,
      fst (poll silentWorld exampleConnections statusFromZero (Some 250000123)
             (Some (Some failedResponse)) promptScript "SIG" (initialState [])) = Ret r
      /\ Poll.txStatus r = statusFromZero FAILED
      /\ Poll.txBlock r = Some 250000001)
  /\ exists r,
      fst (poll silentWorld exampleConnections statusFromZero (Some 250000123)
             (Some None) promptScript "SIG" (initialState [])) = Ret r
      /\ Poll.txStatus r = statusFromZero UNCONFIRMED
      /\ Poll.txBlock r = None.
Proof.
  split.
  - eexists. split; [vm_compute; reflexivity|].
    destruct (poll_response silentWorld exampleConnections statusFromZero
                (Some 250000123) (Some (Some failedResponse)) promptScript "SIG"
                (initialState []) _ ltac:(vm_compute; reflexivity))
      as (_ & _ & [(H & _)|(d & _ & _ & Hblock & Hstatus & _)]); [discriminate|].
    split; reflexivity.
  - eexists. split; [vm_compute; reflexivity|].
    destruct (poll_response silentWorld exampleConnections statusFromZero
                (Some 250000123) (Some None) promptScript "SIG"
                (initialState []) _ ltac:(vm_compute; reflexivity))
      as (_ & _ & [(_ & Hstatus & Hblock & _)|(d & H & _)]); [|discriminate].
    split; reflexivity.
Defined.

(* ================================================================== *)
(** ** Looking a token up by its address *)
(* ================================================================== *)

Lemma find_first (P : TokenInfo -> bool) (l : list TokenInfo) :
  (forall t, List.find P l = Some t ->
             exists l1 l2, l = l1 ++ t :: l2 /\ P t = true
                           /\ Forall (fun u => P u <> true) l1)
  /\ (List.find P l = None -> Forall (fun u => P u <> true) l).
Proof.
  induction l as [|u l [IHs IHn]]; cbn [List.find].
  - split; [discriminate|constructor].
  - destruct (P u) eqn:Hu.
    + split; [|discriminate]. intros t [= <-]. exists [], l. auto.
    + split.
      * intros t Ht. destruct (IHs t Ht) as (l1 & l2 & -> & Hp & Hall).
        exists (u :: l1), l2. repeat split; [exact Hp|].
        constructor; [congruence|exact Hall].
      * intros Hn. constructor; [congruence|auto].
Qed.

Lemma firstMatch_unique (P : TokenInfo -> Prop) (l : list TokenInfo) (t t' : TokenInfo) :
  firstMatch P l t -> firstMatch P l t' -> t = t'.
Proof.
  intros (l1 & l2 & -> & Ht & Hl1) (l1' & l2' & Heq & Ht' & Hl1').
  revert l1' Heq Hl1'. induction l1 as [|x l1 IH]; intros [|y l1'] Heq Hl1';
    simpl in Heq.
  - congruence.
  - injection Heq as -> _. exfalso. rewrite Forall_cons in Hl1'. tauto.
  - injection Heq as <- _. exfalso. rewrite Forall_cons in Hl1. tauto.
  - injection Heq as _ Heq. rewrite Forall_cons in Hl1, Hl1'.
    apply (IH (proj2 Hl1) l1' Heq (proj2 Hl1')).
Qed.

(** X28: the lookup by address scans the token list of the cluster from
    its start.  For a text that is a public key, and without the token
    API, on one of the three clusters [getTokenByAddress] returns the
    first entry with the address among the entries of the resolved list
    that are of the cluster's chain, and fails with [Token not found in
    the token list] exactly if none of those has it.  On a network that
    is no cluster, nor the name of an inherited member, it fails with
    [Unknown slug].  With the token API on a network other than
    [mainnet-beta] it fails before anything is looked at. *)
Theorem getTokenByAddress_first (w : World) (cfg : Config)
    (isPublicKey : string -> bool) (fetchMint : string -> option TokenInfo)
    (tokenAddress : string) (st : St) (l : list TokenInfo) :
  isPublicKey tokenAddress = true ->
  tokenListAt w (calls st CTokenList) = Some l ->
  (forall chain,
      Resolver.CLUSTER_SLUGS (network cfg) = Some chain ->
      (forall t, fst (getTokenByAddress w cfg isPublicKey fetchMint tokenAddress false st)
                 = Ret t
                 <-> firstMatch (fun u => address u = tokenAddress)
                       (Resolver.filterByChainId chain l) t)
      /\ (fst (getTokenByAddress w cfg isPublicKey fetchMint tokenAddress false st)
          = Throw (JsError "Token not found in the token list")
          <-> Forall (fun u => address u <> tokenAddress)
                (Resolver.filterByChainId chain l)))
  /\ (Resolver.CLUSTER_SLUGS (network cfg) = None ->
      Resolver.inheritedName (network cfg) = false ->
      fst (getTokenByAddress w cfg isPublicKey fetchMint tokenAddress false st)
      = Throw (JsError ("Unknown slug: " +:+ network cfg
                        +:+ ", please use one of mainnet-beta,testnet,devnet")))
  /\ (network cfg <> "mainnet-beta" ->
      getTokenByAddress w cfg isPublicKey fetchMint tokenAddress true st
      = (Throw (JsError "API usage is only allowed on mainnet-beta"), st)).
Proof.
  intros Hkey Hlist.
  split; [|split].
  - intros chain Hchain.
    set (kept := Resolver.filterByChainId chain l).
    assert (Hrun : getTokenByAddress w cfg isPublicKey fetchMint tokenAddress false st
                   = awaitOr (List.find (fun t => String.eqb (address t) tokenAddress) kept)
                       (JsError "Token not found in the token list")
                       (bump CTokenList st)).
    { unfold getTokenByAddress. cbn [andb]. rewrite Hkey. run.
      rewrite (bind_run _ _ _ _ _ (getTokenList_run w cfg st l chain Hlist Hchain)).
      reflexivity. }
    rewrite Hrun. clearbody kept.
    destruct (find_first (fun t => String.eqb (address t) tokenAddress) kept) as [Hs Hn].
    assert (Hfirst : forall t,
               List.find (fun t => String.eqb (address t) tokenAddress) kept = Some t ->
               firstMatch (fun u => address u = tokenAddress) kept t).
    { intros t Ht. destruct (Hs t Ht) as (l1 & l2 & -> & Hp & Hall).
      exists l1, l2. split; [reflexivity|]. split; [apply String.eqb_eq; exact Hp|].
      eapply Forall_impl; [exact Hall|]. intros u Hu He. apply Hu.
      apply String.eqb_eq. exact He. }
    assert (Hnone : List.find (fun t => String.eqb (address t) tokenAddress) kept = None ->
                    Forall (fun u => address u <> tokenAddress) kept).
    { intros Hf. eapply Forall_impl; [exact (Hn Hf)|]. intros u Hu He. apply Hu.
      apply String.eqb_eq. exact He. }
    assert (Hexcl : forall t, firstMatch (fun u => address u = tokenAddress) kept t ->
                              Forall (fun u => address u <> tokenAddress) kept -> False).
    { intros t (l1 & l2 & -> & Ht & _) Hall.
      rewrite Forall_app, Forall_cons in Hall. tauto. }
    split.
    + intros t. destruct (List.find _ kept) as [t'|] eqn:Hf; cbn.
      * split.
        -- intros [= <-]. apply Hfirst. reflexivity.
        -- intros Hm. f_equal.
           eapply firstMatch_unique; [apply Hfirst; reflexivity|exact Hm].
      * split; [discriminate|]. intros Hm. exfalso. eapply Hexcl; [exact Hm|auto].
    + destruct (List.find _ kept) as [t'|] eqn:Hf; cbn.
      * split; [discriminate|]. intros Hall. exfalso.
        eapply Hexcl; [apply Hfirst; reflexivity|exact Hall].
      * split; [intros _; auto|reflexivity].
  - intros Hchain Hname.
    unfold getTokenByAddress, getTokenList, Resolver.filterByClusterSlug.
    cbn [andb]. rewrite Hkey. run. rewrite Hlist. run. rewrite Hchain, Hname.
    reflexivity.
  - intros Hnet. unfold getTokenByAddress.
    replace (String.eqb (network cfg) "mainnet-beta") with false
      by (symmetry; apply String.eqb_neq; exact Hnet).
    reflexivity.
Qed.

(** X28 (witness): on the main network a mint that is listed twice for
    its chain resolves to its first entry; on the development network
    the same list has no entry of the chain, and the token API is
    refused. *)
Lemma getTokenByAddress_first_witness :
  anyKey (address jupToken) = true
  /\ fst (getTokenByAddress twiceListedWorld exampleConfig anyKey noMint (address jupToken)
            false (initialState [])) = Ret oldJupToken
  /\ fst (getTokenByAddress twiceListedWorld devnetConfig anyKey noMint (address jupToken)
            false (initialState []))
     = Throw (JsError "Token not found in the token list")
  /\ fst (getTokenByAddress twiceListedWorld devnetConfig anyKey noMint (address jupToken)
            true (initialState []))
     = Throw (JsError "API usage is only allowed on mainnet-beta").
Proof.
  split; [reflexivity|].
  destruct (getTokenByAddress_first twiceListedWorld exampleConfig anyKey noMint
              (address jupToken) (initialState []) twiceListed eq_refl eq_refl)
    as (Hmain & _ & _).
  destruct (getTokenByAddress_first twiceListedWorld devnetConfig anyKey noMint
              (address jupToken) (initialState []) twiceListed eq_refl eq_refl)
    as (Hdev & _ & Hapi).
  split; [|split].
  - apply (Hmain 101 eq_refl). exists [solToken], [jupToken]. split; [reflexivity|].
    split; [reflexivity|]. constructor; [discriminate|constructor].
  - apply (Hdev 103 eq_refl). constructor.
  - rewrite Hapi by discriminate. reflexivity.
Defined.

(* ================================================================== *)
(** ** The symbol table stays keyed by symbol *)
(* ================================================================== *)

(** X29: [init] keeps the symbol table keyed by symbol: if every entry
    is stored under its own symbol before, so it is afterwards, whether
    the tokens are loaded or not; a table that starts empty is therefore
    keyed by symbol after any number of initialisations. *)
Theorem init_keeps_keyed (w : World) (cfg : Config) (st : St) :
  keyedBySymbol (tokenMap st) ->
  keyedBySymbol (tokenMap (snd (init w cfg st))).
Proof.
  intros Hkeyed. unfold init, getTokenList, setTokens. run.
  destruct (ready st); run; [exact Hkeyed|].
  destruct (tokenListAt w (calls st CTokenList)) as [l|]; run; [|exact Hkeyed].
  destruct (Resolver.filterByClusterSlug (network cfg) l) as [kept|]; run;
    [|exact Hkeyed].
  cbn [snd withTokens tokenMap]. apply loadTokens_keyed. exact Hkeyed.
Qed.

(** X29 (witness): the example tokens loaded into an empty table. *)
Lemma init_keeps_keyed_witness :
  keyedBySymbol (tokenMap freshState)
  /\ tokenMap (snd (init listingWorld exampleConfig freshState)) !! "JUP" = Some jupToken
  /\ keyedBySymbol (tokenMap (snd (init listingWorld exampleConfig freshState))).
Proof.
  assert (Hfresh : keyedBySymbol (tokenMap freshState))
    by (intros s t H; cbn in H; rewrite lookup_empty in H; discriminate H).
  split; [exact Hfresh|]. split; [vm_compute; reflexivity|].
  apply (init_keeps_keyed listingWorld exampleConfig freshState Hfresh).
Defined.
(* ================================================================== *)
(** ** Whole amounts in base units *)
(* ================================================================== *)

Lemma digits2_pos_bounds (p : positive) :
  2 ^ (Zpos (digits2_pos p) - 1) <= Zpos p < 2 ^ Zpos (digits2_pos p).
Proof.
  induction p as [p IH | p IH |]; cbn [digits2_pos].
  - rewrite Pos2Z.inj_succ, Pos2Z.inj_xI.
    replace (Z.succ (Zpos (digits2_pos p)) - 1) with (Z.succ (Zpos (digits2_pos p) - 1)) by lia.
    rewrite !Z.pow_succ_r by lia. lia.
  - rewrite Pos2Z.inj_succ. change (Zpos p~0) with (2 * Zpos p).
    replace (Z.succ (Zpos (digits2_pos p)) - 1) with (Z.succ (Zpos (digits2_pos p) - 1)) by lia.
    rewrite !Z.pow_succ_r by lia. lia.
  - cbn. lia.
Qed.

Lemma digits2_pos_le (p : positive) (n : Z) :
  Zpos p < 2 ^ n -> Zpos (digits2_pos p) <= n.
Proof.
  intros H. destruct (digits2_pos_bounds p) as [Hlo _].
  destruct (Z.le_gt_cases (Zpos (digits2_pos p)) n) as [|Hgt]; [assumption|].
  exfalso.
  assert (2 ^ n <= 2 ^ (Zpos (digits2_pos p) - 1)).
  { destruct (Z.le_gt_cases 0 n).
    - apply Z.pow_le_mono_r; lia.
    - rewrite (Z.pow_neg_r 2 n) by lia. apply Z.pow_nonneg. lia. }
  lia.
Qed.

Lemma digits2_pos_mono (p q : positive) :
  (p <= q)%positive -> Zpos (digits2_pos p) <= Zpos (digits2_pos q).
Proof.
  intros H. apply digits2_pos_le.
  destruct (digits2_pos_bounds q) as [_ Hhi]. lia.
Qed.

Lemma iter_xO_value (m k : positive) :
  Zpos (Pos.iter xO m k) = Zpos m * 2 ^ Zpos k.
Proof.
  induction k as [|k IH] using Pos.peano_ind.
  - cbn. lia.
  - rewrite Pos.iter_succ.
    change (Zpos (Pos.iter xO m k)~0) with (2 * Zpos (Pos.iter xO m k)).
    rewrite IH, Pos2Z.inj_succ, Z.pow_succ_r by lia. lia.
Qed.

Lemma iter_xO_digits (m k : positive) :
  digits2_pos (Pos.iter xO m k) = (digits2_pos m + k)%positive.
Proof.
  induction k as [|k IH] using Pos.peano_ind.
  - cbn. lia.
  - rewrite Pos.iter_succ. cbn [digits2_pos]. rewrite IH. lia.
Qed.

Lemma iter_pos_nat {A : Type} (f : A -> A) (p : positive) (x : A) :
  SpecFloat.iter_pos f p x = Nat.iter (Pos.to_nat p) f x.
Proof.
  revert x. induction p as [p IH | p IH |]; intros x; cbn [SpecFloat.iter_pos].
  - rewrite !IH, Pos2Nat.inj_xI.
    replace (S (2 * Pos.to_nat p)) with (Pos.to_nat p + S (Pos.to_nat p))%nat by lia.
    rewrite Nat.iter_add, Nat.iter_succ_r. reflexivity.
  - rewrite !IH, Pos2Nat.inj_xO.
    replace (2 * Pos.to_nat p)%nat with (Pos.to_nat p + Pos.to_nat p)%nat by lia.
    rewrite Nat.iter_add. reflexivity.
  - reflexivity.
Qed.

Lemma shr_1_exact (n : nat) (q : positive) :
  Nat.iter n shr_1
    {| shr_m := Zpos (Nat.iter n xO q); shr_r := false; shr_s := false |}
  = {| shr_m := Zpos q; shr_r := false; shr_s := false |}.
Proof.
  induction n as [|n IH]; [reflexivity|].
  rewrite Nat.iter_succ_r. cbn [Nat.iter nat_rect shr_1 shr_m shr_r shr_s orb].
  exact IH.
Qed.

Lemma iter_pos_shr_1_exact (k q : positive) :
  SpecFloat.iter_pos shr_1 k
    {| shr_m := Zpos (Pos.iter xO q k); shr_r := false; shr_s := false |}
  = {| shr_m := Zpos q; shr_r := false; shr_s := false |}.
Proof.
  rewrite iter_pos_nat, Pos2Nat.inj_iter. apply shr_1_exact.
Qed.
Lemma shifted_positive (M N : positive) (p : Z) :
  0 <= p -> Zpos M = Zpos N * 2 ^ p ->
  match p with Zpos p' => M = Pos.iter xO N p' | _ => M = N end.
Proof.
  intros Hp HM. destruct p as [|p'|p']; [| |lia].
  - rewrite Z.pow_0_r, Z.mul_1_r in HM. congruence.
  - rewrite <- iter_xO_value in HM. congruence.
Qed.

Lemma shifted_digits (M N : positive) (p : Z) :
  0 <= p -> Zpos M = Zpos N * 2 ^ p ->
  Zpos (digits2_pos M) = Zpos (digits2_pos N) + p.
Proof.
  intros Hp HM. pose proof (shifted_positive M N p Hp HM) as H.
  destruct p as [|p'|p']; [| |lia]; subst M.
  - lia.
  - rewrite iter_xO_digits. lia.
Qed.

Lemma shr_fexp_exact (M N : positive) (e p : Z) :
  0 <= p -> Zpos M = Zpos N * 2 ^ p ->
  Zpos (digits2_pos N) = 53 -> -1074 <= e + p ->
  shr_fexp 53 1024 (Zpos M) e loc_Exact
  = ({| shr_m := Zpos N; shr_r := false; shr_s := false |}, e + p).
Proof.
  intros Hp HM HN He.
  pose proof (shifted_digits M N p Hp HM) as Hd.
  pose proof (shifted_positive M N p Hp HM) as Hs.
  unfold shr_fexp, fexp, emin. cbn [Zdigits2 shr_record_of_loc].
  replace (Z.max (Zpos (digits2_pos M) + e - 53) (3 - 1024 - 53) - e) with p by lia.
  destruct p as [|p'|p']; [| |lia]; subst M; unfold shr.
  - rewrite Z.add_0_r. reflexivity.
  - rewrite iter_pos_shr_1_exact. reflexivity.
Qed.

Lemma binary_round_aux_exact (M z : positive) (k : Z) :
  Zpos (digits2_pos z) <= 53 ->
  53 - Zpos (digits2_pos z) <= k ->
  Zpos M = Zpos z * 2 ^ k ->
  binary_round_aux Num.prec Num.emax false (Zpos M) (- k) loc_Exact
  = S754_finite false (Z.to_pos (Zpos z * 2 ^ (53 - Zpos (digits2_pos z))))
      (Zpos (digits2_pos z) - 53).
Proof.
  intros Hz Hk HM.
  pose proof (Pos2Z.is_pos (digits2_pos z)) as Hdz.
  set (dz := Zpos (digits2_pos z)) in *.
  set (N := Z.to_pos (Zpos z * 2 ^ (53 - dz))).
  assert (HN : Zpos N = Zpos z * 2 ^ (53 - dz)).
  { unfold N. rewrite Z2Pos.id; [reflexivity|].
    apply Z.mul_pos_pos; [lia|]. apply Z.pow_pos_nonneg; lia. }
  assert (HdN : Zpos (digits2_pos N) = 53).
  { rewrite (shifted_digits N z (53 - dz)); [fold dz; lia | lia | exact HN]. }
  assert (HMN : Zpos M = Zpos N * 2 ^ (k - (53 - dz))).
  { rewrite HN, <- Z.mul_assoc, <- Z.pow_add_r by lia.
    replace (53 - dz + (k - (53 - dz))) with k by lia. exact HM. }
  unfold binary_round_aux, Num.prec, Num.emax.
  rewrite (shr_fexp_exact M N (- k) (k - (53 - dz))) by (assumption || lia).
  cbn [shr_m shr_r shr_s loc_of_shr_record round_nearest_even].
  rewrite (shr_fexp_exact N N (- k + (k - (53 - dz))) 0)
    by (try assumption; try lia; rewrite Z.pow_0_r; lia).
  cbn [shr_m].
  replace (- k + (k - (53 - dz)) + 0) with (dz - 53) by lia.
  destruct (Z.leb_spec (dz - 53) (1024 - 53)); [reflexivity|lia].
Qed.

Lemma ofZ_normal (z : positive) :
  Zpos (digits2_pos z) <= 53 ->
  Num.ofZ (Zpos z)
  = S754_finite false (Z.to_pos (Zpos z * 2 ^ (53 - Zpos (digits2_pos z))))
      (Zpos (digits2_pos z) - 53).
Proof.
  intros Hz.
  pose proof (Pos2Z.is_pos (digits2_pos z)) as Hdz.
  unfold Num.ofZ, binary_normalize, binary_round, shl_align, fexp, emin,
    Num.prec, Num.emax.
  replace (Z.max (Zpos (digits2_pos z) + 0 - 53) (3 - 1024 - 53) - 0)
    with (Zpos (digits2_pos z) - 53) by lia.
  replace (Z.max (Zpos (digits2_pos z) + 0 - 53) (3 - 1024 - 53))
    with (Zpos (digits2_pos z) - 53) by lia.
  destruct (Zpos (digits2_pos z) - 53) as [|d|d] eqn:Hd; [|lia|].
  - change 0 with (- 0) at 1.
    change 53 with Num.prec at 1. change 1024 with Num.emax at 1.
    rewrite (binary_round_aux_exact z z 0); [|lia|lia|rewrite Z.pow_0_r; lia].
    f_equal. lia.
  - change (Zneg d) with (- Zpos d) at 1.
    change 53 with Num.prec at 1. change 1024 with Num.emax at 1.
    rewrite (binary_round_aux_exact (Pos.iter xO z d) z (Zpos d));
      [|lia|lia|apply iter_xO_value].
    f_equal. lia.
Qed.

Lemma mul_ofZ (a b : positive) :
  Zpos (a * b) < 2 ^ 53 ->
  Num.mul (Num.ofZ (Zpos a)) (Num.ofZ (Zpos b)) = Num.ofZ (Zpos (a * b)).
Proof.
  intros Hab.
  pose proof (digits2_pos_le _ _ Hab) as Hdab.
  assert (Hda : Zpos (digits2_pos a) <= Zpos (digits2_pos (a * b)))
    by (apply digits2_pos_mono; nia).
  assert (Hdb : Zpos (digits2_pos b) <= Zpos (digits2_pos (a * b)))
    by (apply digits2_pos_mono; nia).
  rewrite (ofZ_normal a), (ofZ_normal b), (ofZ_normal (a * b)) by lia.
  unfold Num.mul, SFmul. cbn [xorb].
  set (da := Zpos (digits2_pos a)) in *. set (db := Zpos (digits2_pos b)) in *.
  assert (0 < 2 ^ (53 - da)) by (apply Z.pow_pos_nonneg; lia).
  assert (0 < 2 ^ (53 - db)) by (apply Z.pow_pos_nonneg; lia).
  replace (da - 53 + (db - 53)) with (- (53 - da + (53 - db))) by lia.
  apply binary_round_aux_exact; [lia|lia|].
  rewrite !Pos2Z.inj_mul, !Z2Pos.id by (apply Z.mul_pos_pos; lia).
  rewrite Z.pow_add_r by lia. ring.
Qed.

Lemma floor_ofZ (z : positive) :
  Zpos z < 2 ^ 53 -> Num.floor (Num.ofZ (Zpos z)) = Num.ofZ (Zpos z).
Proof.
  intros Hz. pose proof (digits2_pos_le _ _ Hz) as Hdz.
  rewrite (ofZ_normal z Hdz). unfold Num.floor.
  destruct (Zpos (digits2_pos z) - 53) as [|d|d] eqn:Hd; [reflexivity|lia|].
  replace (53 - Zpos (digits2_pos z)) with (Zpos d) by lia.
  assert (0 < 2 ^ Zpos d) by (apply Z.pow_pos_nonneg; lia).
  rewrite Z2Pos.id by (apply Z.mul_pos_pos; lia).
  rewrite Z.shiftr_div_pow2, Z.div_mul by lia.
  change (binary_normalize Num.prec Num.emax (Zpos z) 0 false)
    with (Num.ofZ (Zpos z)).
  rewrite (ofZ_normal z Hdz), Hd.
  replace (53 - Zpos (digits2_pos z)) with (Zpos d) by lia.
  reflexivity.
Qed.

(** X30 ([Jupiter.getRequestAmount], as [getTradeInfo] and [getQuote]
    call it): a whole amount is converted to base units exactly.  For a
    whole number [n] of tokens and a token of at most 15 decimals [d],
    as long as [n * 10^d] stays below [2^53] the request amount is the
    number [n * 10^d] itself: neither the multiplication nor
    [Math.floor] loses a unit. *)
Theorem getRequestAmount_whole (n d : Z) :
  0 <= n -> 0 <= d <= 15 -> n * 10 ^ d < 2 ^ 53 ->
  getRequestAmount (Num.ofZ n) d = Num.ofZ (n * 10 ^ d).
Proof.
  intros Hn Hd Hnd.
  assert (Hpow : 0 < 10 ^ d < 2 ^ 53).
  { split; [apply Z.pow_pos_nonneg; lia|].
    apply Z.le_lt_trans with (10 ^ 15); [apply Z.pow_le_mono_r; lia|reflexivity]. }
  assert (Hs : Num.pow10 d = Num.ofZ (10 ^ d)).
  { unfold Num.pow10, Num.ofDecimal. destruct d; [| |lia]; rewrite Z.mul_1_l; reflexivity. }
  unfold getRequestAmount. rewrite Hs.
  destruct (10 ^ d) as [|q|q] eqn:Hq; [lia| |lia].
  destruct n as [|a|a]; [| |lia].
  - rewrite (ofZ_normal q) by (apply digits2_pos_le; lia). reflexivity.
  - change (Zpos a * Zpos q) with (Zpos (a * q)) in *.
    rewrite mul_ofZ, floor_ofZ by assumption. reflexivity.
Qed.

Lemma getRequestAmount_whole_witness :
  getRequestAmount (Num.ofZ 10000) 9 = Num.ofZ 10000000000000.
Proof.
  apply (getRequestAmount_whole 10000 9); [lia | lia | reflexivity].
Defined.
